(** * Metropolis-Light-Transport renderer: a shallow embedding of its core

    The development follows the C++ sources: floating-point values are IEEE
    754 binary32 numbers ([spec_float] with 24 bits of precision), machine
    integers are [Z] with their wrap-around written out, [std::vector]s are
    lists read with [!!] and written with [<[ _ := _ ]>], and fallible or
    undefined operations return [option]. *)

From Stdlib Require Import Ascii String.
From Stdlib Require Import ZArith List Bool Lia Sorted.
From Stdlib Require Import Floats.SpecFloat.
From stdpp Require Import base option list.

Local Open Scope Z_scope.

(** ** Machine integers *)

Module Int.
(** [std::uint32_t], [std::uint64_t] / [std::size_t] and [int]. *)
Definition u32 (z : Z) : Z := z mod 2 ^ 32.
Definition u64 (z : Z) : Z := z mod 2 ^ 64.
Definition INT_MIN : Z := - 2 ^ 31.
Definition INT_MAX : Z := 2 ^ 31 - 1.
(** Conversion of an unsigned or wider value to [int] (two's complement). *)
Definition i32 (z : Z) : Z := (z + 2 ^ 31) mod 2 ^ 32 - 2 ^ 31.
End Int.

(** A vector read [v[i]]; outside the vector it is undefined ([None]). *)
Definition at_ {A} (v : list A) (i : Z) : option A :=
  if 0 <=? i then v !! Z.to_nat i else None.

(** ** binary32 arithmetic *)

Module F32.
Definition prec : Z := 24.
Definition emax : Z := 128.

Definition float : Type := spec_float.

Definition add : float -> float -> float := SFadd prec emax.
Definition sub : float -> float -> float := SFsub prec emax.
Definition mul : float -> float -> float := SFmul prec emax.
Definition div : float -> float -> float := SFdiv prec emax.
Definition sqrt : float -> float := SFsqrt prec emax.
Definition opp : float -> float := SFopp.
Definition abs : float -> float := SFabs.

(** The C++ comparisons; each is false as soon as an operand is NaN. *)
Definition ltb (a b : float) : bool := SFltb a b.
Definition leb (a b : float) : bool := SFleb a b.
Definition gtb (a b : float) : bool := SFltb b a.
Definition eqb (a b : float) : bool := SFeqb a b.

(** Integer to float conversion, round to nearest even. *)
Definition of_Z (n : Z) : float := binary_normalize prec emax n 0 false.

Definition zero : float := S754_zero false.
Definition one : float := S754_finite false 8388608 (-23).
Definition two : float := S754_finite false 8388608 (-22).
Definition three : float := S754_finite false 12582912 (-22).
Definition half : float := S754_finite false 8388608 (-24).
Definition infinity : float := S754_infinity false.
Definition nan : float := S754_nan.

(** [std::max] and [std::min] as the standard library defines them. *)
Definition max (a b : float) : float := if ltb a b then b else a.
Definition min (a b : float) : float := if ltb b a then b else a.

(** Float to [int] conversion: truncation toward zero.  Outside the range
    of [int] (and for NaN) C++ leaves the result undefined; the model
    returns the value the x86 conversion instruction produces. *)
Definition to_int (x : float) : Z :=
  match x with
  | S754_zero _ => 0
  | S754_finite s m e =>
      let v := if 0 <=? e then Zpos m * 2 ^ e else Zpos m / 2 ^ (- e) in
      let v := if s then - v else v in
      if (Int.INT_MIN <=? v) && (v <=? Int.INT_MAX) then v else Int.INT_MIN
  | _ => Int.INT_MIN
  end.
End F32.

Abbreviation float := F32.float.

(** ** math.h *)

Definition PI : float := S754_finite false 13176795 (-22).
Definition Epsilon : float := S754_finite false 13743895 (-38).

(** ** Vectors (glm::vec2, glm::vec3, glm::vec4, glm::bvec4) *)

Record Vec2 := mkVec2 { v2x : float; v2y : float }.
Record Vec3 := mkVec3 { v3x : float; v3y : float; v3z : float }.
Record Vec4 := mkVec4 { v4x : float; v4y : float; v4z : float; v4w : float }.
Record bvec4 := mkBvec4 { b4x : bool; b4y : bool; b4z : bool; b4w : bool }.

Module V3.
Definition splat (a : float) : Vec3 := mkVec3 a a a.
Definition map2 (f : float -> float -> float) (a b : Vec3) : Vec3 :=
  mkVec3 (f (v3x a) (v3x b)) (f (v3y a) (v3y b)) (f (v3z a) (v3z b)).
Definition add := map2 F32.add.
Definition sub := map2 F32.sub.
Definition mul := map2 F32.mul.
Definition scale (a : Vec3) (s : float) : Vec3 := map2 F32.mul a (splat s).
Definition divs (a : Vec3) (s : float) : Vec3 := map2 F32.div a (splat s).
Definition neg (a : Vec3) : Vec3 :=
  mkVec3 (F32.opp (v3x a)) (F32.opp (v3y a)) (F32.opp (v3z a)).
(** [v[axis]]; an axis outside 0..2 is outside the vector. *)
Definition get (a : Vec3) (axis : Z) : float :=
  if axis =? 0 then v3x a else if axis =? 1 then v3y a else v3z a.
(** glm::dot, glm::cross, glm::length and glm::normalize. *)
Definition dot (a b : Vec3) : float :=
  let t := mul a b in F32.add (F32.add (v3x t) (v3y t)) (v3z t).
Definition cross (a b : Vec3) : Vec3 :=
  mkVec3 (F32.sub (F32.mul (v3y a) (v3z b)) (F32.mul (v3y b) (v3z a)))
         (F32.sub (F32.mul (v3z a) (v3x b)) (F32.mul (v3z b) (v3x a)))
         (F32.sub (F32.mul (v3x a) (v3y b)) (F32.mul (v3x b) (v3y a))).
Definition length (a : Vec3) : float := F32.sqrt (dot a a).
Definition normalize (a : Vec3) : Vec3 :=
  scale a (F32.div F32.one (F32.sqrt (dot a a))).
Definition eqb (a b : Vec3) : bool :=
  F32.eqb (v3x a) (v3x b) && F32.eqb (v3y a) (v3y b) && F32.eqb (v3z a) (v3z b).
End V3.

Module V4.
Definition splat (a : float) : Vec4 := mkVec4 a a a a.
Definition map2 (f : float -> float -> float) (a b : Vec4) : Vec4 :=
  mkVec4 (f (v4x a) (v4x b)) (f (v4y a) (v4y b))
         (f (v4z a) (v4z b)) (f (v4w a) (v4w b)).
Definition cmp (f : float -> float -> bool) (a b : Vec4) : bvec4 :=
  mkBvec4 (f (v4x a) (v4x b)) (f (v4y a) (v4y b))
          (f (v4z a) (v4z b)) (f (v4w a) (v4w b)).
(** Lane [i] of a vector; lanes are numbered 0..3. *)
Definition get (a : Vec4) (i : Z) : float :=
  if i =? 0 then v4x a else if i =? 1 then v4y a
  else if i =? 2 then v4z a else v4w a.
Definition bget (a : bvec4) (i : Z) : bool :=
  if i =? 0 then b4x a else if i =? 1 then b4y a
  else if i =? 2 then b4z a else b4w a.
Definition bset (a : bvec4) (i : Z) (v : bool) : bvec4 :=
  if i =? 0 then mkBvec4 v (b4y a) (b4z a) (b4w a)
  else if i =? 1 then mkBvec4 (b4x a) v (b4z a) (b4w a)
  else if i =? 2 then mkBvec4 (b4x a) (b4y a) v (b4w a)
  else mkBvec4 (b4x a) (b4y a) (b4z a) v.
(** [a[i] = v]. *)
Definition set (a : Vec4) (i : Z) (v : float) : Vec4 :=
  if i =? 0 then mkVec4 v (v4y a) (v4z a) (v4w a)
  else if i =? 1 then mkVec4 (v4x a) v (v4z a) (v4w a)
  else if i =? 2 then mkVec4 (v4x a) (v4y a) v (v4w a)
  else mkVec4 (v4x a) (v4y a) (v4z a) v.
Definition band (a b : bvec4) : bvec4 :=
  mkBvec4 (b4x a && b4x b) (b4y a && b4y b) (b4z a && b4z b) (b4w a && b4w b).
Definition bnot (a : bvec4) : bvec4 :=
  mkBvec4 (negb (b4x a)) (negb (b4y a)) (negb (b4z a)) (negb (b4w a)).
(** glm::min(x, y) is [y < x ? y : x], glm::max(x, y) is [x < y ? y : x]. *)
Definition min := map2 F32.min.
Definition max := map2 F32.max.
End V4.

Record Ray := mkRay { ray_o : Vec3; ray_d : Vec3 }.

(** ** random.h / random.cpp: the PCG32 generator *)

Module PCG32.
Definition Multiplier : Z := 6364136223846793005.

Record Generator := mkGenerator { mcgState : Z }.

(** [Generator() = default], with the member initializer of [mcgState]. *)
Definition default : Generator := mkGenerator 0xcafef00dd15ea5e5.

(** [Generator(std::uint64_t seed) : mcgState(seed | 1u)]. *)
Definition seeded (seed : Z) : Generator :=
  mkGenerator (Z.lor (Int.u64 seed) 1).

(** [Generator::operator()]: the output and the generator afterwards. *)
Definition next (g : Generator) : Z * Generator :=
  let x := mcgState g in
  let count := Int.u32 (Z.shiftr x 61) in
  let g' := mkGenerator (Int.u64 (x * Multiplier)) in
  let x := Z.lxor x (Z.shiftr x 22) in
  (Int.u32 (Z.shiftr x (22 + count)), g').

(** The generator after [n] draws. *)
Fixpoint draws (n : nat) (g : Generator) : Generator :=
  match n with
  | O => g
  | S n' => draws n' (snd (next g))
  end.
End PCG32.


(** ** aabb.h / aabb.cpp *)

Module AABB.
Record t := mk { _min : Vec3; _max : Vec3 }.

(** The member initializers: [_min{Infinity}], [_max{-Infinity}]. *)
Definition empty : t :=
  mk (V3.splat F32.infinity) (V3.splat (F32.opp F32.infinity)).

Definition getMin (b : t) (axis : Z) : float := V3.get (_min b) axis.
Definition getMax (b : t) (axis : Z) : float := V3.get (_max b) axis.
Definition getSize (b : t) (axis : Z) : float :=
  F32.sub (V3.get (_max b) axis) (V3.get (_min b) axis).
Definition getSize3 (b : t) : Vec3 := V3.sub (_max b) (_min b).

Definition halfArea (b : t) : float :=
  let size := getSize3 b in
  F32.add (F32.mul (v3x size) (F32.add (v3y size) (v3z size)))
          (F32.mul (v3y size) (v3z size)).

Definition fit (b : t) (v : Vec3) : t :=
  let mn := _min b in
  let mx := _max b in
  mk (mkVec3 (if F32.gtb (v3x mn) (v3x v) then v3x v else v3x mn)
             (if F32.gtb (v3y mn) (v3y v) then v3y v else v3y mn)
             (if F32.gtb (v3z mn) (v3z v) then v3z v else v3z mn))
     (mkVec3 (if F32.ltb (v3x mx) (v3x v) then v3x v else v3x mx)
             (if F32.ltb (v3y mx) (v3y v) then v3y v else v3y mx)
             (if F32.ltb (v3z mx) (v3z v) then v3z v else v3z mx)).

(** The two slab parameters of one axis, ordered by the swap. *)
Definition slab (mn mx o d : float) : float * float :=
  let t1 := F32.div (F32.sub mn o) d in
  let t2 := F32.div (F32.sub mx o) d in
  if F32.gtb t1 t2 then (t2, t1) else (t1, t2).

(** [t1] and [t2] as [intersect] has them before its two tests. *)
Definition slabNear (b : t) (ray : Ray) : float :=
  let o := ray_o ray in
  let d := ray_d ray in
  let tx1 := fst (slab (v3x (_min b)) (v3x (_max b)) (v3x o) (v3x d)) in
  let ty1 := fst (slab (v3y (_min b)) (v3y (_max b)) (v3y o) (v3y d)) in
  let tz1 := fst (slab (v3z (_min b)) (v3z (_max b)) (v3z o) (v3z d)) in
  let t1 := tx1 in
  let t1 := if F32.ltb t1 ty1 then ty1 else t1 in
  if F32.ltb t1 tz1 then tz1 else t1.

Definition slabFar (b : t) (ray : Ray) : float :=
  let o := ray_o ray in
  let d := ray_d ray in
  let tx2 := snd (slab (v3x (_min b)) (v3x (_max b)) (v3x o) (v3x d)) in
  let ty2 := snd (slab (v3y (_min b)) (v3y (_max b)) (v3y o) (v3y d)) in
  let tz2 := snd (slab (v3z (_min b)) (v3z (_max b)) (v3z o) (v3z d)) in
  let t2 := tx2 in
  let t2 := if F32.gtb t2 ty2 then ty2 else t2 in
  if F32.gtb t2 tz2 then tz2 else t2.

Definition intersect (b : t) (ray : Ray) : option float :=
  let t1 := slabNear b ray in
  let t2 := slabFar b ray in
  if F32.gtb t1 t2 then None
  else if F32.ltb t1 F32.zero && F32.ltb t2 F32.zero then None
  else Some t1.

Definition getLargestAxis (b : t) : Z :=
  let size := getSize3 b in
  if F32.gtb (v3x size) (v3y size) && F32.gtb (v3x size) (v3z size) then 0
  else if F32.gtb (v3y size) (v3z size) then 1
  else 2.

Definition area (b : t) : float := F32.mul F32.two (halfArea b).
End AABB.

(** ** aabb4.h / aabb4.cpp *)

Module AABB4.
Record t := mk {
  _minX : Vec4; _minY : Vec4; _minZ : Vec4;
  _maxX : Vec4; _maxY : Vec4; _maxZ : Vec4 }.

(** [AABB4() = default]. *)
Definition empty : t :=
  let lo := V4.splat F32.infinity in
  let hi := V4.splat (F32.opp F32.infinity) in
  mk lo lo lo hi hi hi.

(** [AABB4(a, b, c, d)]. *)
Definition pack (a b c d : AABB.t) : t :=
  let mn (x : AABB.t) := AABB._min x in
  let mx (x : AABB.t) := AABB._max x in
  mk (mkVec4 (v3x (mn a)) (v3x (mn b)) (v3x (mn c)) (v3x (mn d)))
     (mkVec4 (v3y (mn a)) (v3y (mn b)) (v3y (mn c)) (v3y (mn d)))
     (mkVec4 (v3z (mn a)) (v3z (mn b)) (v3z (mn c)) (v3z (mn d)))
     (mkVec4 (v3x (mx a)) (v3x (mx b)) (v3x (mx c)) (v3x (mx d)))
     (mkVec4 (v3y (mx a)) (v3y (mx b)) (v3y (mx c)) (v3y (mx d)))
     (mkVec4 (v3z (mx a)) (v3z (mx b)) (v3z (mx c)) (v3z (mx d))).

Definition getMin (b : t) (idx axis : Z) : float :=
  if axis =? 0 then V4.get (_minX b) idx
  else if axis =? 1 then V4.get (_minY b) idx
  else if axis =? 2 then V4.get (_minZ b) idx
  else F32.zero.

Definition getMax (b : t) (idx axis : Z) : float :=
  if axis =? 0 then V4.get (_maxX b) idx
  else if axis =? 1 then V4.get (_maxY b) idx
  else if axis =? 2 then V4.get (_maxZ b) idx
  else F32.zero.

Definition getSize (b : t) (idx axis : Z) : float :=
  F32.sub (getMax b idx axis) (getMin b idx axis).

Record HitInfo := mkHit { isHit : bvec4; distances : Vec4 }.

Definition intersect (b : t) (ray : Ray) : HitInfo :=
  let o := ray_o ray in
  let d := ray_d ray in
  let slab (m : Vec4) (oc dc : float) : Vec4 :=
    V4.map2 F32.div (V4.map2 F32.sub m (V4.splat oc)) (V4.splat dc) in
  let tminX := slab (_minX b) (v3x o) (v3x d) in
  let tmaxX := slab (_maxX b) (v3x o) (v3x d) in
  let tminY := slab (_minY b) (v3y o) (v3y d) in
  let tmaxY := slab (_maxY b) (v3y o) (v3y d) in
  let tminZ := slab (_minZ b) (v3z o) (v3z d) in
  let tmaxZ := slab (_maxZ b) (v3z o) (v3z d) in
  let tx1 := V4.min tminX tmaxX in
  let tx2 := V4.max tminX tmaxX in
  let ty1 := V4.min tminY tmaxY in
  let ty2 := V4.max tminY tmaxY in
  let tz1 := V4.min tminZ tmaxZ in
  let tz2 := V4.max tminZ tmaxZ in
  let t1 := V4.max tx1 (V4.max ty1 tz1) in
  let t2 := V4.min tx2 (V4.min ty2 tz2) in
  let hit :=
    V4.band (V4.cmp F32.leb t1 t2)
            (V4.bnot (V4.band (V4.cmp F32.ltb t1 (V4.splat F32.zero))
                              (V4.cmp F32.ltb t2 (V4.splat F32.zero)))) in
  mkHit hit t1.

(** [getMin(idx)], [getMax(idx)] and [getSize(idx)] as vectors. *)
Definition getMin3 (b : t) (idx : Z) : Vec3 :=
  mkVec3 (V4.get (_minX b) idx) (V4.get (_minY b) idx) (V4.get (_minZ b) idx).
Definition getMax3 (b : t) (idx : Z) : Vec3 :=
  mkVec3 (V4.get (_maxX b) idx) (V4.get (_maxY b) idx) (V4.get (_maxZ b) idx).
Definition getSize3 (b : t) (idx : Z) : Vec3 :=
  V3.sub (getMax3 b idx) (getMin3 b idx).

(** [fit(idx, point)], with [std::min] and [std::max]. *)
Definition fit (b : t) (idx : Z) (point : Vec3) : t :=
  let lo (m : Vec4) (c : float) := V4.set m idx (F32.min (V4.get m idx) c) in
  let hi (m : Vec4) (c : float) := V4.set m idx (F32.max (V4.get m idx) c) in
  mk (lo (_minX b) (v3x point)) (lo (_minY b) (v3y point))
     (lo (_minZ b) (v3z point))
     (hi (_maxX b) (v3x point)) (hi (_maxY b) (v3y point))
     (hi (_maxZ b) (v3z point)).

Definition halfArea (b : t) (idx : Z) : float :=
  let size := getSize3 b idx in
  F32.add (F32.mul (v3x size) (F32.add (v3y size) (v3z size)))
          (F32.mul (v3y size) (v3z size)).
End AABB4.

(** ** image.h *)

Module Image.
Record t := mk {
  _pixels : list float; _width : Z; _height : Z; _channels : Z }.

(** [Image(std::size_t w, std::size_t h, int channels)]. *)
Definition create (w h channels : Z) : t :=
  mk (replicate (Z.to_nat (Int.u64 (w * h * channels))) F32.zero)
     w h channels.

Definition empty (img : t) : bool :=
  match _pixels img with [] => true | _ => false end.

Definition valid (img : t) (x y : Z) : bool :=
  (0 <=? x) && (x <? _width img) && (0 <=? y) && (y <? _height img).

(** Index of the first float of pixel [(x, y)], in [std::size_t]. *)
Definition offset (img : t) (x y : Z) : Z :=
  Int.u64 (Int.u64 (x + Int.u64 (y * _width img)) * Int.u64 (_channels img)).

(** [rgb(x, y)] read: the three floats at the pixel's offset.  A read
    outside the pixel vector is undefined and yields [None]. *)
Definition rgb (img : t) (x y : Z) : option Vec3 :=
  let i := Z.to_nat (offset img x y) in
  r ← _pixels img !! i;
  g ← _pixels img !! S i;
  b ← _pixels img !! S (S i);
  Some (mkVec3 r g b).

(** [rgb(x, y) = v]; again [None] outside the pixel vector. *)
Definition rgb_set (img : t) (x y : Z) (v : Vec3) : option t :=
  let i := Z.to_nat (offset img x y) in
  if decide (S (S i) < length (_pixels img))%nat then
    Some (mk (<[S (S i) := v3z v]> (<[S i := v3y v]> (<[i := v3x v]>
                (_pixels img))))
             (_width img) (_height img) (_channels img))
  else None.

(** [rgb(x, y) += v]. *)
Definition rgb_add (img : t) (x y : Z) (v : Vec3) : option t :=
  old ← rgb img x y;
  rgb_set img x y (V3.add old v).

(** [resize(w, h)]: [std::vector::resize] keeps the leading floats and
    value-initializes the ones it adds. *)
Definition resize (img : t) (w h : Z) : t :=
  mk (list.resize
        (Z.to_nat (Int.u64 (Int.u64 (w * h) * Int.u64 (_channels img))))
        F32.zero (_pixels img))
     w h (_channels img).

(** [clear(float value)]: [std::fill] over the pixel vector. *)
Definition clear (img : t) (value : float) : t :=
  mk (map (fun _ => value) (_pixels img))
     (_width img) (_height img) (_channels img).

(** [toneMapping(float)] is [std::clamp(r, 0.0f, 1.0f)]; the [Vec3]
    overload maps it over the channels. *)
Definition toneMapping (r : float) : float :=
  if F32.ltb r F32.zero then F32.zero
  else if F32.ltb F32.one r then F32.one
  else r.
Definition toneMapping3 (r : Vec3) : Vec3 :=
  mkVec3 (toneMapping (v3x r)) (toneMapping (v3y r)) (toneMapping (v3z r)).
End Image.


(** ** path.h: vertices and paths *)

Inductive BounceType := BounceNone | Diffuse | Reflective | Refractive.

(** Modelled from the spec: the declaration of [ConnectionType] is missing;
    its three values are the ones the data model names. *)
Inductive ConnectionType := Origin | Implicit | Explicit.

Definition BounceType_eqb (a b : BounceType) : bool :=
  match a, b with
  | BounceNone, BounceNone | Diffuse, Diffuse
  | Reflective, Reflective | Refractive, Refractive => true
  | _, _ => false
  end.

Record Vertex := mkVertex {
  connectionType : ConnectionType;
  bounceType : BounceType;
  position : Vec3;
  normal : Vec3;
  geometricNormal : Vec3;
  textureCoord : Vec2;
  materialIdx : option Z;
  lightIdx : option Z }.

(** The value-initialized vertex. *)
Definition Vertex0 : Vertex :=
  mkVertex Origin BounceNone (V3.splat F32.zero) (V3.splat F32.zero)
           (V3.splat F32.zero) (mkVec2 F32.zero F32.zero) None None.

Definition MaxLength : Z := 10.
Definition TerminationProbability : float := S754_finite false 12021211 (-25).

Module Path.
(** [std::array<Vertex, MaxLength> _path] and [std::size_t _pathLength]. *)
Record t := mk { _path : list Vertex; _pathLength : Z }.

(** [Path()]. *)
Definition empty : t := mk (replicate (Z.to_nat MaxLength) Vertex0) 0.

(** [explicit Path(const Vertex&)]. *)
Definition single (v : Vertex) : t :=
  mk (v :: replicate (Z.to_nat MaxLength - 1) Vertex0) 1.

Definition length (p : t) : Z := _pathLength p.

Definition vertex (p : t) (idx : Z) : option Vertex :=
  if 0 <=? idx then _path p !! Z.to_nat idx else None.

Definition last (p : t) : option Vertex :=
  vertex p (Int.u64 (_pathLength p - 1)).

(** [_path[_pathLength] = v; ++_pathLength;] -- a store outside the array
    is undefined and yields [None]. *)
Definition append (p : t) (v : Vertex) : option t :=
  let i := Z.to_nat (_pathLength p) in
  if decide (0 <= _pathLength p /\ (i < List.length (_path p))%nat) then
    Some (mk (<[i := v]> (_path p)) (Int.u64 (_pathLength p + 1)))
  else None.

(** [last().bounceType = b]. *)
Definition setLastBounceType (p : t) (b : BounceType) : option t :=
  v ← last p;
  let v' := mkVertex (connectionType v) b (position v) (normal v)
              (geometricNormal v) (textureCoord v)
              (materialIdx v) (lightIdx v) in
  Some (mk (<[Z.to_nat (Int.u64 (_pathLength p - 1)) := v']> (_path p))
           (_pathLength p)).

(** [toSlice()]: the first [_pathLength] vertices. *)
Definition toSlice (p : t) : list Vertex :=
  take (Z.to_nat (_pathLength p)) (_path p).

(** [getSlice(first, last)]: the span from [_path.begin() + first] to
    [_path.begin() + last]; iterators that leave the array or cross each
    other are undefined ([None]). *)
Definition getSlice (p : t) (first last : Z) : option (list Vertex) :=
  if decide (0 <= first <= last /\ last <= Z.of_nat (List.length (_path p)))
  then Some (take (Z.to_nat (last - first)) (drop (Z.to_nat first) (_path p)))
  else None.

(** [appendPath(other)]: [std::copy] to [_path.begin() + _pathLength],
    then [_pathLength += other.size()].  A copy that runs past the end of
    the array is undefined ([None]). *)
Definition appendPath (p : t) (other : list Vertex) : option t :=
  let n := Z.to_nat (_pathLength p) in
  if decide (0 <= _pathLength p
             /\ (n + List.length other <= List.length (_path p))%nat) then
    Some (mk (take n (_path p) ++ other
                ++ drop (n + List.length other) (_path p))
             (Int.u64 (_pathLength p + Z.of_nat (List.length other))))
  else None.
End Path.

(** ** material.h: material data *)

Record MaterialData := mkMaterialData {
  baseColorFactor : Vec4;
  baseColorTextureIdx : option Z;
  metallicFactor : float;
  roughnessFactor : float;
  emissiveFactor : Vec3;
  emissiveStrength : float;
  emissiveTextureIdx : option Z;
  transmissionFactor : float;
  ior : float }.

Definition DefaultMaterialData : MaterialData :=
  mkMaterialData (V4.splat F32.one) None F32.one F32.one
    (V3.splat F32.zero) F32.one None F32.zero
    (S754_finite false 12582912 (-23)).

Definition getType (m : MaterialData) : BounceType :=
  if F32.gtb (transmissionFactor m) F32.half
     && F32.ltb (metallicFactor m) F32.half then Refractive
  else if F32.gtb (metallicFactor m) F32.half
          && F32.ltb (roughnessFactor m) F32.half then Reflective
  else Diffuse.

(** ** bvh.h, mesh.h: the data of the acceleration structure and of meshes *)

Module BVHData.
Record Node := mkNode {
  childBounds : AABB4.t;
  idx : Z;            (* std::uint32_t *)
  numTriangles : Z    (* std::uint32_t *) }.

Definition isLeaf (n : Node) : bool := negb (numTriangles n =? 0).

Record Triangle := mkTriangle {
  positions : Vec3 * Vec3 * Vec3;
  tidx : Z }.

Record t := mk {
  triangles : list Triangle;
  nodes : list Node;
  rootBounds : AABB.t }.
End BVHData.

Module Mesh.
Record Triangle := mkTriangle {
  positions : Vec3 * Vec3 * Vec3;
  normals : Vec3 * Vec3 * Vec3;
  textureCoords : Vec2 * Vec2 * Vec2 }.

Record Primitive := mkPrimitive {
  startIdx : Z;
  count : Z;
  materialIdx : option Z;
  bvh : BVHData.t;
  totalArea : float }.

(** A [std::discrete_distribution] is kept as its list of weights. *)
Record t := mk {
  triangles : list Triangle;
  primitives : list Primitive;
  triangleAreas : list float;
  primitiveTriangleDistibutions : list (list float) }.
End Mesh.

(** ** scene.h *)

Inductive Light :=
| PointLight (position wattage : Vec3)
| MeshLight (meshIdx primitiveIdx : Z).

Record Texture := mkTexture { imageIdx : Z }.

Module Scene.
Record t := mk {
  meshes : list Mesh.t;
  textures : list Texture;
  images : list Image.t;
  lights : list Light;
  materials : list MaterialData }.

Record HitInfo := mkHitInfo {
  distance : float;
  position : Vec3;
  normal : Vec3;
  geometricNormal : Vec3;
  textureCoord : Vec2;
  materialIdx : option Z }.

Definition getMaterial (s : t) (materialIdx : option Z)
  : option MaterialData :=
  match materialIdx with
  | None => Some DefaultMaterialData
  | Some i => at_ (materials s) i
  end.

(** The texel column (or row) [sampleTexture] computes from one
    coordinate and the image's extent in that direction:
    [std::size_t u = int(coord * extent) % extent; if (u < 0) u += extent;]
    The [%] is taken in [std::size_t], to which the [int] is converted. *)
Definition texel (coord : float) (extent : Z) : Z :=
  let n := F32.to_int (F32.mul coord (F32.of_Z extent)) in
  let u := Int.u64 n mod extent in
  if u <? 0 then Int.u64 (u + extent) else u.

Definition sampleTexture (s : t) (textureIdx : Z) (textureCoord : Vec2)
  : option Vec3 :=
  texture ← at_ (textures s) textureIdx;
  image ← at_ (images s) (imageIdx texture);
  if Image.empty image then Some (V3.splat F32.one)
  else if (Image._width image =? 0) || (Image._height image =? 0) then
    None (* [%] by zero is undefined *)
  else
    let u := texel (v2x textureCoord) (Image._width image) in
    let v := texel (v2y textureCoord) (Image._height image) in
    Image.rgb image u v.
End Scene.

(** ** material.cpp: the colour queries of a material *)

Module Material.
Definition xyz (v : Vec4) : Vec3 := mkVec3 (v4x v) (v4y v) (v4z v).

Definition bsdf (s : Scene.t) (m : MaterialData) (vertex : Vertex)
  : option Vec3 :=
  let result := V3.divs (xyz (baseColorFactor m)) PI in
  match baseColorTextureIdx m with
  | Some i =>
      c ← Scene.sampleTexture s i (textureCoord vertex);
      Some (V3.mul result c)
  | None => Some result
  end.

Definition expectedContribution (s : Scene.t) (m : MaterialData)
    (vertex : Vertex) (inDir : Vec3) : option Vec3 :=
  let baseColor := V3.splat F32.one in
  if negb (BounceType_eqb (getType m) Refractive) then
    let baseColor := V3.mul baseColor (xyz (baseColorFactor m)) in
    match baseColorTextureIdx m with
    | Some i =>
        c ← Scene.sampleTexture s i (textureCoord vertex);
        Some (V3.mul baseColor c)
    | None => Some baseColor
    end
  else Some baseColor.

Definition emission (s : Scene.t) (m : MaterialData) (vertex : Vertex)
  : option Vec3 :=
  let emission := V3.scale (emissiveFactor m) (emissiveStrength m) in
  match emissiveTextureIdx m with
  | Some i =>
      if negb (V3.eqb emission (V3.splat F32.zero)) then
        c ← Scene.sampleTexture s i (textureCoord vertex);
        Some (V3.mul emission c)
      else Some emission
  | None => Some emission
  end.
End Material.


(** ** path.cpp *)

Module V2.
Definition add (a b : Vec2) : Vec2 :=
  mkVec2 (F32.add (v2x a) (v2x b)) (F32.add (v2y a) (v2y b)).
Definition scale (a : Vec2) (s : float) : Vec2 :=
  mkVec2 (F32.mul (v2x a) s) (F32.mul (v2y a) s).
End V2.

(** [std::numeric_limits<float>::max()]. *)
Definition FLT_MAX : float := S754_finite false 16777215 104.

Section PathSampling.
(** What the path code calls but this development does not define: the
    scene's ray query [Scene::intersect], the direction sampler
    [Material::sampleDirection] (it needs sine and cosine), and the
    standard library's [std::generate_canonical<float, 32>] and
    [std::discrete_distribution] (given its weights).  Every statement
    below holds for all of them. *)
Variable sceneIntersect :
  Scene.t -> Ray -> float -> float -> option Scene.HitInfo.
Variable sampleDirection :
  MaterialData -> Vec3 -> Vertex -> PCG32.Generator ->
  (Ray * BounceType) * PCG32.Generator.
Variable generate_canonical : PCG32.Generator -> float * PCG32.Generator.
Variable discrete_distribution :
  list float -> PCG32.Generator -> Z * PCG32.Generator.

(** [PCG32::rand()] and [PCG32::pcg32_fast()] on the worker's generator. *)
Definition rand (g : PCG32.Generator) : float * PCG32.Generator :=
  generate_canonical g.
Definition pcg32_fast (g : PCG32.Generator) : Z * PCG32.Generator :=
  PCG32.next g.

Definition chooseRandomTriangle (scene : Scene.t)
    (meshIdx primitiveIdx : Z) (g : PCG32.Generator)
  : option (Z * PCG32.Generator) :=
  mesh ← at_ (Scene.meshes scene) meshIdx;
  dist ← at_ (Mesh.primitiveTriangleDistibutions mesh) primitiveIdx;
  Some (discrete_distribution dist g).

Definition chooseRandomVertexOnTriangle (triangle : Mesh.Triangle)
    (g : PCG32.Generator) : Vertex * PCG32.Generator :=
  let '(u1, g) := rand g in
  let sqrtU1 := F32.sqrt u1 in
  let '(u2, g) := rand g in
  let alpha := F32.sub F32.one sqrtU1 in
  let beta := F32.mul (F32.sub F32.one u2) sqrtU1 in
  let gamma := F32.mul u2 sqrtU1 in
  let '(p0, p1, p2) := Mesh.positions triangle in
  let '(n0, n1, n2) := Mesh.normals triangle in
  let '(t0, t1, t2) := Mesh.textureCoords triangle in
  (mkVertex Explicit BounceNone
     (V3.add (V3.add (V3.scale p0 alpha) (V3.scale p1 beta))
             (V3.scale p2 gamma))
     (V3.normalize
        (V3.add (V3.add (V3.scale n0 alpha) (V3.scale n1 beta))
                (V3.scale n2 gamma)))
     (V3.normalize (V3.cross (V3.sub p1 p0) (V3.sub p2 p0)))
     (V2.add (V2.add (V2.scale t0 alpha) (V2.scale t1 beta))
             (V2.scale t2 gamma))
     None None, g).

Definition chooseRandomVertexOnLight (scene : Scene.t) (lightIdx : Z)
    (g : PCG32.Generator) : option (Vertex * PCG32.Generator) :=
  light ← at_ (Scene.lights scene) lightIdx;
  match light with
  | PointLight pos _ =>
      Some (mkVertex Explicit BounceNone pos (V3.splat F32.zero)
              (V3.splat F32.zero) (mkVec2 F32.zero F32.zero)
              None (Some lightIdx), g)
  | MeshLight meshIdx primitiveIdx =>
      mesh ← at_ (Scene.meshes scene) meshIdx;
      primitive ← at_ (Mesh.primitives mesh) primitiveIdx;
      '(triangleIdx, g) ← chooseRandomTriangle scene meshIdx primitiveIdx g;
      triangle ← at_ (Mesh.triangles mesh) triangleIdx;
      let '(vertex, g) := chooseRandomVertexOnTriangle triangle g in
      Some (mkVertex (connectionType vertex) (bounceType vertex)
              (position vertex) (normal vertex) (geometricNormal vertex)
              (textureCoord vertex)
              (Mesh.materialIdx primitive) (Some lightIdx), g)
  end.

(** [Path::createRandomLightPath].  The result is [None] only where the
    C++ reads outside a vector (a mesh light that names no mesh,
    primitive or triangle of the scene). *)
Definition createRandomLightPath (scene : Scene.t) (g : PCG32.Generator)
  : option (Path.t * PCG32.Generator) :=
  let path := Path.empty in
  match Scene.lights scene with
  | [] => Some (path, g)
  | _ =>
      let '(r, g) := pcg32_fast g in
      '(v, g) ← chooseRandomVertexOnLight scene
                  (r mod Z.of_nat (length (Scene.lights scene))) g;
      path ← Path.append path v;
      Some (path, g)
  end.

(** [Path::addBounce]: the ray to continue with (if any), the path and
    the generator afterwards. *)
Definition addBounce (p : Path.t) (scene : Scene.t) (inRay : Ray)
    (terminationProbability : option float) (g : PCG32.Generator)
  : option (option Ray * Path.t * PCG32.Generator) :=
  match sceneIntersect scene inRay F32.zero FLT_MAX with
  | None => Some (None, p, g)
  | Some hit =>
      material ← Scene.getMaterial scene (Scene.materialIdx hit);
      let flip :=
        negb (BounceType_eqb (getType material) Refractive)
        && F32.gtb (V3.dot (ray_d inRay) (Scene.geometricNormal hit))
                   F32.zero in
      let minus1 := F32.of_Z (-1) in
      let n := if flip then V3.scale (Scene.normal hit) minus1
               else Scene.normal hit in
      let gn := if flip then V3.scale (Scene.geometricNormal hit) minus1
                else Scene.geometricNormal hit in
      p ← Path.append p
            (mkVertex Implicit BounceNone (Scene.position hit) n gn
               (Scene.textureCoord hit) (Scene.materialIdx hit) None);
      let '(stop, g) :=
        match terminationProbability with
        | Some q => let '(u, g) := rand g in (F32.ltb u q, g)
        | None => (false, g)
        end in
      if stop then Some (None, p, g)
      else
        v ← Path.last p;
        let '(newRay, bounce, g) :=
          sampleDirection material (V3.neg (ray_d inRay)) v g in
        p ← Path.setLastBounceType p bounce;
        Some (Some newRay, p, g)
  end.

(** The [while (p._pathLength < MaxLength)] loop of
    [createRandomEyePath]; [fuel] bounds the number of iterations. *)
Fixpoint eyePathLoop (fuel : nat) (p : Path.t) (scene : Scene.t)
    (ray : Ray) (g : PCG32.Generator)
  : option (Path.t * PCG32.Generator) :=
  if Path._pathLength p <? MaxLength then
    match fuel with
    | O => None
    | S fuel' =>
        '(nextRay, p, g) ←
          addBounce p scene ray (Some TerminationProbability) g;
        match nextRay with
        | None => Some (p, g)
        | Some ray => eyePathLoop fuel' p scene ray g
        end
    end
  else Some (p, g).

(** [Path::createRandomEyePath]; the loop runs at most [MaxLength] times. *)
Definition createRandomEyePath (scene : Scene.t) (ray : Ray)
    (g : PCG32.Generator) : option (Path.t * PCG32.Generator) :=
  let p := Path.mk (<[0%nat := mkVertex Origin BounceNone (ray_o ray)
                        (V3.splat F32.zero) (V3.splat F32.zero)
                        (mkVec2 F32.zero F32.zero) None None]>
                      (Path._path Path.empty)) 1 in
  eyePathLoop (Z.to_nat MaxLength) p scene ray g.

Definition hasVisibility (scene : Scene.t) (v1 v2 : Vertex) : bool :=
  let origin :=
    V3.add (position v1) (V3.scale (geometricNormal v1) Epsilon) in
  let dir := V3.sub (position v2) origin in
  let dist := V3.length dir in
  let dir := V3.divs dir dist in
  if F32.ltb (V3.dot dir (normal v1)) Epsilon
     || (F32.gtb (V3.dot (normal v2) (normal v2)) Epsilon
         && F32.ltb (V3.dot (V3.neg dir) (normal v2)) Epsilon)
  then false
  else
    match sceneIntersect scene (mkRay origin dir) F32.zero
            (F32.sub dist (F32.mul F32.two Epsilon)) with
    | Some _ => false
    | None => true
    end.

Record EvaluationResult := mkEvaluationResult {
  radiance : Vec3;
  russianRouletteRadiance : Vec3 }.

Definition ContinuationProbability : float :=
  F32.sub F32.one TerminationProbability.

Definition evaluateImplicit (scene : Scene.t) (v1 v2 v3 : Vertex)
  : option EvaluationResult :=
  material ← Scene.getMaterial scene (materialIdx v2);
  radiance ← Material.expectedContribution scene material v2
               (V3.sub (position v1) (position v2));
  Some (mkEvaluationResult radiance
          (V3.divs radiance ContinuationProbability)).

Definition evaluateExplicitLight (scene : Scene.t)
    (x1 x2 lightVertex : Vertex) : option Vec3 :=
  let result := V3.splat F32.one in
  let lightDist :=
    V3.length (V3.sub (position lightVertex) (position x2)) in
  let outDir :=
    V3.normalize (V3.sub (position lightVertex) (position x2)) in
  if negb (hasVisibility scene x2 lightVertex) then
    Some (V3.splat F32.zero)
  else
    material ← Scene.getMaterial scene (materialIdx x2);
    c ← Material.bsdf scene material x2;
    let result := V3.mul result c in
    let result := V3.divs result (F32.mul lightDist lightDist) in
    let result :=
      V3.scale result (F32.max F32.zero (V3.dot (normal x2) outDir)) in
    li ← lightIdx lightVertex;
    light ← at_ (Scene.lights scene) li;
    result ←
      match light with
      | PointLight _ wattage =>
          let result :=
            V3.scale result
              (F32.div F32.one (F32.mul (F32.of_Z 4) PI)) in
          Some (V3.mul result wattage)
      | MeshLight meshIdx primitiveIdx =>
          mesh ← at_ (Scene.meshes scene) meshIdx;
          primitive ← at_ (Mesh.primitives mesh) primitiveIdx;
          material ← Scene.getMaterial scene (materialIdx lightVertex);
          let result :=
            V3.scale result
              (F32.max F32.zero
                 (V3.dot (normal lightVertex) (V3.neg outDir))) in
          let result := V3.scale result (Mesh.totalArea primitive) in
          e ← Material.emission scene material lightVertex;
          Some (V3.mul result e)
      end;
    Some (V3.scale result
            (F32.of_Z (Z.of_nat (length (Scene.lights scene))))).

Definition evaluateExplicit (scene : Scene.t) (x1 x2 y1 y2 : Vertex)
  : option Vec3 :=
  let result := V3.splat F32.one in
  let invDist :=
    F32.div F32.one (V3.length (V3.sub (position y2) (position x2))) in
  let x2toy2 := V3.normalize (V3.sub (position y2) (position x2)) in
  material1 ← Scene.getMaterial scene (materialIdx x2);
  material2 ← Scene.getMaterial scene (materialIdx y2);
  c1 ← Material.bsdf scene material1 x2;
  let result := V3.mul result c1 in
  c2 ← Material.bsdf scene material2 x2;
  let result := V3.mul result c2 in
  let result := V3.scale result (F32.mul invDist invDist) in
  let result :=
    V3.scale result (F32.max F32.zero (V3.dot (normal x2) x2toy2)) in
  let result :=
    V3.scale result
      (F32.max F32.zero (V3.dot (normal y2) (V3.neg x2toy2))) in
  Some result.

(** The state of the loop of [evaluate]. *)
Record EvalState := mkEvalState {
  throughput : Vec3;
  russianRouletteThroughput : Vec3;
  result : EvaluationResult }.

Definition addEmission (st : EvalState) (emission : Vec3) : EvalState :=
  mkEvalState (throughput st) (russianRouletteThroughput st)
    (mkEvaluationResult
       (V3.add (radiance (result st)) (V3.mul (throughput st) emission))
       (V3.add (russianRouletteRadiance (result st))
               (V3.mul (russianRouletteThroughput st) emission))).

Definition vertexEmission (scene : Scene.t) (v : Vertex) : option Vec3 :=
  material ← Scene.getMaterial scene (materialIdx v);
  Material.emission scene material v.

(** One iteration of the loop of [evaluate], at index [i].  The factor of
    a non-terminal explicit connection is [explicitFactor], which
    [evaluate] instantiates with [evaluateExplicit]. *)
Definition evaluateStep
    (explicitFactor : Scene.t -> Vertex -> Vertex -> Vertex -> Vertex ->
                      option Vec3)
    (scene : Scene.t) (path : list Vertex) (i : Z) (st : EvalState)
  : option EvalState :=
  let size := Z.of_nat (length path) in
  prev ← at_ path (i - 1);
  cur ← at_ path i;
  next ← at_ path (i + 1);
  st ←
    match connectionType next with
    | Implicit =>
        e ← evaluateImplicit scene prev cur next;
        let st :=
          mkEvalState (V3.mul (throughput st) (radiance e))
            (V3.mul (russianRouletteThroughput st)
                    (russianRouletteRadiance e))
            (result st) in
        if i =? Int.u64 (size - 2) then
          emission ← vertexEmission scene next;
          Some (addEmission st emission)
        else Some st
    | Explicit =>
        if i <? Int.u64 (size - 2) then
          next2 ← at_ path (i + 2);
          f ← explicitFactor scene prev cur next next2;
          Some (mkEvalState (V3.mul (throughput st) f)
                  (V3.mul (russianRouletteThroughput st) f) (result st))
        else
          match lightIdx next with
          | Some _ =>
              f ← evaluateExplicitLight scene prev cur next;
              Some (addEmission st f)
          | None =>
              emission ← vertexEmission scene next;
              Some (addEmission st emission)
          end
    | Origin => Some st
    end;
  emission ← vertexEmission scene cur;
  Some (addEmission st emission).

(** [for (i = 1; i < path.size() - 1; ++i)], with [fuel] iterations left. *)
Fixpoint evaluateLoop
    (explicitFactor : Scene.t -> Vertex -> Vertex -> Vertex -> Vertex ->
                      option Vec3)
    (fuel : nat) (scene : Scene.t) (path : list Vertex) (i : Z)
    (st : EvalState) : option EvalState :=
  if i <? Int.u64 (Z.of_nat (length path) - 1) then
    match fuel with
    | O => None
    | S fuel' =>
        st ← evaluateStep explicitFactor scene path i st;
        evaluateLoop explicitFactor fuel' scene path (i + 1) st
    end
  else Some st.

Definition evaluateWith
    (explicitFactor : Scene.t -> Vertex -> Vertex -> Vertex -> Vertex ->
                      option Vec3)
    (scene : Scene.t) (path : list Vertex) : option EvaluationResult :=
  st ← evaluateLoop explicitFactor (length path) scene path 1
         (mkEvalState (V3.splat F32.one) (V3.splat F32.one)
            (mkEvaluationResult (V3.splat F32.zero) (V3.splat F32.zero)));
  Some (result st).

(** [evaluate(scene, path)]. *)
Definition evaluate (scene : Scene.t) (path : list Vertex)
  : option EvaluationResult :=
  evaluateWith evaluateExplicit scene path.

End PathSampling.


(** ** bvh.cpp: construction *)

Module BVH.
Import BVHData.

Definition NumSplits : Z := 5.
Definition MaxNumTrianglesInLeaf : Z := 4.

Record SplitInfo := mkSplitInfo {
  axis : Z;
  position : float;
  leftBBox : AABB.t;
  rightBBox : AABB.t;
  numLeft : Z;     (* std::size_t *)
  numRight : Z;    (* std::size_t *)
  leftCost : float;
  rightCost : float }.

(** [for (Vec3 position : triangle.positions) box.fit(position);] *)
Definition fitTriangle (box : AABB.t) (tri : Triangle) : AABB.t :=
  let '(p0, p1, p2) := positions tri in
  AABB.fit (AABB.fit (AABB.fit box p0) p1) p2.

(** [Triangle::center]. *)
Definition center (tri : Triangle) : Vec3 :=
  let '(p0, p1, p2) := positions tri in
  V3.divs (V3.add (V3.add p0 p1) p2) F32.three.

(** The loop of [evaluateSplit] over the triangles and their centers:
    the two boxes and [numLeft]. *)
Definition growSplit (axis : Z) (splitPosition : float)
    (acc : AABB.t * AABB.t * Z) (tc : Triangle * Vec3)
  : AABB.t * AABB.t * Z :=
  let '(l, r, n) := acc in
  if F32.ltb (V3.get (snd tc) axis) splitPosition
  then (fitTriangle l (fst tc), r, Int.u64 (n + 1))
  else (l, fitTriangle r (fst tc), n).

Definition evaluateSplit (triangles : list Triangle)
    (triangleCenters : list Vec3) (axis : Z) (splitPosition : float)
  : SplitInfo :=
  let '(l, r, n) :=
    fold_left (growSplit axis splitPosition)
      (combine triangles triangleCenters) (AABB.empty, AABB.empty, 0) in
  let numRight := Int.u64 (Z.of_nat (length triangles) - n) in
  mkSplitInfo axis splitPosition l r n numRight
    (F32.mul (F32.of_Z n) (AABB.halfArea l))
    (F32.mul (F32.of_Z numRight) (AABB.halfArea r)).

(** [std::swap(v[i], v[j])]. *)
Definition swap {A} (v : list A) (i j : nat) : list A :=
  match v !! i, v !! j with
  | Some a, Some b => <[j := a]> (<[i := b]> v)
  | _, _ => v
  end.

(** One iteration of the partition loop of [trySplitAndPartition]. *)
Definition partitionStep (axis : Z) (splitPosition : float)
    (acc : list Triangle * list Vec3 * nat) (i : nat)
  : list Triangle * list Vec3 * nat :=
  let '(tris, centers, numLeft) := acc in
  match centers !! i with
  | Some c =>
      if F32.ltb (V3.get c axis) splitPosition
      then (swap tris i numLeft, swap centers i numLeft, S numLeft)
      else acc
  | None => acc
  end.

(** One candidate plane: keep it when its cost beats the best so far. *)
Definition tryCandidate (getBoundsSize getBoundsMin : Z -> float)
    (trianglesInBounds : list Triangle) (centersInBounds : list Vec3)
    (axis : Z) (acc : float * option SplitInfo) (split : Z)
  : float * option SplitInfo :=
  let splitSeparation :=
    F32.div (getBoundsSize axis) (F32.of_Z (NumSplits + 1)) in
  let splitPosition :=
    F32.add (getBoundsMin axis)
            (F32.mul (F32.of_Z (split + 1)) splitSeparation) in
  let splitInfo :=
    evaluateSplit trianglesInBounds centersInBounds axis splitPosition in
  let cost := F32.add (leftCost splitInfo) (rightCost splitInfo) in
  if F32.ltb cost (fst acc) then (cost, Some splitInfo) else acc.

Definition searchSplit (getBoundsSize getBoundsMin : Z -> float)
    (trianglesInBounds : list Triangle) (centersInBounds : list Vec3)
    (bestCost : float) : option SplitInfo :=
  snd (fold_left
         (fun acc axis =>
            fold_left
              (tryCandidate getBoundsSize getBoundsMin
                 trianglesInBounds centersInBounds axis)
              [0; 1; 2; 3; 4] acc)
         [0; 1; 2] (bestCost, None)).

(** [trySplitAndPartition<NumSplits>]: the split found, and the triangle
    and center vectors after the in-place partition of the range
    [firstTriangleIdx, firstTriangleIdx + numTriangles). *)
Definition trySplitAndPartition (getBoundsSize getBoundsMin : Z -> float)
    (firstTriangleIdx numTriangles : Z)
    (triangles : list Triangle) (triangleCenters : list Vec3)
    (bestCost : float)
  : option SplitInfo * list Triangle * list Vec3 :=
  let first := Z.to_nat firstTriangleIdx in
  let n := Z.to_nat numTriangles in
  let trianglesInBounds := take n (drop first triangles) in
  let centersInBounds := take n (drop first triangleCenters) in
  match searchSplit getBoundsSize getBoundsMin
          trianglesInBounds centersInBounds bestCost with
  | None => (None, triangles, triangleCenters)
  | Some bestSplit =>
      let '(tris, centers, _) :=
        fold_left (partitionStep (axis bestSplit) (position bestSplit))
          (seq 0 (length trianglesInBounds))
          (trianglesInBounds, centersInBounds, 0%nat) in
      (Some bestSplit,
       take first triangles ++ tris ++ drop (first + n) triangles,
       take first triangleCenters ++ centers
         ++ drop (first + n) triangleCenters)
  end.

(** The vectors [split] works on: the BVH's triangles and nodes, and the
    triangle centers the constructor passes along. *)
Record Build := mkBuild {
  b_triangles : list Triangle;
  b_centers : list Vec3;
  b_nodes : list Node }.

Definition leafNode (trianglesIdx numTriangles : Z) : Node :=
  mkNode AABB4.empty trianglesIdx numTriangles.

(** [BVH::split].  [fuel] bounds the depth of the recursion; [None] is
    exhausted fuel or a read outside the node vector. *)
Fixpoint split (fuel : nat) (rootBounds : AABB.t)
    (parentNodeIdx : option Z) (childIdx : Z) (nodeCost : float)
    (st : Build) : option Build :=
  match fuel with
  | O => None
  | S fuel' =>
      nodeIdx ←
        match parentNodeIdx with
        | Some p =>
            parent ← at_ (b_nodes st) p;
            Some (Int.u32 (idx parent + childIdx))
        | None => Some 0
        end;
      node ← at_ (b_nodes st) nodeIdx;
      if numTriangles node <=? MaxNumTrianglesInLeaf then Some st
      else
        bounds ←
          match parentNodeIdx with
          | Some p =>
              parent ← at_ (b_nodes st) p;
              Some (fun axis => AABB4.getSize (childBounds parent)
                                  childIdx axis,
                    fun axis => AABB4.getMin (childBounds parent)
                                  childIdx axis)
          | None =>
              Some (AABB.getSize rootBounds, AABB.getMin rootBounds)
          end;
        let '(bestInitialSplit, tris, centers) :=
          trySplitAndPartition (fst bounds) (snd bounds)
            (idx node) (numTriangles node)
            (b_triangles st) (b_centers st) nodeCost in
        match bestInitialSplit with
        | None => Some (mkBuild tris centers (b_nodes st))
        | Some initial =>
            let '(bestLeftSplit, tris, centers) :=
              trySplitAndPartition
                (AABB.getSize (leftBBox initial))
                (AABB.getMin (leftBBox initial))
                (idx node) (Int.u32 (numLeft initial))
                tris centers nodeCost in
            match bestLeftSplit with
            | None => Some (mkBuild tris centers (b_nodes st))
            | Some bestLeft =>
                let '(bestRightSplit, tris, centers) :=
                  trySplitAndPartition
                    (AABB.getSize (rightBBox initial))
                    (AABB.getMin (rightBBox initial))
                    (Int.u32 (idx node + numLeft initial))
                    (Int.u32 (numRight initial))
                    tris centers nodeCost in
                match bestRightSplit with
                | None => Some (mkBuild tris centers (b_nodes st))
                | Some bestRight =>
                    let totalCost :=
                      F32.add
                        (F32.add
                           (F32.add (leftCost bestLeft) (rightCost bestLeft))
                           (leftCost bestRight))
                        (rightCost bestRight) in
                    if F32.gtb totalCost nodeCost
                    then Some (mkBuild tris centers (b_nodes st))
                    else
                      let firstChildIdx :=
                        Int.u32 (Z.of_nat (length (b_nodes st))) in
                      let bounds4 :=
                        AABB4.pack (leftBBox bestLeft) (rightBBox bestLeft)
                                   (leftBBox bestRight) (rightBBox bestRight) in
                      let i0 := idx node in
                      let n0 := Int.u32 (numLeft bestLeft) in
                      let i1 := Int.u32 (i0 + n0) in
                      let n1 := Int.u32 (numRight bestLeft) in
                      let i2 := Int.u32 (i1 + n1) in
                      let n2 := Int.u32 (numLeft bestRight) in
                      let i3 := Int.u32 (i2 + n2) in
                      let n3 := Int.u32 (numRight bestRight) in
                      let nodes :=
                        b_nodes st ++
                        [leafNode i0 n0; leafNode i1 n1;
                         leafNode i2 n2; leafNode i3 n3] in
                      let nodes :=
                        <[Z.to_nat nodeIdx :=
                            mkNode bounds4 firstChildIdx 0]> nodes in
                      let st := mkBuild tris centers nodes in
                      st ← split fuel' rootBounds (Some nodeIdx) 0
                             (leftCost bestLeft) st;
                      st ← split fuel' rootBounds (Some nodeIdx) 1
                             (rightCost bestLeft) st;
                      st ← split fuel' rootBounds (Some nodeIdx) 2
                             (leftCost bestRight) st;
                      split fuel' rootBounds (Some nodeIdx) 3
                        (rightCost bestRight) st
                end
            end
        end
  end.

(** [BVH::BVH(mesh, startIdx, count)].  The recursion of [split] is at
    most [count] deep; a slice that leaves the mesh is a read outside the
    triangle vector ([None]). *)
Definition build (meshTriangles : list Mesh.Triangle) (startIdx count : Z)
  : option BVHData.t :=
  let slice :=
    take (Z.to_nat count) (drop (Z.to_nat startIdx) meshTriangles) in
  if decide (0 <= startIdx /\ 0 <= count
             /\ length slice = Z.to_nat count) then
    let rootNode := mkNode AABB4.empty 0 (Int.u32 count) in
    let tris :=
      imap (fun i (t : Mesh.Triangle) =>
              mkTriangle (Mesh.positions t) (startIdx + Z.of_nat i))
           slice in
    let centers := map center tris in
    let rootBounds := fold_left fitTriangle tris AABB.empty in
    st ← split (S (Z.to_nat count)) rootBounds None 0
           (F32.mul (F32.of_Z (numTriangles rootNode))
                    (AABB.halfArea rootBounds))
           (mkBuild tris centers [rootNode]);
    Some (BVHData.mk (b_triangles st) (b_nodes st) rootBounds)
  else None.

(** *** Traversal *)

Record StackInfo := mkStackInfo { s_idx : Z; s_distance : float }.

(** [TraversalStack]: a vector that only grows and the number of live
    entries. *)
Record TraversalStack := mkStack {
  _data : list StackInfo;
  _size : Z }.

Definition emptyStack : TraversalStack := mkStack [] 0.

Definition push (s : TraversalStack) (info : StackInfo) : TraversalStack :=
  let data :=
    if _size s <? Z.of_nat (length (_data s))
    then <[Z.to_nat (_size s) := info]> (_data s)
    else _data s ++ [info] in
  mkStack data (Int.u64 (_size s + 1)).

Definition top (s : TraversalStack) : option StackInfo :=
  at_ (_data s) (Int.u64 (_size s - 1)).

Definition empty (s : TraversalStack) : bool := _size s =? 0.

Definition pop (s : TraversalStack) : TraversalStack :=
  mkStack (_data s) (Int.u64 (_size s - 1)).

Record HitInfo := mkHitInfo {
  triangleIdx : Z;
  distance : float;
  hitPosition : Vec3;
  barycentricCoords : Vec3 }.

Definition TriangleEpsilon : float := S754_finite false 8796093 (-44).

Definition doesRayIntersectTriangle (ray : Ray) (triangle : Triangle)
    (minDistance maxDistance : float) : option HitInfo :=
  let '(p0, p1, p2) := positions triangle in
  let ab := V3.sub p0 p1 in
  let ac := V3.sub p0 p2 in
  let ao := V3.sub p0 (ray_o ray) in
  let geometricNormal := V3.cross ab ac in
  let determinant := V3.dot geometricNormal (ray_d ray) in
  if F32.ltb (F32.abs determinant) TriangleEpsilon then None
  else
    let invDeterminant := F32.div F32.one determinant in
    let beta :=
      F32.mul (V3.dot (V3.cross ao ac) (ray_d ray)) invDeterminant in
    if F32.ltb beta F32.zero || F32.gtb beta F32.one then None
    else
      let gamma :=
        F32.mul (V3.dot (V3.cross ab ao) (ray_d ray)) invDeterminant in
      if F32.ltb gamma F32.zero || F32.gtb (F32.add beta gamma) F32.one
      then None
      else
        let alpha := F32.sub (F32.sub F32.one beta) gamma in
        let t := F32.mul (V3.dot geometricNormal ao) invDeterminant in
        if F32.ltb t minDistance || F32.gtb t maxDistance then None
        else
          Some (mkHitInfo (tidx triangle) t
                  (V3.add (ray_o ray) (V3.scale (ray_d ray) t))
                  (mkVec3 alpha beta gamma)).

(** The inner loop "find the next closest hit": the lane chosen (if any)
    and its distance. *)
Definition closerLane (hitInfo : AABB4.HitInfo)
    (acc : option Z * float) (i : Z) : option Z * float :=
  if V4.bget (AABB4.isHit hitInfo) i
     && F32.ltb (V4.get (AABB4.distances hitInfo) i) (snd acc)
  then (Some i, V4.get (AABB4.distances hitInfo) i)
  else acc.

Definition nextClosest (hitInfo : AABB4.HitInfo) : option Z * float :=
  fold_left (closerLane hitInfo) [0; 1; 2; 3] (None, F32.infinity).

(** The outer loop over at most four hits: push the closest hit that is
    left, mark it used, repeat; [n] iterations remain. *)
Fixpoint pushHits (n : nat) (node : Node) (hitInfo : AABB4.HitInfo)
    (stack : TraversalStack) : TraversalStack :=
  match n with
  | O => stack
  | S n' =>
      match nextClosest hitInfo with
      | (None, _) => stack
      | (Some bestIdx, bestDist) =>
          let childIdx := Int.u32 (idx node + bestIdx) in
          let stack := push stack (mkStackInfo childIdx bestDist) in
          let hitInfo :=
            AABB4.mkHit (V4.bset (AABB4.isHit hitInfo) bestIdx false)
                        (AABB4.distances hitInfo) in
          pushHits n' node hitInfo stack
      end
  end.

(** The internal-node branch of [intersect]. *)
Definition pushHitChildren (node : Node) (ray : Ray)
    (stack : TraversalStack) : TraversalStack :=
  pushHits 4 node (AABB4.intersect (childBounds node) ray) stack.

(** The leaf branch: the triangles [i, bound) against the ray. *)
Fixpoint intersectLeaf (n : nat) (bvh : BVHData.t) (ray : Ray)
    (minDistance maxDistance : float) (i : Z)
    (closestHit : option HitInfo) : option (option HitInfo) :=
  match n with
  | O => Some closestHit
  | S n' =>
      triangle ← at_ (triangles bvh) i;
      let hitInfo :=
        doesRayIntersectTriangle ray triangle minDistance maxDistance in
      let closestHit :=
        match hitInfo, closestHit with
        | Some h, None => Some h
        | Some h, Some c =>
            if F32.ltb (distance h) (distance c) then Some h else Some c
        | None, _ => closestHit
        end in
      intersectLeaf n' bvh ray minDistance maxDistance
        (Int.u32 (i + 1)) closestHit
  end.

(** The [while (!stack.empty())] loop; [fuel] bounds its iterations. *)
Fixpoint traverse (fuel : nat) (bvh : BVHData.t) (ray : Ray)
    (minDistance maxDistance : float) (stack : TraversalStack)
    (closestHit : option HitInfo)
  : option (option HitInfo * TraversalStack) :=
  if empty stack then Some (closestHit, stack)
  else
    match fuel with
    | O => None
    | S fuel' =>
        info ← top stack;
        let stack := pop stack in
        let skip :=
          match closestHit with
          | Some c => F32.ltb (distance c) (s_distance info)
          | None => false
          end in
        if skip then
          traverse fuel' bvh ray minDistance maxDistance stack closestHit
        else
          node ← at_ (nodes bvh) (s_idx info);
          if isLeaf node then
            let bound := Int.u32 (idx node + numTriangles node) in
            closestHit ←
              intersectLeaf (Z.to_nat (bound - idx node)) bvh ray
                minDistance maxDistance (idx node) closestHit;
            traverse fuel' bvh ray minDistance maxDistance stack
              closestHit
          else
            traverse fuel' bvh ray minDistance maxDistance
              (pushHitChildren node ray stack) closestHit
    end.

(** [BVH::intersect], on the worker's traversal stack. *)
Definition intersect (fuel : nat) (bvh : BVHData.t) (ray : Ray)
    (minDistance maxDistance : float) (stack : TraversalStack)
  : option (option HitInfo * TraversalStack) :=
  match AABB.intersect (rootBounds bvh) ray with
  | None => Some (None, stack)
  | Some rootIntersection =>
      traverse fuel bvh ray minDistance maxDistance
        (push stack (mkStackInfo 0 rootIntersection)) None
  end.
End BVH.


(** ** distribution_geometric_clipped.h *)

Section Distributions.
(** The C library's [powf], [log2f] and [ceilf]. *)
Variable powf : float -> float -> float.
Variable log2f : float -> float.
Variable ceilf : float -> float.

Record TwoSidedClippedGeometricDistribution := mkTwoSided {
  _base : float;
  _invLogBase : float;
  _normalization : float;
  _invNormalization : float;
  _offset : float;
  _left : Z;      (* int *)
  _center : Z     (* int *) }.

(** [TwoSidedClippedGeometricDistribution(float base)]; the members the
    constructor leaves unset are given zero. *)
Definition twoSided (base : float) : TwoSidedClippedGeometricDistribution :=
  mkTwoSided base (F32.div F32.one (log2f base))
    F32.zero F32.zero F32.zero 0 0.

Definition setParameters (d : TwoSidedClippedGeometricDistribution)
    (left center right : Z) : TwoSidedClippedGeometricDistribution :=
  let offset :=
    powf (_base d) (F32.of_Z (Int.i32 (Int.i32 (center - left) + 1))) in
  let normalization :=
    F32.sub (F32.sub F32.two offset)
      (powf (_base d) (F32.of_Z (Int.i32 (Int.i32 (right - center) + 1)))) in
  mkTwoSided (_base d) (_invLogBase d) normalization
    (F32.div F32.one normalization) offset left center.

(** [TwoSidedClippedGeometricDistribution::pdf]. *)
Definition pdf (d : TwoSidedClippedGeometricDistribution) (i : Z) : float :=
  let result :=
    F32.mul
      (F32.mul (F32.sub F32.one (_base d))
               (powf (_base d)
                  (F32.of_Z (Z.abs (Int.i32 (i - _center d))))))
      (_invNormalization d) in
  if i =? 0 then F32.mul result F32.two else result.

(** [TwoSidedClippedGeometricDistribution::operator()], from the uniform
    variate [u] that [std::generate_canonical] returned. *)
Definition sample (d : TwoSidedClippedGeometricDistribution) (u : float)
  : Z :=
  let u := F32.mul u (_normalization d) in
  let u := F32.add u (_offset d) in
  if F32.ltb u F32.one then
    Z.max (_left d)
      (F32.to_int
         (F32.add
            (F32.sub (F32.of_Z (_center d))
                     (ceilf (F32.mul (log2f u) (_invLogBase d))))
            F32.one))
  else
    Z.max (_left d)
      (F32.to_int
         (F32.sub
            (F32.add (F32.of_Z (_center d))
                     (ceilf (F32.mul (log2f (F32.sub F32.two u))
                                     (_invLogBase d))))
            F32.one)).

(** The probability function as the specification words it: proportional
    to [base^|k - center|], the doubling applied exactly at the center. *)
Definition pdf_spec (d : TwoSidedClippedGeometricDistribution) (k : Z)
  : float :=
  let result :=
    F32.mul
      (F32.mul (F32.sub F32.one (_base d))
               (powf (_base d)
                  (F32.of_Z (Z.abs (Int.i32 (k - _center d))))))
      (_invNormalization d) in
  if k =? _center d then F32.mul result F32.two else result.
End Distributions.

(** [powf] at an exponent that is a non-negative integer, by repeated
    multiplication; exact for the base 0.5 that the sampler uses. *)
Definition powf_int (base e : float) : float :=
  Z.iter (F32.to_int e) (F32.mul base) F32.one.

(** ** binary64 arithmetic, for the [double] constants of [luminance] *)

Module F64.
Definition prec : Z := 53.
Definition emax : Z := 1024.
Definition add : spec_float -> spec_float -> spec_float := SFadd prec emax.
Definition mul : spec_float -> spec_float -> spec_float := SFmul prec emax.
(** [double] to [float], round to nearest even. *)
Definition to_f32 (x : spec_float) : float :=
  match x with
  | S754_finite s m e =>
      binary_normalize F32.prec F32.emax
        (if s then Zneg m else Zpos m) e s
  | _ => x
  end.
End F64.

(** ** mlt.h / mlt.cpp *)

Module MLT.
Record State := mkState {
  path : Path.t;
  pixel : Vec2;
  evaluation : EvaluationResult }.

Inductive MutationType := NewPath | Lens | MultiChain | Bidirectional.

Record MutationInfo := mkMutationInfo {
  proposal : State;
  acceptance : float;
  type : MutationType }.

Record EnabledMutations := mkEnabled {
  newPathMutation : bool;
  lensPerturbation : bool;
  multiChainPerturbation : bool;
  bidirectionalMutation : bool }.

Record MLTProcess := mkProcess {
  _accumulationBuffer : Image.t;
  _accumulatedLuminance : float;
  _numNewPathMutations : Z;          (* int *)
  p_averageSamplesPerPixel : float;
  _currentState : option State;
  _mutationDistribution : list float }.

Record t := mk {
  _config : EnabledMutations;
  _width : Z;
  _height : Z;
  _processes : list MLTProcess;
  _averageSamplesPerPixel : Z        (* int *) }.

Definition weight (b : bool) : float :=
  if b then F32.one else F32.zero.

(** [MLTProcess::MLTProcess(renderer, width, height)]. *)
Definition newProcess (config : EnabledMutations) (width height : Z)
  : MLTProcess :=
  mkProcess (Image.create (Int.u64 width) (Int.u64 height) 3)
    F32.zero 0 F32.zero None
    [weight (newPathMutation config); weight (lensPerturbation config);
     weight (multiChainPerturbation config);
     weight (bidirectionalMutation config)].

(** [MLT::MLT(config, width, height, numProcesses)]. *)
Definition create (config : EnabledMutations) (width height : Z)
    (numProcesses : Z) : t :=
  let numProcesses := if numProcesses <? 1 then 1 else numProcesses in
  mk config width height
     (replicate (Z.to_nat numProcesses) (newProcess config width height))
     0.

(** [std::clamp<int>(v, lo, hi)]. *)
Definition clamp (v lo hi : Z) : Z :=
  if v <? lo then lo else if hi <? v then hi else v.

Definition clampPixel (pixel : Vec2) (image : Image.t) : Z * Z :=
  let x := clamp (F32.to_int (v2x pixel)) 0
             (Int.i32 (Int.u64 (Image._width image - 1))) in
  let y := clamp (F32.to_int (v2y pixel)) 0
             (Int.i32 (Int.u64 (Image._height image - 1))) in
  (x, y).

(** [luminance]: the sum is formed in [double] and returned as [float]. *)
Definition luminance (color : Vec3) : float :=
  let c299 := S754_finite false 5386305154335113 (-54) in
  let c587 := S754_finite false 5287225962532962 (-53) in
  let c114 := S754_finite false 8214565720323785 (-56) in
  F64.to_f32
    (F64.add (F64.add (F64.mul c299 (v3x color))
                      (F64.mul c587 (v3y color)))
             (F64.mul c114 (v3z color))).

(** The frame test of [eyePathPerturbation] on the perturbed pixel: the
    proposal is dropped when this is false. *)
Definition perturbedPixelInFrame (width height : Z) (newPixel : Vec2)
  : bool :=
  negb (F32.gtb (v2x newPixel) (F32.of_Z width)
        || F32.ltb (v2x newPixel) F32.zero
        || F32.gtb (v2y newPixel) (F32.of_Z height)
        || F32.ltb (v2y newPixel) F32.zero).

Section Accumulate.
(** [std::generate_canonical<float, 32>], and the mutation kernels
    behind [computeRandomMutation]: from the scene, the chain state,
    the two counters and the generator they give the proposal (if
    any), the counters and the generator afterwards. *)
Variable generate_canonical : PCG32.Generator -> float * PCG32.Generator.
Variable computeRandomMutation :
  Scene.t -> State -> float -> Z -> PCG32.Generator ->
  option MutationInfo * float * Z * PCG32.Generator.
(** The value of the renderer's stop flag when iteration [i] polls it. *)
Variable isStopping : nat -> bool.

(** The histogram update of one iteration of the mutation loop, and
    the chain state afterwards. *)
Definition accumulateStep (buffer : Image.t) (current : State)
    (info : option MutationInfo) (g : PCG32.Generator)
  : option (Image.t * State * PCG32.Generator) :=
  let currentColor := radiance (evaluation current) in
  let currentColor := V3.divs currentColor (luminance currentColor) in
  let '(x, y) := clampPixel (pixel current) buffer in
  match info with
  | None =>
      buffer ← Image.rgb_add buffer x y currentColor;
      Some (buffer, current, g)
  | Some info =>
      let newColor := radiance (evaluation (proposal info)) in
      let newLum := luminance newColor in
      if F32.ltb newLum Epsilon then
        buffer ← Image.rgb_add buffer x y currentColor;
        Some (buffer, current, g)
      else
        let newColor := V3.divs newColor newLum in
        let '(newX, newY) := clampPixel (pixel (proposal info)) buffer in
        buffer ← Image.rgb_add buffer x y
                   (V3.scale currentColor
                      (F32.sub F32.one (acceptance info)));
        buffer ← Image.rgb_add buffer newX newY
                   (V3.scale newColor (acceptance info));
        let '(u, g) := generate_canonical g in
        if F32.ltb u (acceptance info)
        then Some (buffer, proposal info, g)
        else Some (buffer, current, g)
  end.

(** The loop [for (i = 0; i < numMutations; ++i)] of
    [MLTProcess::accumulate], [n] iterations from iteration [i] on.
    [None] is a write outside the buffer or a missing chain state. *)
Fixpoint mutationLoop (n i : nat) (scene : Scene.t)
    (p : MLTProcess) (g : PCG32.Generator)
  : option (MLTProcess * PCG32.Generator) :=
  match n with
  | O => Some (p, g)
  | S n' =>
      if isStopping i then Some (p, g)
      else
        current ← _currentState p;
        let '(info, lum, num, g) :=
          computeRandomMutation scene current
            (_accumulatedLuminance p) (_numNewPathMutations p) g in
        '(buffer, current, g) ←
          accumulateStep (_accumulationBuffer p) current info g;
        mutationLoop n' (S i) scene
          (mkProcess buffer lum num (p_averageSamplesPerPixel p)
             (Some current) (_mutationDistribution p)) g
  end.

(** [MLTProcess::accumulate] once the initial state has been found. *)
Definition accumulate (scene : Scene.t) (numMutations : Z)
    (p : MLTProcess) (g : PCG32.Generator)
  : option (MLTProcess * PCG32.Generator) :=
  '(p, g) ← mutationLoop (Z.to_nat (Int.u64 numMutations)) 0 scene p g;
  let numPixels :=
    Int.u64 (Image._width (_accumulationBuffer p)
             * Image._height (_accumulationBuffer p)) in
  Some (mkProcess (_accumulationBuffer p) (_accumulatedLuminance p)
          (_numNewPathMutations p)
          (F32.add (p_averageSamplesPerPixel p)
             (F32.div (F32.of_Z numMutations) (F32.of_Z numPixels)))
          (_currentState p) (_mutationDistribution p), g).
End Accumulate.

(** [MLTProcess::reset]. *)
Definition reset (p : MLTProcess) : MLTProcess :=
  mkProcess
    (Image.mk (map (fun _ => F32.zero)
                   (Image._pixels (_accumulationBuffer p)))
              (Image._width (_accumulationBuffer p))
              (Image._height (_accumulationBuffer p))
              (Image._channels (_accumulationBuffer p)))
    F32.zero 0 F32.zero (_currentState p) (_mutationDistribution p).

(** The sums [computeScaleFactor] forms over the processes. *)
Definition totals (processes : list MLTProcess) : float * Z :=
  fold_left
    (fun acc p =>
       (F32.add (fst acc) (_accumulatedLuminance p),
        Int.i32 (snd acc + _numNewPathMutations p)))
    processes (F32.zero, 0).

(** [MLT::computeScaleFactor]. *)
Definition computeScaleFactor (m : t) : float :=
  let '(totalAccumulatedLuminance, totalNumNewPathMutations) :=
    totals (_processes m) in
  F32.div
    (F32.div totalAccumulatedLuminance
             (F32.of_Z totalNumNewPathMutations))
    (F32.of_Z (_averageSamplesPerPixel m)).

(** The pixel that [updateFrameBuffer] accumulates for one process:
    [frameBuffer.rgb(x, y) += buffer.rgb(x, y) * scaleFactor]. *)
Definition mergePixel (frame pixel : Vec3) (scaleFactor : float) : Vec3 :=
  V3.add frame (V3.scale pixel scaleFactor).
End MLT.

(** ** main.cpp: the mutation set given on the command line *)

Module Main.
(** [std::tolower] of an [unsigned char] in the C locale. *)
Definition tolower (c : ascii) : ascii :=
  let n := nat_of_ascii c in
  if (65 <=? n)%nat && (n <=? 90)%nat then ascii_of_nat (n + 32) else c.

(** The loop of [matches] over the characters of [token]; it is entered
    only when [token] is not longer than [ref]. *)
Fixpoint matchesLoop (token ref : list ascii) : bool :=
  match token, ref with
  | [], _ => true
  | t :: token', r :: ref' =>
      if Ascii.eqb (tolower t) (tolower r)
      then matchesLoop token' ref'
      else false
  | _ :: _, [] => false
  end.

Definition matches (token ref : list ascii) : bool :=
  if (length ref <? length token)%nat then false
  else matchesLoop token ref.

(** The tokens [while (std::getline(ss, token, ','))] yields: [token]
    holds the characters read since the last comma.  At the end of the
    input [getline] fails unless it has read at least one character. *)
Fixpoint getlines (s token : list ascii) : list (list ascii) :=
  match s with
  | [] => match token with [] => [] | _ => [token] end
  | c :: s' =>
      if Ascii.eqb c ","%char then token :: getlines s' []
      else getlines s' (token ++ [c])
  end.

Definition newPathMutationName : list ascii :=
  list_ascii_of_string "newPathMutation".
Definition lensPerturbationName : list ascii :=
  list_ascii_of_string "lensPerturbation".
Definition multiChainPerturbationName : list ascii :=
  list_ascii_of_string "multiChainPerturbation".
Definition bidirectionalMutationName : list ascii :=
  list_ascii_of_string "bidirectionalMutation".

(** The body of the loop of [getEnabledMutationsFromString] over the
    tokens; [None] is the [std::runtime_error] thrown for an unknown
    mutation type. *)
Fixpoint parseTokens (tokens : list (list ascii))
    (result : MLT.EnabledMutations) : option MLT.EnabledMutations :=
  match tokens with
  | [] => Some result
  | token :: tokens' =>
      match token with
      | [] => parseTokens tokens' result
      | _ =>
          if matches token newPathMutationName then
            parseTokens tokens'
              (MLT.mkEnabled true (MLT.lensPerturbation result)
                 (MLT.multiChainPerturbation result)
                 (MLT.bidirectionalMutation result))
          else if matches token lensPerturbationName then
            parseTokens tokens'
              (MLT.mkEnabled (MLT.newPathMutation result) true
                 (MLT.multiChainPerturbation result)
                 (MLT.bidirectionalMutation result))
          else if matches token multiChainPerturbationName then
            parseTokens tokens'
              (MLT.mkEnabled (MLT.newPathMutation result)
                 (MLT.lensPerturbation result) true
                 (MLT.bidirectionalMutation result))
          else if matches token bidirectionalMutationName then
            parseTokens tokens'
              (MLT.mkEnabled (MLT.newPathMutation result)
                 (MLT.lensPerturbation result)
                 (MLT.multiChainPerturbation result) true)
          else None
      end
  end.

Definition getEnabledMutationsFromString (s : list ascii)
  : option MLT.EnabledMutations :=
  parseTokens (getlines s []) (MLT.mkEnabled false false false false).

(** The mutation set [main] passes to the renderer: all four kernels
    unless the option [--mutations] gave a non-empty string. *)
Definition enabledMutations (enabledMutationsString : list ascii)
  : option MLT.EnabledMutations :=
  match enabledMutationsString with
  | [] => Some (MLT.mkEnabled true true true true)
  | _ => getEnabledMutationsFromString enabledMutationsString
  end.
End Main.

(** ** path_tracer.cpp: the pixels a call of [accumulate] writes *)

Module PathTracer.
Definition blockWidth : Z := 32.

(** The values the variable of
    [for (int i = start; i < bound; i += step)] takes, [bound] and [step]
    being [std::size_t]: [i] is converted to [std::size_t] for the
    comparison and the sum is converted back to [int]. *)
Fixpoint loopValues (fuel : nat) (i bound step : Z) : list Z :=
  match fuel with
  | O => []
  | S fuel' =>
      if Int.u64 i <? bound
      then i :: loopValues fuel' (Int.i32 (i + step)) bound step
      else []
  end.

(** [PathTracer::accumulateBlock(scene, numSamples, x, y, blockWidth)]
    while no stop is requested: the pixels [(i, j)] of its two loops, each
    of which receives one [_accumulationBuffer.rgb(i, j) += radiance]. *)
Definition accumulateBlock (width height : Z) (x y blockWidth : Z)
  : list (Z * Z) :=
  j ← loopValues (Z.to_nat height) (Int.i32 y)
        (Z.min height (Int.u64 (y + blockWidth))) 1;
  i ← loopValues (Z.to_nat width) (Int.i32 x)
        (Z.min width (Int.u64 (x + blockWidth))) 1;
  [(i, j)].

(** The blocks [PathTracer::accumulate] hands to the thread pool. *)
Definition blocks (width height : Z) : list (Z * Z) :=
  j ← loopValues (Z.to_nat height) 0 height blockWidth;
  i ← loopValues (Z.to_nat width) 0 width blockWidth;
  [(i, j)].

(** [PathTracer::accumulate]: the pixels written, with a thread pool (all
    blocks, in the order they are assigned) and without. *)
Definition accumulate (pool : bool) (width height : Z) : list (Z * Z) :=
  if pool then
    '(i, j) ← blocks width height;
    accumulateBlock width height (Int.u64 i) (Int.u64 j) blockWidth
  else
    accumulateBlock width height 0 0 (Z.max width height).
End PathTracer.

(** * Predicates and example data of the statements *)

(** ** The order of binary32 comparisons *)

Definition isNaN (x : float) : bool :=
  match x with S754_nan => true | _ => false end.

(** [SFcompare] orders the numbers by sign class, then exponent, then
    mantissa; [key] spells that out as a triple of integers, and [nanZ]
    flags the NaN, which is below and above nothing. *)
Definition key (x : float) : Z * Z * Z :=
  match x with
  | S754_nan => (0, 0, 0)
  | S754_zero _ => (0, 0, 0)
  | S754_infinity true => (-2, 0, 0)
  | S754_infinity false => (2, 0, 0)
  | S754_finite true m e => (-1, - e, Zneg m)
  | S754_finite false m e => (1, e, Zpos m)
  end.

Definition nanZ (x : float) : Z := if isNaN x then 1 else 0.

Definition lt3 (a b : Z * Z * Z) : Prop :=
  fst (fst a) < fst (fst b)
  \/ (fst (fst a) = fst (fst b)
      /\ (snd (fst a) < snd (fst b)
          \/ (snd (fst a) = snd (fst b) /\ snd a < snd b))).

(** NaN or an infinity. *)
Definition notFinite (x : float) : bool :=
  match x with
  | S754_nan | S754_infinity _ => true
  | _ => false
  end.

(** Small integers as floats, and vectors of them. *)
Definition zf (n : Z) : float := F32.of_Z n.
Definition vz (a b c : Z) : Vec3 := mkVec3 (zf a) (zf b) (zf c).

(** ** AABB *)

Definition insideAxis (mn mx p : float) : Prop :=
  F32.gtb mn p = false /\ F32.ltb mx p = false.

(** No coordinate of [p] is below the box's minimum or above its maximum. *)
Definition inside (b : AABB.t) (p : Vec3) : Prop :=
  insideAxis (v3x (AABB._min b)) (v3x (AABB._max b)) (v3x p) /\
  insideAxis (v3y (AABB._min b)) (v3y (AABB._max b)) (v3y p) /\
  insideAxis (v3z (AABB._min b)) (v3z (AABB._max b)) (v3z p).

(** The cube [0, 2]^3, fitted from three points, and a ray that starts at
    its center and runs through the fitted point (2, 1, 1). *)
Definition cubePoints : list Vec3 := [vz 0 0 0; vz 2 2 2; vz 2 1 1].
Definition rayFromCenter : Ray := mkRay (vz 1 1 1) (vz 1 0 0).

(** A single fitted point far out on a ray: in exact arithmetic the ray
    [o + t d] meets [farPoint] at [t = 2^24 + 1]. *)
Definition farPoint : Vec3 := vz (2 ^ 24) (3 * 2 ^ 24) (2 ^ 24).
Definition rayToFarPoint : Ray := mkRay (vz (-1) (-3) (-1)) (vz 1 3 1).

(** ** BVH construction *)


Definition nodeOK (C : Z) (len : nat) (nd : BVHData.Node) : Prop :=
  0 <= BVHData.idx nd /\ 0 <= BVHData.numTriangles nd /\
  (BVHData.numTriangles nd = 0 ->
   1 <= BVHData.idx nd /\ BVHData.idx nd + 3 < Z.of_nat len) /\
  (BVHData.numTriangles nd <> 0 ->
   BVHData.idx nd + BVHData.numTriangles nd <= C).

Definition buildOK (C : Z) (st : BVH.Build) : Prop :=
  Z.of_nat (length (BVH.b_triangles st)) = C /\
  Z.of_nat (length (BVH.b_centers st)) = C /\
  Forall (nodeOK C (length (BVH.b_nodes st))) (BVH.b_nodes st).

(** The node [split] is called on: the root, or child [childIdx] of the
    node at [parent]. *)
Definition targetOf (st : BVH.Build) (parent : option Z)
    (childIdx nodeIdx : Z) : Prop :=
  match parent with
  | None => nodeIdx = 0
  | Some p =>
      0 <= p /\ exists pn, BVH.b_nodes st !! Z.to_nat p = Some pn
                           /\ nodeIdx = BVHData.idx pn + childIdx
  end.

(** What one call of [split] on the node at [nodeIdx], a leaf of [n]
    triangles, does to the construction state. *)
Definition splitPost (C nodeIdx n : Z) (st st' : BVH.Build) : Prop :=
  buildOK C st' /\
  (length (BVH.b_nodes st) <= length (BVH.b_nodes st'))%nat /\
  3 * Z.of_nat (length (BVH.b_nodes st'))
    <= 3 * Z.of_nat (length (BVH.b_nodes st)) + 4 * (n - 1) /\
  forall j : nat,
    (j < length (BVH.b_nodes st))%nat -> j <> Z.to_nat nodeIdx ->
    BVH.b_nodes st' !! j = BVH.b_nodes st !! j.

(** The bound that keeps every node index within 32 bits. *)
Definition nodeBudget : Z := 3 * 2 ^ 32 - 3.

(** A split whose two sides are both non-empty and share the range. *)
Definition properSplit (n : Z) (s : BVH.SplitInfo) : Prop :=
  1 <= BVH.numLeft s /\ 1 <= BVH.numRight s
  /\ BVH.numLeft s + BVH.numRight s = n.

Definition properOpt (n : Z) (o : option BVH.SplitInfo) : Prop :=
  match o with Some s => properSplit n s | None => True end.

(** A right triangle with its corner at [(x, 0, 0)]. *)
Definition triangleAt (x : Z) : Mesh.Triangle :=
  Mesh.mkTriangle (vz x 0 0, vz (x + 1) 0 0, vz x 1 0)
    (vz 0 0 1, vz 0 0 1, vz 0 0 1)
    (mkVec2 F32.zero F32.zero, mkVec2 F32.zero F32.zero,
     mkVec2 F32.zero F32.zero).

(** Five coincident triangles, and eight triangles spread along a row. *)
Definition fiveCoincident : list Mesh.Triangle :=
  [triangleAt 0; triangleAt 0; triangleAt 0; triangleAt 0; triangleAt 0].
Definition rowOfEight : list Mesh.Triangle :=
  map (fun i => triangleAt (10 * Z.of_nat i)) (seq 0 8).

(** ** BVH traversal *)

Definition laneDist (hit : AABB4.HitInfo) (i : Z) : float :=
  V4.get (AABB4.distances hit) i.

(** A lane the push loop can still choose: reported hit, at a distance
    below the initial [bestDist] of plus infinity. *)
Definition avail (hit : AABB4.HitInfo) (i : Z) : bool :=
  V4.bget (AABB4.isHit hit) i && F32.ltb (laneDist hit i) F32.infinity.

Definition clearLane (hit : AABB4.HitInfo) (b : Z) : AABB4.HitInfo :=
  AABB4.mkHit (V4.bset (AABB4.isHit hit) b false) (AABB4.distances hit).

Definition countAvail (hit : AABB4.HitInfo) : nat :=
  length (filter (fun i => avail hit i = true) [0; 1; 2; 3]).

(** The stack entry of the child in lane [lane]. *)
Definition entry (node : BVHData.Node) (hit : AABB4.HitInfo) (lane : Z)
  : BVH.StackInfo :=
  BVH.mkStackInfo (Int.u32 (BVHData.idx node + lane)) (laneDist hit lane).

(** Lane [a] is pushed before lane [b]: [b] is not nearer, and at equal
    distance [a] is the lower lane. *)
Definition nearerFirst (hit : AABB4.HitInfo) (a b : Z) : Prop :=
  F32.ltb (laneDist hit b) (laneDist hit a) = false /\
  (F32.ltb (laneDist hit a) (laneDist hit b) = false -> a < b).

(** The live entries of a stack, bottom first. *)
Definition contents (s : BVH.TraversalStack) : list BVH.StackInfo :=
  take (Z.to_nat (BVH._size s)) (BVH._data s).

(** A stack with [room] more entries to go before its size overflows. *)
Definition stackOK (room : Z) (s : BVH.TraversalStack) : Prop :=
  0 <= BVH._size s <= Z.of_nat (length (BVH._data s)) /\
  BVH._size s + room < 2 ^ 64.

(** The state of the inner loop after the lanes below [k]. *)
Definition closestSoFar (hit : AABB4.HitInfo) (k : Z)
    (acc : option Z * float) : Prop :=
  match fst acc with
  | None =>
      snd acc = F32.infinity /\
      forall i, 0 <= i < k -> avail hit i = false
  | Some b =>
      0 <= b < k /\ snd acc = laneDist hit b /\ avail hit b = true /\
      forall i, 0 <= i < k -> avail hit i = true ->
        F32.ltb (laneDist hit i) (snd acc) = false /\
        (i < b -> F32.ltb (snd acc) (laneDist hit i) = true)
  end.

(** The internal-node branch pushed exactly the hit children, nearest
    first. *)
Definition pushedNearToFar (node : BVHData.Node) (ray : Ray)
    (stack : BVH.TraversalStack) : Prop :=
  let hit := AABB4.intersect (BVHData.childBounds node) ray in
  exists lanes : list Z,
    contents (BVH.pushHitChildren node ray stack)
      = contents stack ++ map (entry node hit) lanes
    /\ StronglySorted (nearerFirst hit) lanes
    /\ NoDup lanes
    /\ forall l, In l lanes <-> 0 <= l <= 3 /\ avail hit l = true.

(** A box around the x-axis between [x0] and [x1]. *)
Definition boxAlongX (x0 x1 : Z) : AABB.t :=
  AABB.fit (AABB.fit AABB.empty (vz x0 (-1) (-1))) (vz x1 1 1).

(** An internal node whose children start at index 5: two boxes ahead of
    the origin, at distances 1 and 3, and two behind it. *)
Definition nodeTwoAhead : BVHData.Node :=
  BVHData.mkNode
    (AABB4.pack (boxAlongX 1 2) (boxAlongX 3 4)
                (boxAlongX (-4) (-3)) (boxAlongX (-8) (-7)))
    5 0.
Definition rayAlongX : Ray := mkRay (vz 0 0 0) (vz 1 0 0).

(** ** Paths *)

(** A path object: the array has [MaxLength] slots and the length is
    between [lo] and [MaxLength]. *)
Definition pathOK (lo : Z) (p : Path.t) : Prop :=
  length (Path._path p) = Z.to_nat MaxLength /\
  lo <= Path._pathLength p <= MaxLength.

(** The lengths of the two sampled paths: an eye path has 1 to [MaxLength]
    vertices; a light path has one vertex, or none in a scene without
    lights. *)
Definition sampledLengths
    (si : Scene.t -> Ray -> float -> float -> option Scene.HitInfo)
    (sd : MaterialData -> Vec3 -> Vertex -> PCG32.Generator ->
          (Ray * BounceType) * PCG32.Generator)
    (gc : PCG32.Generator -> float * PCG32.Generator)
    (dd : list float -> PCG32.Generator -> Z * PCG32.Generator)
    (scene : Scene.t) (ray : Ray) (g : PCG32.Generator) : Prop :=
  (exists p g',
     createRandomEyePath si sd gc scene ray g = Some (p, g')
     /\ 1 <= Path.length p <= MaxLength) /\
  (exists p g',
     createRandomLightPath gc dd scene g = Some (p, g')
     /\ Path.length p = match Scene.lights scene with [] => 0 | _ => 1 end).

(** Stand-ins for the sampling routines: every ray hits the same surface
    point, every bounce continues along the same ray, and the uniform
    variate is always 1 (so Russian roulette never stops a path). *)
Definition alwaysHit
  : Scene.t -> Ray -> float -> float -> option Scene.HitInfo :=
  fun _ _ _ _ =>
    Some (Scene.mkHitInfo F32.one (vz 0 0 1) (vz 0 0 (-1)) (vz 0 0 (-1))
            (mkVec2 F32.zero F32.zero) None).
Definition neverHit
  : Scene.t -> Ray -> float -> float -> option Scene.HitInfo :=
  fun _ _ _ _ => None.
Definition sameDirection
  : MaterialData -> Vec3 -> Vertex -> PCG32.Generator ->
    (Ray * BounceType) * PCG32.Generator :=
  fun _ _ _ g => (mkRay (vz 0 0 0) (vz 0 0 1), Diffuse, g).
Definition alwaysOne : PCG32.Generator -> float * PCG32.Generator :=
  fun g => (F32.one, g).
Definition firstOutcome : list float -> PCG32.Generator -> Z * PCG32.Generator :=
  fun _ g => (0, g).

Definition sceneNoLights : Scene.t := Scene.mk [] [] [] [] [].
Definition sceneOneLight : Scene.t :=
  Scene.mk [] [] [] [PointLight (vz 0 2 0) (vz 100 100 100)] [].

(** ** Evaluation: an explicit connection in the middle of a path *)

Definition whiteEmitter : MaterialData :=
  mkMaterialData (V4.splat F32.one) None F32.one F32.one
    (V3.splat F32.one) F32.one None F32.zero
    (S754_finite false 12582912 (-23)).
Definition greySurface : MaterialData :=
  mkMaterialData (V4.splat F32.half) None F32.one F32.one
    (V3.splat F32.zero) F32.one None F32.zero
    (S754_finite false 12582912 (-23)).
Definition sceneTwoMaterials : Scene.t :=
  Scene.mk [] [] [] [] [whiteEmitter; greySurface].

Definition vertexAt (c : ConnectionType) (p n : Vec3) (material : Z)
  : Vertex :=
  mkVertex c Diffuse p n n (mkVec2 F32.zero F32.zero) (Some material) None.

(** Four vertices on the z-axis, one unit apart; vertex 2 is reached by an
    explicit connection and is not the last one.  Vertices 1 and 2 carry
    material 0, vertex 3 carries material 1. *)
Definition pathV0 : Vertex := vertexAt Origin (vz 0 0 (-1)) (vz 0 0 1) 0.
Definition pathV1 : Vertex := vertexAt Implicit (vz 0 0 0) (vz 0 0 1) 0.
Definition pathV2 : Vertex := vertexAt Explicit (vz 0 0 1) (vz 0 0 (-1)) 0.
Definition pathV3 : Vertex := vertexAt Implicit (vz 0 0 2) (vz 0 0 (-1)) 1.

(** ** The two-sided clipped geometric distribution *)

(** Base 0.5, lengths 0 to 4, centered on 2. *)
Definition twoSidedAround2 (log2f : float -> float)
  : TwoSidedClippedGeometricDistribution :=
  setParameters powf_int (twoSided log2f F32.half) 0 2 4.

(** ** Texture sampling *)

(** A 3 x 1 RGB image with the grey levels 10, 20 and 30. *)
Definition imageThreeTexels : Image.t :=
  Image.mk (map F32.of_Z [10; 10; 10; 20; 20; 20; 30; 30; 30]) 3 1 3.
Definition sceneOneTexture : Scene.t :=
  Scene.mk [] [mkTexture 0] [imageThreeTexels] [] [].
Definition minusHalf : float := F32.opp F32.half.

(** ** MLT *)

(** The buffer [MLTProcess] allocates: [width * height] RGB pixels. *)
Definition bufferOK (w h : Z) (img : Image.t) : Prop :=
  Image._width img = w /\ Image._height img = h /\ Image._channels img = 3
  /\ Z.of_nat (length (Image._pixels img)) = w * h * 3.

(** Every pixel is clamped into the frame, and the mutation loop ends
    without a write outside the buffer. *)
Definition writesInBounds
    (gc : PCG32.Generator -> float * PCG32.Generator)
    (crm : Scene.t -> MLT.State -> float -> Z -> PCG32.Generator ->
           option MLT.MutationInfo * float * Z * PCG32.Generator)
    (stop : nat -> bool) (w h : Z) (scene : Scene.t) (n i : nat)
    (p : MLT.MLTProcess) (g : PCG32.Generator) : Prop :=
  (forall pixel : Vec2,
     let xy := MLT.clampPixel pixel (MLT._accumulationBuffer p) in
     0 <= fst xy <= w - 1 /\ 0 <= snd xy <= h - 1 /\
     Image.valid (MLT._accumulationBuffer p) (fst xy) (snd xy) = true) /\
  exists p' g',
    MLT.mutationLoop gc crm stop n i scene p g = Some (p', g')
    /\ bufferOK w h (MLT._accumulationBuffer p').

Definition lensOnly : MLT.EnabledMutations :=
  MLT.mkEnabled false true false false.

(** A renderer with two workers and no new-path mutations, after one
    sample per pixel. *)
Definition mltLensOnly : MLT.t :=
  MLT.mk lensOnly 4 4 (MLT._processes (MLT.create lensOnly 4 4 2)) 1.

(** A chain state at pixel (1.5, 2.5) with white radiance, and a kernel
    that always proposes the pixel (4, 0) on the right border of a
    4 x 4 frame. *)
Definition whiteEvaluation : EvaluationResult :=
  mkEvaluationResult (V3.splat F32.one) (V3.splat F32.one).
Definition stateInside : MLT.State :=
  MLT.mkState Path.empty
    (mkVec2 (S754_finite false 12582912 (-23))
            (S754_finite false 10485760 (-22)))
    whiteEvaluation.
Definition stateOnBorder : MLT.State :=
  MLT.mkState Path.empty (mkVec2 (zf 4) F32.zero) whiteEvaluation.
Definition proposeBorder
  : Scene.t -> MLT.State -> float -> Z -> PCG32.Generator ->
    option MLT.MutationInfo * float * Z * PCG32.Generator :=
  fun _ _ lum num g =>
    (Some (MLT.mkMutationInfo stateOnBorder F32.half MLT.Lens), lum, num, g).
Definition neverStop : nat -> bool := fun _ => false.
Definition processInside : MLT.MLTProcess :=
  MLT.mkProcess (Image.create 4 4 3) F32.zero 0 F32.zero
    (Some stateInside) [F32.zero; F32.one; F32.zero; F32.zero].

(** ** The mutation set on the command line *)

(** Case-insensitive prefix: the lower-cased [token] starts the
    lower-cased [ref]. *)
Definition ciPrefix (token ref : list ascii) : Prop :=
  exists rest, map Main.tolower ref = map Main.tolower token ++ rest.

(** The tokens joined by commas. *)
Fixpoint joinCommas (tokens : list (list ascii)) : list ascii :=
  match tokens with
  | [] => []
  | [token] => token
  | token :: tokens' => token ++ ","%char :: joinCommas tokens'
  end.

Definition kernelNames : list (list ascii) :=
  [Main.newPathMutationName; Main.lensPerturbationName;
   Main.multiChainPerturbationName; Main.bidirectionalMutationName].

(** Some non-empty token of the list selects the kernel called [name]. *)
Definition selects (tokens : list (list ascii)) (name : list ascii) : Prop :=
  exists token,
    In token tokens /\ token <> [] /\ Main.matches token name = true.

(** The token names no kernel: it matches none of the four names. *)
Definition unknownToken (token : list ascii) : Prop :=
  forall name, In name kernelNames -> Main.matches token name = false.

(** What the token loop makes of the tokens, from the flags [start]: it
    returns flags only when every non-empty token matches a kernel name,
    and then a flag is set when it was set or a token selects its kernel;
    it throws only when some non-empty token matches no kernel name. *)
Definition parsedFrom (tokens : list (list ascii))
    (start : MLT.EnabledMutations) (r : option MLT.EnabledMutations) : Prop :=
  match r with
  | Some c =>
      (forall token, In token tokens -> token <> [] ->
         ~ unknownToken token) /\
      (MLT.newPathMutation c = true <->
       MLT.newPathMutation start = true
       \/ selects tokens Main.newPathMutationName) /\
      (MLT.lensPerturbation c = true <->
       MLT.lensPerturbation start = true
       \/ selects tokens Main.lensPerturbationName) /\
      (MLT.multiChainPerturbation c = true <->
       MLT.multiChainPerturbation start = true
       \/ selects tokens Main.multiChainPerturbationName) /\
      (MLT.bidirectionalMutation c = true <->
       MLT.bidirectionalMutation start = true
       \/ selects tokens Main.bidirectionalMutationName)
  | None =>
      exists token, In token tokens /\ token <> [] /\ unknownToken token
  end.

(** The option value [new,LENS]. *)
Definition newAndLens : list ascii := list_ascii_of_string "new,LENS".

(** ** PCG32 *)

(** The inverse of [Multiplier] modulo [2^64], and the step it undoes. *)
Definition InvMultiplier : Z := 13877824140714322085.
Definition previous (g : PCG32.Generator) : PCG32.Generator :=
  PCG32.mkGenerator (Int.u64 (PCG32.mcgState g * InvMultiplier)).

(** ** AABB: NaN-free boxes *)

Definition noNaN3 (v : Vec3) : Prop :=
  isNaN (v3x v) = false /\ isNaN (v3y v) = false /\ isNaN (v3z v) = false.

(** Neither corner of the box holds a NaN. *)
Definition boxNoNaN (b : AABB.t) : Prop :=
  noNaN3 (AABB._min b) /\ noNaN3 (AABB._max b).

(** A triangle with a NaN coordinate in one of its corners. *)
Definition triangleWithNaN : Mesh.Triangle :=
  Mesh.mkTriangle
    (mkVec3 F32.nan (zf 0) (zf 0), vz 1 0 0, vz 0 1 0)
    (vz 0 0 1, vz 0 0 1, vz 0 0 1)
    (mkVec2 F32.zero F32.zero, mkVec2 F32.zero F32.zero,
     mkVec2 F32.zero F32.zero).

(** ** The scalar and the packed box test *)

(** Box [i] of the four boxes packed into an [AABB4]. *)
Definition laneBox (a b c d : AABB.t) (i : Z) : AABB.t :=
  if i =? 0 then a else if i =? 1 then b else if i =? 2 then c else d.

(** The six quotients [(bound - origin) / direction] both box tests start
    from. *)
Definition slabQuotients (b : AABB.t) (ray : Ray) : list float :=
  let q (m o d : float) := F32.div (F32.sub m o) d in
  let o := ray_o ray in
  let d := ray_d ray in
  [q (v3x (AABB._min b)) (v3x o) (v3x d);
   q (v3x (AABB._max b)) (v3x o) (v3x d);
   q (v3y (AABB._min b)) (v3y o) (v3y d);
   q (v3y (AABB._max b)) (v3y o) (v3y d);
   q (v3z (AABB._min b)) (v3z o) (v3z d);
   q (v3z (AABB._max b)) (v3z o) (v3z d)].

(** Equal as numbers: both NaN or neither, and the same place in the
    order (the two zeros are one number). *)
Definition sameNumber (x y : float) : Prop :=
  nanZ x = nanZ y /\ key x = key y.

(** What one lane of [AABB4::intersect] computes, written on one box. *)
Definition laneNear (b : AABB.t) (ray : Ray) : float :=
  let q (m o d : float) := F32.div (F32.sub m o) d in
  let o := ray_o ray in
  let d := ray_d ray in
  let tx1 := F32.min (q (v3x (AABB._min b)) (v3x o) (v3x d))
                     (q (v3x (AABB._max b)) (v3x o) (v3x d)) in
  let ty1 := F32.min (q (v3y (AABB._min b)) (v3y o) (v3y d))
                     (q (v3y (AABB._max b)) (v3y o) (v3y d)) in
  let tz1 := F32.min (q (v3z (AABB._min b)) (v3z o) (v3z d))
                     (q (v3z (AABB._max b)) (v3z o) (v3z d)) in
  F32.max tx1 (F32.max ty1 tz1).

Definition laneFar (b : AABB.t) (ray : Ray) : float :=
  let q (m o d : float) := F32.div (F32.sub m o) d in
  let o := ray_o ray in
  let d := ray_d ray in
  let tx2 := F32.max (q (v3x (AABB._min b)) (v3x o) (v3x d))
                     (q (v3x (AABB._max b)) (v3x o) (v3x d)) in
  let ty2 := F32.max (q (v3y (AABB._min b)) (v3y o) (v3y d))
                     (q (v3y (AABB._max b)) (v3y o) (v3y d)) in
  let tz2 := F32.max (q (v3z (AABB._min b)) (v3z o) (v3z d))
                     (q (v3z (AABB._max b)) (v3z o) (v3z d)) in
  F32.min tx2 (F32.min ty2 tz2).

Definition laneHit (b : AABB.t) (ray : Ray) : bool :=
  F32.leb (laneNear b ray) (laneFar b ray)
  && negb (F32.ltb (laneNear b ray) F32.zero
           && F32.ltb (laneFar b ray) F32.zero).

(** A ray along the z-axis that starts on the plane [x = 0] of the unit
    cube: the quotient [(0 - 0) / 0] of the x-slab is NaN. *)
Definition cubeTwo : AABB.t := AABB.mk (vz 0 0 0) (vz 2 2 2).
Definition rayOnFace : Ray := mkRay (vz 0 1 1) (vz 0 0 1).

(** ** Images *)

(** A 2 x 2 RGB image of zeros. *)
Definition imageTwoByTwo : Image.t := Image.create 2 2 3.

(** ** Paths: slices *)

(** An eye path of three vertices. *)
Definition pathOfThree : Path.t :=
  Path.mk ([pathV0; pathV1; pathV3]
             ++ replicate (Z.to_nat MaxLength - 3) Vertex0) 3.

(** ** Evaluation of short paths *)

(** No radiance, with or without the Russian-roulette weights. *)
Definition black : EvaluationResult :=
  mkEvaluationResult (V3.splat F32.zero) (V3.splat F32.zero).

(** The eye and one vertex on the white emitter: the camera looks
    straight at a light. *)
Definition pathEyeToEmitter : list Vertex := [pathV0; pathV1].

(** ** Textures *)

(** An image of [w] x [h] pixels with [c] floats each. *)
Definition imageOK (w h c : Z) (img : Image.t) : Prop :=
  Image._width img = w /\ Image._height img = h /\ Image._channels img = c
  /\ Z.of_nat (length (Image._pixels img)) = w * h * c.

(** Texture [i] of the scene names an image of the scene, and that image
    is empty (it failed to load) or holds RGB or RGBA pixels. *)
Definition textureOK (scene : Scene.t) (i : Z) : Prop :=
  exists tex img,
    at_ (Scene.textures scene) i = Some tex
    /\ at_ (Scene.images scene) (imageIdx tex) = Some img
    /\ (Image._pixels img = []
        \/ exists w h c,
             1 <= w <= Int.INT_MAX /\ 1 <= h <= Int.INT_MAX
             /\ 3 <= c <= 4 /\ imageOK w h c img).

(** A 2 x 1 image with one float per pixel. *)
Definition imageGrey : Image.t := Image.mk [zf 10; zf 20] 2 1 1.

(** ** BVH traversal: what a reported hit is *)

(** The hit is what the triangle test answers for a triangle of the
    BVH. *)
Definition fromTriangle (bvh : BVHData.t) (ray : Ray)
    (minDistance maxDistance : float) (h : BVH.HitInfo) : Prop :=
  exists tri,
    In tri (BVHData.triangles bvh)
    /\ BVH.doesRayIntersectTriangle ray tri minDistance maxDistance
       = Some h.

Definition hitFromTriangle (bvh : BVHData.t) (ray : Ray)
    (minDistance maxDistance : float) (o : option BVH.HitInfo) : Prop :=
  match o with
  | Some h => fromTriangle bvh ray minDistance maxDistance h
  | None => True
  end.

(** One triangle in the plane [z = 0] and a ray that comes down on it
    from [z = 1]. *)
Definition bvhOneTriangle : BVHData.t :=
  BVHData.mk [BVHData.mkTriangle (Mesh.positions (triangleAt 0)) 7]
             [BVHData.mkNode AABB4.empty 0 1]
             (AABB.mk (vz 0 0 0) (vz 1 1 0)).
Definition quarter : float := F32.mul F32.half F32.half.
Definition rayDown : Ray := mkRay (mkVec3 quarter quarter (zf 1)) (vz 0 0 (-1)).
Definition hitDown : BVH.HitInfo :=
  BVH.mkHitInfo 7 (zf 1) (mkVec3 quarter quarter (zf 0))
    (mkVec3 F32.half quarter quarter).

(** ** BVH construction: the layout of the tree *)

(** Node [i] stands for [T i] triangles, the triangles [R i] to
    [R i + T i - 1] of the triangle array: a leaf holds just that range,
    and the four children of an internal node split the node's range
    into four consecutive parts. *)
Definition layoutOK (T R : nat -> Z) (nodes : list BVHData.Node) : Prop :=
  forall (i : nat) (nd : BVHData.Node),
    nodes !! i = Some nd ->
    1 <= T i /\
    (BVHData.numTriangles nd <> 0 ->
     T i = BVHData.numTriangles nd /\ R i = BVHData.idx nd) /\
    (BVHData.numTriangles nd = 0 ->
     let c (k : Z) := Z.to_nat (BVHData.idx nd + k) in
     R (c 0) = R i /\ R (c 1) = R (c 0) + T (c 0) /\
     R (c 2) = R (c 1) + T (c 1) /\ R (c 3) = R (c 2) + T (c 2) /\
     T i = T (c 0) + T (c 1) + T (c 2) + T (c 3)).

(** What a call of [split] adds to [splitPost]: the layout extends to the
    new nodes, and the triangles are only reordered. *)
Definition splitLayout (T R : nat -> Z) (st st' : BVH.Build) : Prop :=
  BVH.b_triangles st' ≡ₚ BVH.b_triangles st /\
  exists T' R' : nat -> Z,
    layoutOK T' R' (BVH.b_nodes st') /\
    forall j : nat,
      (j < length (BVH.b_nodes st))%nat -> T' j = T j /\ R' j = R j.

(** The triangles the constructor copies out of the mesh, in mesh
    order. *)
Definition sliceTriangles (meshTriangles : list Mesh.Triangle)
    (startIdx count : Z) : list BVHData.Triangle :=
  imap (fun i (t : Mesh.Triangle) =>
          BVHData.mkTriangle (Mesh.positions t) (startIdx + Z.of_nat i))
       (take (Z.to_nat count) (drop (Z.to_nat startIdx) meshTriangles)).

(** What construction over [count] triangles leaves behind. *)
Definition builtOK (meshTriangles : list Mesh.Triangle)
    (startIdx count : Z) (bvh : BVHData.t) : Prop :=
  Z.of_nat (length (BVHData.triangles bvh)) = count
  /\ Forall (nodeOK count (length (BVHData.nodes bvh))) (BVHData.nodes bvh)
  /\ 3 <= 3 * Z.of_nat (length (BVHData.nodes bvh)) <= 4 * count - 1
  /\ BVHData.triangles bvh ≡ₚ sliceTriangles meshTriangles startIdx count
  /\ exists T R : nat -> Z,
       layoutOK T R (BVHData.nodes bvh) /\ T 0%nat = count /\ R 0%nat = 0.

(** The nodes the traversal can reach from the root. *)
Inductive reachable (nodes : list BVHData.Node) : nat -> Prop :=
| reachable_root : reachable nodes 0
| reachable_child (i : nat) (nd : BVHData.Node) (k : Z) :
    reachable nodes i -> nodes !! i = Some nd ->
    BVHData.isLeaf nd = false -> 0 <= k <= 3 ->
    reachable nodes (Z.to_nat (BVHData.idx nd + k)).

(** The layout after a node became internal: its four new leaves take
    the four parts of its range. *)
Definition extend (L : Z) (v0 v1 v2 v3 : Z) (f : nat -> Z) (j : nat) : Z :=
  let z := Z.of_nat j in
  if z =? L then v0 else if z =? L + 1 then v1
  else if z =? L + 2 then v2 else if z =? L + 3 then v3 else f j.

(** ** BVH traversal: termination *)

(** The work a stack entry stands for: a node of [T] triangles costs at
    most [2 T - 1] iterations of the traversal loop. *)
Definition weight (T : nat -> Z) (e : BVH.StackInfo) : Z :=
  2 * T (Z.to_nat (BVH.s_idx e)) - 1.

Definition potential (T : nat -> Z) (es : list BVH.StackInfo) : Z :=
  foldr (fun e acc => weight T e + acc) 0 es.

(** Every entry names a node of the node array. *)
Definition entriesOK (nodes : list BVHData.Node)
    (es : list BVH.StackInfo) : Prop :=
  Forall (fun e => 0 <= BVH.s_idx e
                   /\ is_Some (nodes !! Z.to_nat (BVH.s_idx e))) es.

(** ** MLT: a stop request during [accumulate] *)

Definition stopAtOnce : nat -> bool := fun _ => true.

(** The slab interval of one axis as [intersect] has it after the swap:
    the entry value and the exit value of the ray parameter. *)
Definition slabEntry (b : AABB.t) (ray : Ray) (axis : Z) : float :=
  fst (AABB.slab (AABB.getMin b axis) (AABB.getMax b axis)
         (V3.get (ray_o ray) axis) (V3.get (ray_d ray) axis)).
Definition slabExit (b : AABB.t) (ray : Ray) (axis : Z) : float :=
  snd (AABB.slab (AABB.getMin b axis) (AABB.getMax b axis)
         (V3.get (ray_o ray) axis) (V3.get (ray_d ray) axis)).

(** The parameter [s] lies in the slab interval of every axis. *)
Definition inAllSlabs (b : AABB.t) (ray : Ray) (s : float) : Prop :=
  forall axis, 0 <= axis <= 2 ->
    F32.leb (slabEntry b ray axis) s = true
    /\ F32.leb s (slabExit b ray axis) = true.

(** The decision [split] takes on a node of more than
    [MaxNumTrianglesInLeaf] triangles, in the order of the source: the
    search for an initial split, then for a split of its left and of its
    right part, each against [nodeCost], and the test of the four-way
    cost.  [true]: [split] returns and the node stays a leaf. *)
Definition keepsLeaf (getBoundsSize getBoundsMin : Z -> float)
    (node : BVHData.Node) (triangles : list BVHData.Triangle)
    (triangleCenters : list Vec3) (nodeCost : float) : bool :=
  let '(bestInitialSplit, tris, centers) :=
    BVH.trySplitAndPartition getBoundsSize getBoundsMin
      (BVHData.idx node) (BVHData.numTriangles node)
      triangles triangleCenters nodeCost in
  match bestInitialSplit with
  | None => true
  | Some initial =>
      let '(bestLeftSplit, tris, centers) :=
        BVH.trySplitAndPartition
          (AABB.getSize (BVH.leftBBox initial))
          (AABB.getMin (BVH.leftBBox initial))
          (BVHData.idx node) (Int.u32 (BVH.numLeft initial))
          tris centers nodeCost in
      match bestLeftSplit with
      | None => true
      | Some bestLeft =>
          let '(bestRightSplit, _, _) :=
            BVH.trySplitAndPartition
              (AABB.getSize (BVH.rightBBox initial))
              (AABB.getMin (BVH.rightBBox initial))
              (Int.u32 (BVHData.idx node + BVH.numLeft initial))
              (Int.u32 (BVH.numRight initial))
              tris centers nodeCost in
          match bestRightSplit with
          | None => true
          | Some bestRight =>
              F32.gtb
                (F32.add
                   (F32.add
                      (F32.add (BVH.leftCost bestLeft)
                               (BVH.rightCost bestLeft))
                      (BVH.leftCost bestRight))
                   (BVH.rightCost bestRight))
                nodeCost
          end
      end
  end.



(** The decision of the constructor's call of [split] on the root. *)
Definition rootKeptLeaf (meshTriangles : list Mesh.Triangle)
    (startIdx count : Z) : bool :=
  let tris := sliceTriangles meshTriangles startIdx count in
  let rootBounds := fold_left BVH.fitTriangle tris AABB.empty in
  let rootNode := BVHData.mkNode AABB4.empty 0 (Int.u32 count) in
  keepsLeaf (AABB.getSize rootBounds) (AABB.getMin rootBounds) rootNode
    tris (map BVH.center tris)
    (F32.mul (F32.of_Z (BVHData.numTriangles rootNode))
             (AABB.halfArea rootBounds)).

(** The cost [trySplitAndPartition] computes for the candidate plane
    [split] (0 to 4) of [axis]: the plane's position in the bounds, and
    the sum of the costs of the two sides. *)
Definition candidateCost (getBoundsSize getBoundsMin : Z -> float)
    (trianglesInBounds : list BVHData.Triangle)
    (centersInBounds : list Vec3) (axis split : Z) : float :=
  let splitSeparation :=
    F32.div (getBoundsSize axis) (F32.of_Z (BVH.NumSplits + 1)) in
  let splitPosition :=
    F32.add (getBoundsMin axis)
            (F32.mul (F32.of_Z (split + 1)) splitSeparation) in
  let splitInfo :=
    BVH.evaluateSplit trianglesInBounds centersInBounds axis
      splitPosition in
  F32.add (BVH.leftCost splitInfo) (BVH.rightCost splitInfo).

(** No candidate plane is cheaper than [cost]. *)
Definition noCheaperCandidate (getBoundsSize getBoundsMin : Z -> float)
    (trianglesInBounds : list BVHData.Triangle)
    (centersInBounds : list Vec3) (cost : float) : Prop :=
  forall axis split, 0 <= axis <= 2 -> 0 <= split <= 4 ->
    F32.ltb (candidateCost getBoundsSize getBoundsMin trianglesInBounds
               centersInBounds axis split) cost = false.

(** No candidate plane for the whole slice is cheaper than the cost of
    the root. *)
Definition noCheaperRootCandidate (meshTriangles : list Mesh.Triangle)
    (startIdx count : Z) : Prop :=
  let tris := sliceTriangles meshTriangles startIdx count in
  let rootBounds := fold_left BVH.fitTriangle tris AABB.empty in
  noCheaperCandidate (AABB.getSize rootBounds) (AABB.getMin rootBounds)
    tris (map BVH.center tris)
    (F32.mul (F32.of_Z (Int.u32 count)) (AABB.halfArea rootBounds)).

(** A triangle that spans the box [x, x + 1] x [-1, 1] x [-1, 1], and a
    mesh of eight of them along the x-axis, at x = 10, 20, ..., 80. *)
Definition wedgeAt (x : Z) : Mesh.Triangle :=
  Mesh.mkTriangle (vz x (-1) (-1), vz (x + 1) 1 (-1), vz x 0 1)
    (vz 1 0 0, vz 1 0 0, vz 1 0 0)
    (mkVec2 F32.zero F32.zero, mkVec2 F32.zero F32.zero,
     mkVec2 F32.zero F32.zero).
Definition rowOfWedges : list Mesh.Triangle :=
  map (fun i => wedgeAt (10 * Z.of_nat i + 10)) (seq 0 8).

(** The worker's stack in [BVH::intersect] once the entry of the root has
    been pushed and popped. *)
Definition stackAfterRoot (bvh : BVHData.t) (ray : Ray)
  : option BVH.TraversalStack :=
  rootIntersection ← AABB.intersect (BVHData.rootBounds bvh) ray;
  Some (BVH.pop (BVH.push BVH.emptyStack
                   (BVH.mkStackInfo 0 rootIntersection))).

(** ** Paths: the connection types of the vertices *)




(** * Theorems *)

(** ** Machine integers *)

Lemma u64_small (z : Z) : 0 <= z < 2 ^ 64 -> Int.u64 z = z.
Proof. intros H. unfold Int.u64. apply Z.mod_small. exact H. Qed.

Lemma u32_small (z : Z) : 0 <= z < 2 ^ 32 -> Int.u32 z = z.
Proof. intros H. unfold Int.u32. apply Z.mod_small. exact H. Qed.

Lemma at_lookup {A} (v : list A) (i : Z) :
  0 <= i -> at_ v i = v !! Z.to_nat i.
Proof.
  intros H. unfold at_. destruct (0 <=? i) eqn:E; [reflexivity|lia].
Qed.

Lemma fold_left_inv {A B} (P : A -> Prop) (f : A -> B -> A) (l : list B) :
  forall a, P a -> (forall a b, P a -> P (f a b)) -> P (fold_left f l a).
Proof.
  induction l as [|b l IH]; intros a Ha Hstep; simpl; [exact Ha|].
  apply IH; [apply Hstep, Ha|exact Hstep].
Qed.

(** ** The PCG32 generator *)

Lemma u64_odd_mul (x : Z) :
  Z.odd x = true -> Z.odd (Int.u64 (x * PCG32.Multiplier)) = true.
Proof.
  intros Hx. unfold Int.u64.
  rewrite <- Z.bit0_odd in *.
  rewrite Z.mod_pow2_bits_low by lia.
  rewrite Z.bit0_odd in *. rewrite Z.odd_mul, Hx. reflexivity.
Qed.

Lemma draws_odd (n : nat) : forall g,
  Z.odd (PCG32.mcgState g) = true ->
  Z.odd (PCG32.mcgState (PCG32.draws n g)) = true.
Proof.
  induction n as [|n IH]; intros g Hg; simpl; [exact Hg|].
  apply IH. simpl. apply u64_odd_mul, Hg.
Qed.

(** C9: the PCG32 state is odd after seeding (with any seed) and after
    default construction, it stays odd after every number of draws, and
    the multiplier of the generator is odd. *)
Theorem pcg32_state_always_odd (seed : Z) (n : nat) :
  Z.odd (PCG32.mcgState (PCG32.draws n (PCG32.seeded seed))) = true /\
  Z.odd (PCG32.mcgState (PCG32.draws n PCG32.default)) = true /\
  Z.odd PCG32.Multiplier = true.
Proof.
  split; [|split].
  - apply draws_odd. simpl. rewrite <- Z.bit0_odd, Z.lor_spec.
    apply orb_true_r.
  - apply draws_odd. reflexivity.
  - reflexivity.
Qed.

(** ** The order of binary32 comparisons *)

Lemma ltb_true (a b : float) :
  SFltb a b = true <-> nanZ a = 0 /\ nanZ b = 0 /\ lt3 (key a) (key b).
Proof.
  unfold SFltb, lt3, nanZ.
  destruct a as [sa|sa| |sa ma ea], b as [sb|sb| |sb mb eb];
    try destruct sa; try destruct sb; simpl;
    try (split; [discriminate|intros (? & ? & ?); try discriminate; lia]);
    try (split; [intros _; repeat split; lia|reflexivity]).
  - rewrite Pos.compare_cont_spec. simpl.
    destruct (Z.compare_spec ea eb), (Pos.compare_spec ma mb); simpl;
      (split; [try discriminate; intros _; repeat split; lia
              |intros (_ & _ & ?); try reflexivity; lia]).
  - rewrite Pos.compare_cont_spec. simpl.
    destruct (Z.compare_spec ea eb), (Pos.compare_spec ma mb); simpl;
      (split; [try discriminate; intros _; repeat split; lia
              |intros (_ & _ & ?); try reflexivity; lia]).
Qed.

Lemma ltb_false (a b : float) :
  SFltb a b = false <->
  nanZ a = 1 \/ nanZ b = 1 \/ ~ lt3 (key a) (key b).
Proof.
  destruct (SFltb a b) eqn:E.
  - apply ltb_true in E. destruct E as (Ha & Hb & Hlt).
    split; [discriminate|]. intros [H|[H|H]]; [lia|lia|contradiction].
  - split; [intros _|reflexivity].
    destruct (isNaN a) eqn:Ha; [unfold nanZ; rewrite Ha; auto|].
    destruct (isNaN b) eqn:Hb; [unfold nanZ; rewrite Hb; auto|].
    right; right. intros Hlt.
    assert (SFltb a b = true)
      by (apply ltb_true; unfold nanZ; rewrite Ha, Hb; auto).
    congruence.
Qed.

(** Turn every comparison in sight into integer facts about keys and let
    [lia] decide. *)
Ltac float_order :=
  unfold F32.gtb, F32.ltb in *;
  repeat match goal with
  | H : SFltb _ _ = true |- _ => apply ltb_true in H
  | H : SFltb _ _ = false |- _ => apply ltb_false in H
  | |- SFltb _ _ = true => apply ltb_true
  | |- SFltb _ _ = false => apply ltb_false
  end;
  unfold lt3 in *;
  repeat match goal with
  | H : context [key ?x] |- _ =>
      let c := fresh "c" in let e := fresh "e" in let m := fresh "m" in
      destruct (key x) as [[c e] m]
  | |- context [key ?x] =>
      let c := fresh "c" in let e := fresh "e" in let m := fresh "m" in
      destruct (key x) as [[c e] m]
  end;
  repeat match goal with
  | H : context [nanZ ?x] |- _ => generalize dependent (nanZ x); intros
  | |- context [nanZ ?x] => generalize dependent (nanZ x); intros
  end;
  simpl in *; lia.

Lemma ltb_irrefl (a : float) : F32.ltb a a = false.
Proof. float_order. Qed.

Lemma ltb_trans (a b c : float) :
  F32.ltb a b = true -> F32.ltb b c = true -> F32.ltb a c = true.
Proof. intros H1 H2. float_order. Qed.

Lemma ltb_asym (a b : float) : F32.ltb a b = true -> F32.ltb b a = false.
Proof. intros H. float_order. Qed.

(** A number that is below some number is comparable with every number
    that is not NaN. *)
Lemma ltb_negtrans (a b c : float) :
  F32.ltb a c = true -> F32.ltb a b = false -> F32.ltb b c = false ->
  nanZ b = 1.
Proof. intros H1 H2 H3. float_order. Qed.

(** ** AABB: fitting and the slab test *)

Lemma fitAxis_new (mn mx v : float) :
  insideAxis (if F32.gtb mn v then v else mn)
             (if F32.ltb mx v then v else mx) v.
Proof.
  unfold insideAxis.
  destruct (F32.gtb mn v) eqn:E1, (F32.ltb mx v) eqn:E2;
    repeat split; float_order.
Qed.

Lemma fitAxis_old (mn mx v p : float) :
  insideAxis mn mx p ->
  insideAxis (if F32.gtb mn v then v else mn)
             (if F32.ltb mx v then v else mx) p.
Proof.
  unfold insideAxis. intros [H1 H2].
  destruct (F32.gtb mn v) eqn:E1, (F32.ltb mx v) eqn:E2;
    repeat split; float_order.
Qed.

Lemma fit_inside_new (b : AABB.t) (v : Vec3) : inside (AABB.fit b v) v.
Proof.
  unfold inside, AABB.fit; simpl. split; [|split]; apply fitAxis_new.
Qed.

Lemma fit_inside_old (b : AABB.t) (v p : Vec3) :
  inside b p -> inside (AABB.fit b v) p.
Proof.
  unfold inside, AABB.fit; simpl. intros (Hx & Hy & Hz).
  split; [|split]; apply fitAxis_old; assumption.
Qed.

Lemma fold_fit_inside (pts : list Vec3) : forall (b : AABB.t) (p : Vec3),
  inside b p \/ In p pts -> inside (fold_left AABB.fit pts b) p.
Proof.
  induction pts as [|v pts IH]; intros b p H; simpl.
  - destruct H as [H|[]]. exact H.
  - apply IH. destruct H as [H|[->|H]].
    + left. apply fit_inside_old, H.
    + left. apply fit_inside_new.
    + right. exact H.
Qed.


(** The ray from the center of the cube runs through the fitted point
    (2, 1, 1) at parameter 1, and the slab test answers with the entry
    value -1: a hit, but not at a non-negative distance. *)
Lemma aabb_hit_behind_origin :
  let b := fold_left AABB.fit cubePoints AABB.empty in
  In (vz 2 1 1) cubePoints /\
  V3.add (ray_o rayFromCenter) (V3.scale (ray_d rayFromCenter) F32.one)
    = vz 2 1 1 /\
  AABB.intersect b rayFromCenter = Some (zf (-1)) /\
  F32.leb F32.zero (zf (-1)) = false.
Proof.
  split; [right; right; left; reflexivity|].
  split; [vm_compute; reflexivity|].
  split; vm_compute; reflexivity.
Qed.

(** In binary32 the three slab values of a point box need not agree: the
    ray that meets [farPoint] at [t = 2^24 + 1] misses the box fitted to
    that point alone. *)
Lemma aabb_miss_by_rounding :
  (-1 + (2 ^ 24 + 1) * 1 = 2 ^ 24 /\ -3 + (2 ^ 24 + 1) * 3 = 3 * 2 ^ 24) /\
  AABB.intersect (AABB.fit AABB.empty farPoint) rayToFarPoint = None.
Proof. split; [lia|vm_compute; reflexivity]. Qed.

(** ** BVH construction *)

Section Construction.
Import BVHData.

(** The counting loop of [evaluateSplit]: [numLeft] counts the triangles
    that went left, and a side that received nothing keeps its box. *)
Lemma growSplit_fold (axis : Z) (pos : float)
    (tcs : list (BVHData.Triangle * Vec3)) :
  forall (l r : AABB.t) (n : Z),
  0 <= n -> n + Z.of_nat (length tcs) < 2 ^ 64 ->
  exists l' r' n',
    fold_left (BVH.growSplit axis pos) tcs (l, r, n) = (l', r', n')
    /\ n <= n' <= n + Z.of_nat (length tcs)
    /\ (n' = n -> l' = l)
    /\ (n' = n + Z.of_nat (length tcs) -> r' = r).
Proof.
  induction tcs as [|tc tcs IH]; intros l r n Hn Hmax.
  - exists l, r, n. simpl. split; [reflexivity|].
    split; [lia|]. split; intros _; reflexivity.
  - cbn [fold_left length] in *. unfold BVH.growSplit at 2.
    destruct (F32.ltb (V3.get (snd tc) axis) pos).
    + rewrite u64_small by lia.
      destruct (IH (BVH.fitTriangle l (fst tc)) r (n + 1))
        as (l' & r' & n' & -> & Hr & Hl & Hrr); [lia|lia|].
      exists l', r', n'. split; [reflexivity|].
      split; [lia|]. split; [lia|]. intros H. apply Hrr. lia.
    + destruct (IH l (BVH.fitTriangle r (fst tc)) n)
        as (l' & r' & n' & -> & Hr & Hl & Hrr); [lia|lia|].
      exists l', r', n'. split; [reflexivity|].
      split; [lia|]. split; [exact Hl|]. lia.
Qed.

Lemma emptyCost_nan :
  F32.mul (F32.of_Z 0) (AABB.halfArea AABB.empty) = S754_nan.
Proof. reflexivity. Qed.

Lemma add_nan_l (x : float) : F32.add S754_nan x = S754_nan.
Proof. reflexivity. Qed.

Lemma add_nan_r (x : float) : F32.add x S754_nan = S754_nan.
Proof. destruct x; reflexivity. Qed.

(** A candidate with an empty side costs NaN, and NaN beats no cost. *)
Lemma evaluateSplit_chosen (tris : list BVHData.Triangle)
    (centers : list Vec3) (axis : Z) (pos best : float) :
  length centers = length tris ->
  Z.of_nat (length tris) < 2 ^ 63 ->
  let s := BVH.evaluateSplit tris centers axis pos in
  F32.ltb (F32.add (BVH.leftCost s) (BVH.rightCost s)) best = true ->
  properSplit (Z.of_nat (length tris)) s.
Proof.
  intros Hlen Hmax s. subst s. unfold BVH.evaluateSplit.
  destruct (growSplit_fold axis pos (combine tris centers)
              AABB.empty AABB.empty 0) as (l & r & n & -> & Hn & Hl & Hr).
  { lia. }
  { rewrite length_combine. lia. }
  rewrite length_combine, Hlen, Nat.min_id in Hn, Hr.
  cbn [BVH.leftCost BVH.rightCost BVH.numLeft BVH.numRight properSplit].
  rewrite u64_small by lia. simpl in Hn, Hl, Hr.
  intros Hcost. unfold properSplit; simpl.
  destruct (Z.eq_dec n 0) as [E|E].
  { rewrite Hl in Hcost by exact E. rewrite E, emptyCost_nan in Hcost.
    discriminate. }
  destruct (Z.eq_dec n (Z.of_nat (length tris))) as [E'|E'].
  { rewrite Hr in Hcost by exact E'. rewrite E', Z.sub_diag in Hcost.
    rewrite emptyCost_nan, add_nan_r in Hcost. discriminate. }
  lia.
Qed.

Lemma searchSplit_proper (gs gm : Z -> float) (tris : list BVHData.Triangle)
    (centers : list Vec3) (best : float) :
  length centers = length tris ->
  Z.of_nat (length tris) < 2 ^ 63 ->
  properOpt (Z.of_nat (length tris))
    (BVH.searchSplit gs gm tris centers best).
Proof.
  intros Hlen Hmax. unfold BVH.searchSplit.
  apply (fold_left_inv
           (fun acc => properOpt (Z.of_nat (length tris)) (snd acc))).
  - exact I.
  - intros acc axis Hacc.
    apply (fold_left_inv
             (fun acc => properOpt (Z.of_nat (length tris)) (snd acc)));
      [exact Hacc|].
    intros acc' split Hacc'. unfold BVH.tryCandidate.
    match goal with |- context [F32.ltb ?c ?b] =>
      destruct (F32.ltb c b) eqn:Hc end; [|exact Hacc'].
    simpl. eapply evaluateSplit_chosen; eassumption.
Qed.

Lemma swap_length {A} (v : list A) (i j : nat) :
  length (BVH.swap v i j) = length v.
Proof.
  unfold BVH.swap. destruct (v !! i), (v !! j); try reflexivity.
  rewrite !length_insert. reflexivity.
Qed.

Lemma partitionStep_lengths (axis : Z) (pos : float)
    (acc : list BVHData.Triangle * list Vec3 * nat) (i : nat) :
  length (fst (fst (BVH.partitionStep axis pos acc i)))
    = length (fst (fst acc)) /\
  length (snd (fst (BVH.partitionStep axis pos acc i)))
    = length (snd (fst acc)).
Proof.
  destruct acc as [[tris centers] k]. unfold BVH.partitionStep.
  destruct (centers !! i) as [c|]; [|split; reflexivity].
  destruct (F32.ltb (V3.get c axis) pos); [|split; reflexivity].
  simpl. rewrite !swap_length. split; reflexivity.
Qed.

Lemma partition_lengths (axis : Z) (pos : float) (idxs : list nat)
    (acc : list BVHData.Triangle * list Vec3 * nat) :
  length (fst (fst (fold_left (BVH.partitionStep axis pos) idxs acc)))
    = length (fst (fst acc)) /\
  length (snd (fst (fold_left (BVH.partitionStep axis pos) idxs acc)))
    = length (snd (fst acc)).
Proof.
  apply (fold_left_inv
           (fun a => length (fst (fst a)) = length (fst (fst acc)) /\
                     length (snd (fst a)) = length (snd (fst acc)))).
  - split; reflexivity.
  - intros a i [H1 H2].
    destruct (partitionStep_lengths axis pos a i) as [E1 E2].
    rewrite E1, E2. split; assumption.
Qed.

(** [trySplitAndPartition] keeps both vectors' sizes, and a split it
    returns is proper for the range it was given. *)
Lemma trySplitAndPartition_spec (gs gm : Z -> float) (first n : Z)
    (tris : list BVHData.Triangle) (centers : list Vec3) (best : float)
    (C : Z) :
  Z.of_nat (length tris) = C -> Z.of_nat (length centers) = C ->
  C < 2 ^ 63 -> 0 <= first -> 0 <= n -> first + n <= C ->
  let r := BVH.trySplitAndPartition gs gm first n tris centers best in
  Z.of_nat (length (snd (fst r))) = C /\ Z.of_nat (length (snd r)) = C /\
  properOpt n (fst (fst r)).
Proof.
  intros Ht Hc HC Hfirst Hn Hle. unfold BVH.trySplitAndPartition.
  set (tin := take (Z.to_nat n) (drop (Z.to_nat first) tris)).
  set (cin := take (Z.to_nat n) (drop (Z.to_nat first) centers)).
  assert (Htin : length tin = Z.to_nat n)
    by (unfold tin; rewrite length_take, length_drop; lia).
  assert (Hcin : length cin = Z.to_nat n)
    by (unfold cin; rewrite length_take, length_drop; lia).
  pose proof (searchSplit_proper gs gm tin cin best) as Hs.
  rewrite Htin in Hs. rewrite Z2Nat.id in Hs by lia.
  specialize (Hs Hcin ltac:(lia)).
  destruct (BVH.searchSplit gs gm tin cin best) as [s|]; simpl.
  - pose proof (partition_lengths (BVH.axis s) (BVH.position s)
                  (seq 0 (length tin)) (tin, cin, 0%nat)) as Hp.
    destruct (fold_left _ (seq 0 (length tin)) (tin, cin, 0%nat))
      as [[tris' centers'] k]. simpl in Hp. destruct Hp as [Hp1 Hp2].
    simpl. rewrite !length_app, !length_take, !length_drop, Hp1, Hp2.
    split; [lia|]. split; [lia|exact Hs].
  - split; [exact Ht|]. split; [exact Hc|exact I].
Qed.

Lemma nodeOK_mono (C : Z) (len len' : nat) (nd : Node) :
  (len <= len')%nat -> nodeOK C len nd -> nodeOK C len' nd.
Proof. unfold nodeOK. intros Hle (H1 & H2 & H3 & H4). repeat split; try lia; apply H3 in H; lia. Qed.


Lemma splitPost_same_nodes (C nodeIdx n : Z) (st : BVH.Build)
    (tris : list Triangle) (centers : list Vec3) :
  buildOK C st -> 1 <= n ->
  Z.of_nat (length tris) = C -> Z.of_nat (length centers) = C ->
  splitPost C nodeIdx n st (BVH.mkBuild tris centers (BVH.b_nodes st)).
Proof.
  intros (_ & _ & Hn) Hn1 Ht Hc. unfold splitPost, buildOK; simpl.
  repeat split; try assumption; try lia.
Qed.

Section Split.
Variable C : Z.
Hypothesis C_range : 1 <= C < 2 ^ 31.
Variable rootBounds : AABB.t.

End Split.


End Construction.

(** ** BVH traversal: the order in which hit children are pushed *)

Lemma closerLane_step (hit : AABB4.HitInfo) (k : Z) (acc : option Z * float) :
  0 <= k -> closestSoFar hit k acc ->
  closestSoFar hit (k + 1) (BVH.closerLane hit acc k).
Proof.
  intros Hk0. unfold closestSoFar, BVH.closerLane.
  destruct acc as [[b|] d]; simpl.
  - intros (Hb & -> & Hab & Hall). fold (laneDist hit k).
    unfold avail in *.
    destruct (V4.bget (AABB4.isHit hit) k) eqn:Hk; simpl.
    + destruct (F32.ltb (laneDist hit k) (laneDist hit b)) eqn:Hlt; simpl.
      * apply andb_prop in Hab. destruct Hab as [_ Hbinf].
        split; [lia|]. split; [reflexivity|]. split.
        { rewrite Hk. simpl. float_order. }
        intros i Hi Hai. apply andb_prop in Hai. destruct Hai as [Hhi Hiinf].
        destruct (Z.eq_dec i k) as [->|Hne].
        { split; [float_order|lia]. }
        destruct (Hall i ltac:(lia)) as [H1 H2];
          [rewrite Hhi, Hiinf; reflexivity|].
        split; [destruct (F32.ltb (laneDist hit i) (laneDist hit k)) eqn:E;
                [float_order|reflexivity]|].
        intros _.
        destruct (F32.ltb (laneDist hit k) (laneDist hit i)) eqn:E;
          [reflexivity|float_order].
      * split; [lia|]. split; [reflexivity|]. split; [exact Hab|].
        intros i Hi Hai. destruct (Z.eq_dec i k) as [->|Hne].
        { split; [exact Hlt|lia]. }
        apply Hall; [lia|exact Hai].
    + split; [lia|]. split; [reflexivity|]. split; [exact Hab|].
      intros i Hi Hai. destruct (Z.eq_dec i k) as [->|Hne].
      { rewrite Hk in Hai. discriminate. }
      apply Hall; [lia|exact Hai].
  - intros (-> & Hall). fold (laneDist hit k).
    destruct (V4.bget (AABB4.isHit hit) k
              && F32.ltb (laneDist hit k) F32.infinity) eqn:Hk; simpl.
    + split; [lia|]. split; [reflexivity|]. split; [exact Hk|].
      intros i Hi Hai. destruct (Z.eq_dec i k) as [->|Hne].
      { split; [apply ltb_irrefl|lia]. }
      rewrite Hall in Hai by lia. discriminate.
    + split; [reflexivity|]. intros i Hi.
      destruct (Z.eq_dec i k) as [->|Hne]; [exact Hk|]. apply Hall. lia.
Qed.

Lemma nextClosest_spec (hit : AABB4.HitInfo) :
  closestSoFar hit 4 (BVH.nextClosest hit).
Proof.
  unfold BVH.nextClosest. simpl.
  apply (closerLane_step hit 3); [lia|].
  apply (closerLane_step hit 2); [lia|].
  apply (closerLane_step hit 1); [lia|].
  apply (closerLane_step hit 0); [lia|].
  split; [reflexivity|]. intros i Hi. lia.
Qed.

Lemma lane_cases (i : Z) : 0 <= i <= 3 -> i = 0 \/ i = 1 \/ i = 2 \/ i = 3.
Proof. lia. Qed.

Lemma avail_clearLane (hit : AABB4.HitInfo) (b i : Z) :
  0 <= b <= 3 -> 0 <= i <= 3 ->
  avail (clearLane hit b) i = avail hit i && negb (i =? b).
Proof.
  intros Hb Hi. unfold avail, clearLane, laneDist. simpl.
  destruct hit as [[h0 h1 h2 h3] d]. simpl.
  destruct (lane_cases b Hb) as [-> | [-> | [-> | ->]]],
           (lane_cases i Hi) as [-> | [-> | [-> | ->]]]; simpl;
    rewrite ?andb_true_r, ?andb_false_r; reflexivity.
Qed.

Lemma countAvail_clearLane (hit : AABB4.HitInfo) (b : Z) :
  0 <= b <= 3 -> avail hit b = true ->
  countAvail hit = S (countAvail (clearLane hit b)).
Proof.
  intros Hb Hab. unfold countAvail.
  assert (H : forall i, 0 <= i <= 3 ->
            avail (clearLane hit b) i = avail hit i && negb (i =? b))
    by (intros; apply avail_clearLane; assumption).
  cbn [filter list_filter].
  repeat match goal with
  | |- context [decide_rel _ ?x ?y] => unfold decide_rel
  end.
  rewrite !H by lia.
  destruct (lane_cases b Hb) as [-> | [-> | [-> | ->]]]; simpl; rewrite Hab;
    destruct (avail hit 0), (avail hit 1), (avail hit 2), (avail hit 3);
    try discriminate; reflexivity.
Qed.

Lemma push_contents (room : Z) (s : BVH.TraversalStack) (e : BVH.StackInfo) :
  0 <= room -> stackOK (room + 1) s ->
  contents (BVH.push s e) = contents s ++ [e] /\ stackOK room (BVH.push s e).
Proof.
  unfold stackOK, contents, BVH.push. intros Hroom [Hsz Hmax]. simpl.
  assert (Hu : Int.u64 (BVH._size s + 1) = BVH._size s + 1)
    by (unfold Int.u64; apply Z.mod_small; lia).
  rewrite Hu.
  replace (Z.to_nat (BVH._size s + 1)) with (S (Z.to_nat (BVH._size s)))
    by lia.
  destruct (BVH._size s <? Z.of_nat (length (BVH._data s))) eqn:E.
  - apply Z.ltb_lt in E. split.
    + rewrite (take_S_r _ _ e)
        by (apply list_lookup_insert_eq; lia).
      rewrite take_insert_ge by lia. reflexivity.
    + rewrite length_insert. lia.
  - apply Z.ltb_ge in E.
    assert (Hn : Z.to_nat (BVH._size s) = length (BVH._data s)) by lia.
    split.
    + rewrite Hn, take_ge by (rewrite length_app; simpl; lia).
      rewrite take_ge by lia. reflexivity.
    + rewrite length_app. simpl. lia.
Qed.

Lemma pushHits_spec (node : BVHData.Node) (n : nat) :
  forall (hit : AABB4.HitInfo) (stack : BVH.TraversalStack),
  stackOK (Z.of_nat n) stack ->
  exists lanes : list Z,
    contents (BVH.pushHits n node hit stack)
      = contents stack ++ map (entry node hit) lanes
    /\ StronglySorted (nearerFirst hit) lanes
    /\ NoDup lanes
    /\ Forall (fun l => 0 <= l <= 3 /\ avail hit l = true) lanes
    /\ ((countAvail hit <= n)%nat ->
        forall l, 0 <= l <= 3 -> avail hit l = true -> In l lanes).
Proof.
  induction n as [|n IH]; intros hit stack Hok.
  - exists []. simpl. rewrite app_nil_r.
    split; [reflexivity|]. split; [constructor|]. split; [constructor|].
    split; [constructor|].
    intros Hc l Hl Hal. exfalso. unfold countAvail in Hc.
    assert (Hin : l ∈ filter (fun i => avail hit i = true) [0; 1; 2; 3]).
    { apply list_elem_of_filter. split; [exact Hal|].
      destruct (lane_cases l Hl) as [-> | [-> | [-> | ->]]];
        repeat (constructor || apply list_elem_of_further). }
    destruct (filter _ _); [inversion Hin|simpl in Hc; lia].
  - simpl. pose proof (nextClosest_spec hit) as Hspec.
    unfold closestSoFar in Hspec.
    destruct (BVH.nextClosest hit) as [[b|] d]; simpl in Hspec.
    + destruct Hspec as (Hb & -> & Hab & Hall).
      destruct (push_contents (Z.of_nat n) stack
                  (BVH.mkStackInfo (Int.u32 (BVHData.idx node + b))
                     (laneDist hit b)))
        as [Hpush Hok']; [lia|replace (Z.of_nat n + 1) with (Z.of_nat (S n)) by lia; exact Hok|].
      destruct (IH (clearLane hit b) _ Hok')
        as (lanes & Hc & Hsorted & Hnd & Hfa & Hcomplete).
      assert (Hfa' : Forall (fun l => 0 <= l <= 3 /\ avail hit l = true
                                      /\ l <> b) lanes).
      { eapply Forall_impl; [exact Hfa|]. simpl. intros l [Hl Hal].
        rewrite avail_clearLane in Hal by lia.
        apply andb_prop in Hal. destruct Hal as [Hal Hne].
        split; [exact Hl|]. split; [exact Hal|].
        apply negb_true_iff, Z.eqb_neq in Hne. exact Hne. }
      exists (b :: lanes).
      split; [|split; [|split; [|split]]].
      * unfold BVH.pushHits in Hc |- *. fold BVH.pushHits in Hc |- *.
        unfold clearLane in Hc. rewrite Hc, Hpush, <- app_assoc. reflexivity.
      * constructor; [exact Hsorted|].
        eapply Forall_impl; [exact Hfa'|]. simpl.
        intros l (Hl & Hal & Hne).
        destruct (Hall l ltac:(lia) Hal) as [H1 H2].
        split; [exact H1|].
        intros Hnlt. destruct (Z.lt_ge_cases l b) as [Hlt|Hge]; [|lia].
        rewrite (H2 Hlt) in Hnlt. discriminate.
      * constructor; [|exact Hnd].
        intros Hin. apply list_elem_of_In in Hin.
        rewrite Forall_forall in Hfa'.
        destruct (Hfa' b) as (_ & _ & Hne); [apply list_elem_of_In; exact Hin|].
        congruence.
      * constructor; [split; [lia|exact Hab]|].
        eapply Forall_impl; [exact Hfa'|]. simpl. tauto.
      * intros Hcount l Hl Hal.
        destruct (Z.eq_dec l b) as [->|Hne]; [left; reflexivity|].
        right. apply Hcomplete; [|exact Hl|].
        { rewrite (countAvail_clearLane hit b) in Hcount by (lia || exact Hab).
          lia. }
        rewrite avail_clearLane by lia. rewrite Hal. simpl.
        apply negb_true_iff, Z.eqb_neq. exact Hne.
    + destruct Hspec as [_ Hnone]. exists []. simpl. rewrite app_nil_r.
      split; [reflexivity|]. split; [constructor|]. split; [constructor|].
      split; [constructor|].
      intros _ l Hl Hal. rewrite Hnone in Hal by lia. discriminate.
Qed.

(** The order of the pushes: on a stack with room for four more entries,
    the internal-node branch of [BVH::intersect] pushes exactly the
    children whose box test reports a hit at a near-distance below plus
    infinity, in near-to-far order of their near-distances, equal
    distances in increasing lane order. *)
Theorem hit_children_pushed_near_to_far (node : BVHData.Node) (ray : Ray)
    (stack : BVH.TraversalStack) :
  stackOK 4 stack -> pushedNearToFar node ray stack.
Proof.
  intros Hok. unfold pushedNearToFar.
  set (hit := AABB4.intersect (BVHData.childBounds node) ray).
  unfold BVH.pushHitChildren. fold hit.
  destruct (pushHits_spec node 4 hit stack Hok)
    as (lanes & Hc & Hsorted & Hnd & Hfa & Hcomplete).
  exists lanes. split; [exact Hc|]. split; [exact Hsorted|].
  split; [exact Hnd|]. intros l. split.
  - intros Hin. rewrite Forall_forall in Hfa. apply Hfa.
    apply list_elem_of_In. exact Hin.
  - intros [Hl Hal]. apply Hcomplete; [|exact Hl|exact Hal].
    unfold countAvail. cbn [filter list_filter].
    repeat destruct (decide _); simpl; lia.
Qed.

(** ** Paths: the length of sampled paths *)

Lemma append_ok (lo : Z) (p : Path.t) (v : Vertex) :
  0 <= lo -> pathOK lo p -> Path._pathLength p < MaxLength ->
  exists p', Path.append p v = Some p'
    /\ pathOK 1 p' /\ Path._pathLength p' = Path._pathLength p + 1.
Proof.
  unfold pathOK, MaxLength. intros Hlo [Hlen Hrange] Hlt.
  unfold Path.append.
  destruct (decide _) as [_|Hn]; [|exfalso; apply Hn; lia].
  eexists; split; [reflexivity|]. simpl.
  rewrite length_insert, u64_small by lia. lia.
Qed.

Lemma setLastBounceType_ok (p : Path.t) (b : BounceType) :
  pathOK 1 p ->
  exists p', Path.setLastBounceType p b = Some p'
    /\ pathOK 1 p' /\ Path._pathLength p' = Path._pathLength p.
Proof.
  unfold pathOK, MaxLength. intros [Hlen Hrange].
  unfold Path.setLastBounceType, Path.last, Path.vertex.
  rewrite u64_small by lia.
  destruct (0 <=? Path._pathLength p - 1) eqn:E; [|lia].
  destruct (lookup_lt_is_Some_2 (Path._path p)
              (Z.to_nat (Path._pathLength p - 1))) as [v Hv]; [lia|].
  rewrite Hv. simpl. eexists; split; [reflexivity|]. simpl.
  rewrite length_insert. lia.
Qed.

Section EyePath.
Variable sceneIntersect :
  Scene.t -> Ray -> float -> float -> option Scene.HitInfo.
Variable sampleDirection :
  MaterialData -> Vec3 -> Vertex -> PCG32.Generator ->
  (Ray * BounceType) * PCG32.Generator.
Variable generate_canonical : PCG32.Generator -> float * PCG32.Generator.
Variable scene : Scene.t.
Hypothesis hit_material :
  forall ray a b hit,
    sceneIntersect scene ray a b = Some hit ->
    is_Some (Scene.getMaterial scene (Scene.materialIdx hit)).

Lemma addBounce_ok (p : Path.t) (ray : Ray) (q : option float)
    (g : PCG32.Generator) :
  pathOK 1 p -> Path._pathLength p < MaxLength ->
  exists r p' g',
    addBounce sceneIntersect sampleDirection generate_canonical
      p scene ray q g = Some (r, p', g')
    /\ pathOK 1 p'
    /\ (r = None -> Path._pathLength p <= Path._pathLength p')
    /\ (r <> None -> Path._pathLength p' = Path._pathLength p + 1).
Proof.
  intros Hok Hlt. unfold addBounce.
  destruct (sceneIntersect scene ray F32.zero FLT_MAX) as [hit|] eqn:Hhit.
  - destruct (hit_material _ _ _ _ Hhit) as [material ->]. simpl.
    match goal with |- context [Path.append p ?v] =>
      destruct (append_ok 1 p v ltac:(lia) Hok Hlt)
        as (p1 & -> & Hok1 & Hlen1) end.
    simpl.
    assert (Hstop : forall (stop : bool) (g1 : PCG32.Generator),
      exists r p' g',
        (if stop then Some (None, p1, g1)
         else
           Path.last p1 ≫= λ v : Vertex,
             let '(newRay, bounce, g2) :=
               sampleDirection material (V3.neg (ray_d ray)) v g1 in
             Path.setLastBounceType p1 bounce ≫= λ p2 : Path.t,
               Some (Some newRay, p2, g2))
        = Some (r, p', g')
        /\ pathOK 1 p'
        /\ (r = None -> Path._pathLength p <= Path._pathLength p')
        /\ (r <> None -> Path._pathLength p' = Path._pathLength p + 1)).
    { intros [] g1.
      - exists None, p1, g1. repeat split; [exact (proj1 Hok1)| | |lia|congruence];
          destruct Hok1; lia.
      - assert (Hlast : is_Some (Path.last p1)).
        { destruct (setLastBounceType_ok p1 BounceNone Hok1)
            as (p2 & H2 & _).
          unfold Path.setLastBounceType in H2.
          destruct (Path.last p1); [eauto|discriminate]. }
        destruct Hlast as [v ->]. simpl.
        destruct (sampleDirection material (V3.neg (ray_d ray)) v g1)
          as [[newRay bounce] g2].
        destruct (setLastBounceType_ok p1 bounce Hok1)
          as (p2 & -> & Hok2 & Hlen2).
        simpl. exists (Some newRay), p2, g2.
        repeat split; [exact (proj1 Hok2)| | |lia|lia];
          destruct Hok2; lia. }
    destruct q as [q|].
    + destruct (rand generate_canonical g) as [u g1].
      exact (Hstop (F32.ltb u q) g1).
    + exact (Hstop false g).
  - exists None, p, g. repeat split; [exact (proj1 Hok)| | |lia|congruence];
      destruct Hok; lia.
Qed.

Lemma eyePathLoop_ok (fuel : nat) : forall (p : Path.t) (ray : Ray)
    (g : PCG32.Generator),
  pathOK 1 p -> MaxLength - Path._pathLength p <= Z.of_nat fuel ->
  exists p' g',
    eyePathLoop sceneIntersect sampleDirection generate_canonical
      fuel p scene ray g = Some (p', g')
    /\ pathOK 1 p'.
Proof.
  induction fuel as [|fuel IH]; intros p ray g Hok Hfuel; simpl.
  - destruct (Path._pathLength p <? MaxLength) eqn:E; [lia|]. eauto.
  - destruct (Path._pathLength p <? MaxLength) eqn:E; [|eauto].
    apply Z.ltb_lt in E.
    destruct (addBounce_ok p ray (Some TerminationProbability) g Hok E)
      as (r & p1 & g1 & -> & Hok1 & _ & Hlen).
    simpl. destruct r as [ray1|]; [|eauto].
    apply IH; [exact Hok1|]. rewrite Hlen by congruence. lia.
Qed.

Lemma createRandomEyePath_ok (ray : Ray) (g : PCG32.Generator) :
  exists p g',
    createRandomEyePath sceneIntersect sampleDirection generate_canonical
      scene ray g = Some (p, g')
    /\ 1 <= Path.length p <= MaxLength.
Proof.
  unfold createRandomEyePath.
  match goal with |- context [eyePathLoop _ _ _ ?f ?p _ _ _] =>
    destruct (eyePathLoop_ok f p ray g) as (p' & g' & H & Hok) end.
  - split; [reflexivity|]. simpl. unfold MaxLength. lia.
  - simpl. unfold MaxLength. lia.
  - exists p', g'. split; [exact H|]. apply Hok.
Qed.
End EyePath.

Lemma createRandomLightPath_ok gc dd (scene : Scene.t) (g : PCG32.Generator) :
  (forall i g', 0 <= i < Z.of_nat (length (Scene.lights scene)) ->
     is_Some (chooseRandomVertexOnLight gc dd scene i g')) ->
  exists p g',
    createRandomLightPath gc dd scene g = Some (p, g')
    /\ Path.length p = match Scene.lights scene with [] => 0 | _ => 1 end.
Proof.
  intros Hlights. unfold createRandomLightPath.
  destruct (Scene.lights scene) as [|l ls] eqn:El.
  - eauto.
  - destruct (pcg32_fast g) as [r g1].
    destruct (Hlights (r mod Z.of_nat (length (l :: ls))) g1) as [[v g2] ->].
    { apply Z.mod_pos_bound. simpl. lia. }
    destruct (append_ok 0 Path.empty v) as (p & Hp & _ & Hlen).
    + lia.
    + split; [reflexivity|]. simpl. unfold MaxLength. lia.
    + simpl. unfold MaxLength. lia.
    + cbn [mbind option_bind]. rewrite Hp. cbn [mbind option_bind]. eauto.
Qed.

(** C5, as amended: when the scene query only reports materials of the
    scene and every light of the scene can be sampled, an eye path has
    between 1 and [MaxLength] = 10 vertices, and a light path has exactly
    one vertex in a scene with lights and none in a scene without. *)
Theorem sampled_path_lengths si sd gc dd (scene : Scene.t) (ray : Ray)
    (g : PCG32.Generator) :
  (forall r a b hit,
     si scene r a b = Some hit ->
     is_Some (Scene.getMaterial scene (Scene.materialIdx hit))) ->
  (forall i g', 0 <= i < Z.of_nat (length (Scene.lights scene)) ->
     is_Some (chooseRandomVertexOnLight gc dd scene i g')) ->
  sampledLengths si sd gc dd scene ray g.
Proof.
  intros Hmat Hlights. split.
  - apply createRandomEyePath_ok. exact Hmat.
  - apply createRandomLightPath_ok. exact Hlights.
Qed.

(** ** MLT: histogram writes *)

Lemma clamp_range (v hi : Z) : 0 <= hi -> 0 <= MLT.clamp v 0 hi <= hi.
Proof.
  intros Hhi. unfold MLT.clamp.
  destruct (v <? 0) eqn:E1; [lia|].
  destruct (hi <? v) eqn:E2; lia.
Qed.

Lemma i32_extent (w : Z) :
  1 <= w <= Int.INT_MAX -> Int.i32 (Int.u64 (w - 1)) = w - 1.
Proof.
  unfold Int.INT_MAX, Int.i32, Int.u64. intros H.
  rewrite (Z.mod_small (w - 1)) by lia.
  rewrite Z.mod_small by lia. lia.
Qed.

Lemma clampPixel_range (w h : Z) (img : Image.t) (pixel : Vec2) :
  1 <= w <= Int.INT_MAX -> 1 <= h <= Int.INT_MAX -> bufferOK w h img ->
  0 <= fst (MLT.clampPixel pixel img) <= w - 1 /\
  0 <= snd (MLT.clampPixel pixel img) <= h - 1.
Proof.
  intros Hw Hh (Ew & Eh & _). unfold MLT.clampPixel. simpl.
  rewrite Ew, Eh, !i32_extent by assumption.
  split; apply clamp_range; lia.
Qed.

Lemma offset_in_buffer (w h : Z) (img : Image.t) (x y : Z) :
  1 <= w <= Int.INT_MAX -> 1 <= h <= Int.INT_MAX -> bufferOK w h img ->
  0 <= x <= w - 1 -> 0 <= y <= h - 1 ->
  Image.offset img x y = (x + y * w) * 3 /\
  (S (S (Z.to_nat (Image.offset img x y))) < length (Image._pixels img))%nat.
Proof.
  unfold Int.INT_MAX. intros Hw Hh (Ew & Eh & Ec & El) Hx Hy.
  assert (Hoff : Image.offset img x y = (x + y * w) * 3).
  { unfold Image.offset, Int.u64. rewrite Ew, Ec.
    rewrite (Z.mod_small (y * w)) by nia.
    rewrite (Z.mod_small (x + y * w)) by nia.
    rewrite (Z.mod_small 3) by lia.
    apply Z.mod_small. nia. }
  split; [exact Hoff|]. rewrite Hoff. nia.
Qed.

Lemma rgb_add_in_bounds (w h : Z) (img : Image.t) (x y : Z) (c : Vec3) :
  1 <= w <= Int.INT_MAX -> 1 <= h <= Int.INT_MAX -> bufferOK w h img ->
  0 <= x <= w - 1 -> 0 <= y <= h - 1 ->
  exists img', Image.rgb_add img x y c = Some img' /\ bufferOK w h img'.
Proof.
  intros Hw Hh Hok Hx Hy.
  destruct (offset_in_buffer w h img x y Hw Hh Hok Hx Hy) as [_ Hlen].
  unfold Image.rgb_add, Image.rgb, Image.rgb_set.
  set (i := Z.to_nat (Image.offset img x y)) in *.
  destruct (lookup_lt_is_Some_2 (Image._pixels img) i) as [r Hr]; [lia|].
  destruct (lookup_lt_is_Some_2 (Image._pixels img) (S i)) as [g Hg]; [lia|].
  destruct (lookup_lt_is_Some_2 (Image._pixels img) (S (S i))) as [b Hb];
    [lia|].
  rewrite Hr, Hg, Hb. simpl.
  destruct (decide _) as [_|Hn]; [|lia].
  eexists; split; [reflexivity|].
  destruct Hok as (Ew & Eh & Ec & El).
  unfold bufferOK; simpl. rewrite !length_insert. auto.
Qed.

Lemma accumulateStep_in_bounds gc (w h : Z) (img : Image.t) (cur : MLT.State)
    (info : option MLT.MutationInfo) (g : PCG32.Generator) :
  1 <= w <= Int.INT_MAX -> 1 <= h <= Int.INT_MAX -> bufferOK w h img ->
  exists img' cur' g',
    MLT.accumulateStep gc img cur info g = Some (img', cur', g')
    /\ bufferOK w h img'.
Proof.
  intros Hw Hh Hok. unfold MLT.accumulateStep.
  pose proof (clampPixel_range w h img (MLT.pixel cur) Hw Hh Hok) as Hc.
  destruct (MLT.clampPixel (MLT.pixel cur) img) as [x y]. simpl in Hc.
  destruct Hc as [Hx Hy].
  destruct info as [info|].
  - destruct (F32.ltb _ Epsilon).
    + destruct (rgb_add_in_bounds w h img x y
                  (V3.divs (radiance (MLT.evaluation cur))
                     (MLT.luminance (radiance (MLT.evaluation cur))))
                  Hw Hh Hok Hx Hy) as (img' & -> & Hok').
      simpl. eauto.
    + pose proof (clampPixel_range w h img
                    (MLT.pixel (MLT.proposal info)) Hw Hh Hok) as Hc.
      destruct (MLT.clampPixel (MLT.pixel (MLT.proposal info)) img)
        as [nx ny]. simpl in Hc. destruct Hc as [Hnx Hny].
      match goal with |- context [Image.rgb_add img x y ?c] =>
        destruct (rgb_add_in_bounds w h img x y c Hw Hh Hok Hx Hy)
          as (img1 & -> & Hok1) end.
      simpl.
      match goal with |- context [Image.rgb_add img1 nx ny ?c] =>
        destruct (rgb_add_in_bounds w h img1 nx ny c Hw Hh Hok1 Hnx Hny)
          as (img2 & -> & Hok2) end.
      simpl. destruct (gc g) as [u g']. destruct (F32.ltb u _); eauto.
  - match goal with |- context [Image.rgb_add img x y ?c] =>
      destruct (rgb_add_in_bounds w h img x y c Hw Hh Hok Hx Hy)
        as (img' & -> & Hok') end.
    simpl. eauto.
Qed.

Lemma mutationLoop_in_bounds gc crm stop (w h : Z) (scene : Scene.t)
    (n : nat) : forall (i : nat) (p : MLT.MLTProcess) (g : PCG32.Generator),
  1 <= w <= Int.INT_MAX -> 1 <= h <= Int.INT_MAX ->
  bufferOK w h (MLT._accumulationBuffer p) ->
  is_Some (MLT._currentState p) ->
  exists p' g',
    MLT.mutationLoop gc crm stop n i scene p g = Some (p', g')
    /\ bufferOK w h (MLT._accumulationBuffer p').
Proof.
  induction n as [|n IH]; intros i p g Hw Hh Hok [cur Hcur]; simpl.
  - eauto.
  - destruct (stop i); [eauto|].
    rewrite Hcur. simpl.
    destruct (crm scene cur _ _ g) as [[[info lum] num] g1].
    destruct (accumulateStep_in_bounds gc w h (MLT._accumulationBuffer p)
                cur info g1 Hw Hh Hok) as (img' & cur' & g' & -> & Hok').
    simpl. apply IH; simpl; eauto.
Qed.

(** The buffer a new worker allocates has the size of the frame. *)
Lemma newProcess_bufferOK (config : MLT.EnabledMutations) (w h : Z) :
  1 <= w <= Int.INT_MAX -> 1 <= h <= Int.INT_MAX ->
  bufferOK w h (MLT._accumulationBuffer (MLT.newProcess config w h)).
Proof.
  unfold Int.INT_MAX. intros Hw Hh.
  assert (Ew : Int.u64 w = w) by (unfold Int.u64; apply Z.mod_small; lia).
  assert (Eh : Int.u64 h = h) by (unfold Int.u64; apply Z.mod_small; lia).
  unfold bufferOK, MLT.newProcess, Image.create. simpl.
  rewrite Ew, Eh, length_replicate.
  repeat split.
  assert (Es : Int.u64 (w * h * 3) = w * h * 3)
    by (unfold Int.u64; apply Z.mod_small; nia).
  rewrite Es. lia.
Qed.

(** C10: in a frame of at least one pixel, [clampPixel] sends every pixel
    position, inside or outside the frame, to valid pixel coordinates, and
    every histogram update of the mutation loop, for whatever the mutation
    kernels propose, stays inside the worker's accumulation buffer. *)
Theorem accumulate_writes_in_bounds gc crm stop (w h : Z) (scene : Scene.t)
    (n i : nat) (p : MLT.MLTProcess) (g : PCG32.Generator) :
  1 <= w <= Int.INT_MAX -> 1 <= h <= Int.INT_MAX ->
  bufferOK w h (MLT._accumulationBuffer p) ->
  is_Some (MLT._currentState p) ->
  writesInBounds gc crm stop w h scene n i p g.
Proof.
  intros Hw Hh Hok Hcur. split.
  - intros pixel xy.
    destruct (clampPixel_range w h _ pixel Hw Hh Hok) as [Hx Hy].
    fold xy in Hx, Hy. split; [exact Hx|]. split; [exact Hy|].
    destruct Hok as (Ew & Eh & _). unfold Image.valid. rewrite Ew, Eh.
    repeat (apply andb_true_intro; split); lia.
  - apply mutationLoop_in_bounds; assumption.
Qed.

(** ** MLT: the scale factor *)

Lemma totals_no_new_paths (ps : list MLT.MLTProcess) (l : float) :
  Forall (fun p => MLT._numNewPathMutations p = 0) ps ->
  snd (fold_left
         (fun acc p =>
            (F32.add (fst acc) (MLT._accumulatedLuminance p),
             Int.i32 (snd acc + MLT._numNewPathMutations p)))
         ps (l, 0)) = 0.
Proof.
  intros H. revert l. induction H as [|p ps Hp _ IH]; intros l; simpl.
  - reflexivity.
  - rewrite Hp. apply IH.
Qed.

Lemma div_by_zero_notFinite (x y : float) :
  notFinite (F32.div (F32.div x (F32.of_Z 0)) y) = true.
Proof.
  assert (H : notFinite (F32.div x (F32.of_Z 0)) = true)
    by (destruct x as [[]|[]| |[] m e]; reflexivity).
  destruct (F32.div x (F32.of_Z 0)) as [s|s| |s m e]; try discriminate.
  - destruct y as [[]|[]| |[] m' e'], s; reflexivity.
  - destruct y; reflexivity.
Qed.

(** C1: when no worker has attempted a new-path mutation,
    [computeScaleFactor] divides by zero: its result is NaN or an infinity,
    never zero and never a finite scale. *)
Theorem computeScaleFactor_unguarded (m : MLT.t) :
  Forall (fun p => MLT._numNewPathMutations p = 0) (MLT._processes m) ->
  notFinite (MLT.computeScaleFactor m) = true.
Proof.
  intros H. unfold MLT.computeScaleFactor, MLT.totals.
  pose proof (totals_no_new_paths _ F32.zero H) as Hn.
  destruct (fold_left _ (MLT._processes m) (F32.zero, 0)) as [lum num].
  simpl in Hn. subst num. apply div_by_zero_notFinite.
Qed.

(** A NaN scale factor turns every pixel [updateFrameBuffer] merges into
    NaN, whatever the frame and the histogram hold. *)
Lemma mergePixel_nan (frame pixel : Vec3) :
  MLT.mergePixel frame pixel F32.nan = mkVec3 F32.nan F32.nan F32.nan.
Proof.
  assert (Hm : forall x, F32.mul x F32.nan = F32.nan)
    by (intros [[]|[]| |[] m e]; reflexivity).
  assert (Ha : forall x, F32.add x F32.nan = F32.nan)
    by (intros [[]|[]| |[] m e]; reflexivity).
  destruct frame, pixel.
  unfold MLT.mergePixel, V3.add, V3.scale, V3.map2, V3.splat.
  simpl. rewrite !Hm, !Ha. reflexivity.
Qed.

(** ** Worked inputs *)

(** Two workers of a renderer without new-path mutations: both counters are
    zero and the scale factor is NaN. *)
Lemma computeScaleFactor_unguarded_witness :
  Forall (fun p => MLT._numNewPathMutations p = 0)
         (MLT._processes mltLensOnly)
  /\ notFinite (MLT.computeScaleFactor mltLensOnly) = true
  /\ MLT.computeScaleFactor mltLensOnly = F32.nan.
Proof.
  assert (H : Forall (fun p => MLT._numNewPathMutations p = 0)
                     (MLT._processes mltLensOnly))
    by (repeat constructor).
  split; [exact H|]. split.
  - apply (computeScaleFactor_unguarded mltLensOnly H).
  - vm_compute. reflexivity.
Defined.



(** The row of eight triangles becomes one internal node with four leaves
    of two triangles each. *)
Lemma bvh_row_of_eight :
  option_map (fun bvh => map (fun nd => (BVHData.idx nd,
                                         BVHData.numTriangles nd))
                             (BVHData.nodes bvh))
             (BVH.build rowOfEight 0 8)
  = Some [(1, 0); (0, 2); (2, 2); (4, 2); (6, 2)].
Proof. vm_compute. reflexivity. Qed.

(** Two children are hit, child 5 at distance 1 and child 6 at distance 3.
    The nearer one is pushed first, so the first entry popped is the
    farther child. *)
Lemma far_child_popped_first :
  let stack := BVH.pushHitChildren nodeTwoAhead rayAlongX BVH.emptyStack in
  contents stack = [BVH.mkStackInfo 5 (zf 1); BVH.mkStackInfo 6 (zf 3)]
  /\ BVH.top stack = Some (BVH.mkStackInfo 6 (zf 3))
  /\ BVH.top (BVH.pop stack) = Some (BVH.mkStackInfo 5 (zf 1))
  /\ F32.ltb (zf 1) (zf 3) = true.
Proof. repeat split; vm_compute; reflexivity. Qed.

Lemma hit_children_pushed_near_to_far_witness :
  stackOK 4 BVH.emptyStack
  /\ pushedNearToFar nodeTwoAhead rayAlongX BVH.emptyStack.
Proof.
  assert (H : stackOK 4 BVH.emptyStack) by (unfold stackOK; simpl; lia).
  split; [exact H|].
  apply (hit_children_pushed_near_to_far nodeTwoAhead rayAlongX
           BVH.emptyStack H).
Defined.

(** A scene without lights: the light path has no vertex. *)
Lemma light_path_without_lights_is_empty :
  option_map (fun r => Path.length (fst r))
    (createRandomLightPath alwaysOne firstOutcome sceneNoLights
       PCG32.default) = Some 0
  /\ ~ (1 <= 0).
Proof. split; [vm_compute; reflexivity|lia]. Qed.

Lemma sampled_path_lengths_witness :
  (forall r a b hit,
     alwaysHit sceneOneLight r a b = Some hit ->
     is_Some (Scene.getMaterial sceneOneLight (Scene.materialIdx hit)))
  /\ (forall i g',
        0 <= i < Z.of_nat (length (Scene.lights sceneOneLight)) ->
        is_Some (chooseRandomVertexOnLight alwaysOne firstOutcome
                   sceneOneLight i g'))
  /\ sampledLengths alwaysHit sameDirection alwaysOne firstOutcome
       sceneOneLight rayAlongX PCG32.default.
Proof.
  assert (H1 : forall r a b hit,
            alwaysHit sceneOneLight r a b = Some hit ->
            is_Some (Scene.getMaterial sceneOneLight
                       (Scene.materialIdx hit))).
  { intros r a b hit H. injection H as <-. eexists. reflexivity. }
  assert (H2 : forall i g',
            0 <= i < Z.of_nat (length (Scene.lights sceneOneLight)) ->
            is_Some (chooseRandomVertexOnLight alwaysOne firstOutcome
                       sceneOneLight i g')).
  { intros i g' Hi. simpl in Hi. assert (i = 0) as -> by lia.
    eexists. reflexivity. }
  split; [exact H1|]. split; [exact H2|].
  apply (sampled_path_lengths alwaysHit sameDirection alwaysOne
           firstOutcome sceneOneLight rayAlongX PCG32.default H1 H2).
Defined.

(** When every ray hits and Russian roulette never stops the path, the
    eye path is cut at [MaxLength] vertices. *)
Lemma eye_path_reaches_MaxLength :
  option_map (fun r => Path.length (fst r))
    (createRandomEyePath alwaysHit sameDirection alwaysOne sceneOneLight
       rayAlongX PCG32.default) = Some 10.
Proof. vm_compute. reflexivity. Qed.


(** C6: with the lengths 0 to 4 centered on 2 (base 0.5), [pdf] doubles
    the value at 0 and not the value at the center 2, where the
    specification doubles the center and only the center: [pdf] returns
    2/7 at the center and 1/7 at 0, the specification 4/7 and 1/14. *)
Theorem twoSided_pdf_doubles_at_zero (log2f : float -> float) :
  let d := twoSidedAround2 log2f in
  pdf powf_int d 2 = S754_finite false 9586981 (-25)
  /\ pdf_spec powf_int d 2 = S754_finite false 9586981 (-24)
  /\ pdf powf_int d 0 = S754_finite false 9586981 (-26)
  /\ pdf_spec powf_int d 0 = S754_finite false 9586981 (-27)
  /\ (forall k, k <> 0 -> k <> 2 -> pdf powf_int d k = pdf_spec powf_int d k).
Proof.
  intros d.
  split; [vm_compute; reflexivity|].
  split; [vm_compute; reflexivity|].
  split; [vm_compute; reflexivity|].
  split; [vm_compute; reflexivity|].
  intros k H0 H2. unfold pdf, pdf_spec.
  change (_center d) with 2.
  destruct (k =? 0) eqn:E0; [apply Z.eqb_eq in E0; contradiction|].
  destruct (k =? 2) eqn:E2; [apply Z.eqb_eq in E2; contradiction|].
  reflexivity.
Qed.

(** The texel [sampleTexture] computes is inside the image. *)
Lemma texel_in_range (coord : float) (extent : Z) :
  0 < extent -> 0 <= Scene.texel coord extent < extent.
Proof.
  intros H. unfold Scene.texel.
  pose proof (Z.mod_pos_bound
                (Int.u64 (F32.to_int (F32.mul coord (F32.of_Z extent))))
                extent H) as Hm.
  destruct (_ <? 0) eqn:E; [apply Z.ltb_lt in E; lia|exact Hm].
Qed.

(** A texel index that is not negative is reduced modulo the extent. *)
Lemma texel_nonnegative (coord : float) (extent : Z) :
  0 < extent ->
  0 <= F32.to_int (F32.mul coord (F32.of_Z extent)) < 2 ^ 64 ->
  Scene.texel coord extent
    = F32.to_int (F32.mul coord (F32.of_Z extent)) mod extent.
Proof.
  intros H Hn. unfold Scene.texel. rewrite u64_small by exact Hn.
  pose proof (Z.mod_pos_bound
                (F32.to_int (F32.mul coord (F32.of_Z extent))) extent H).
  destruct (_ <? 0) eqn:E; [apply Z.ltb_lt in E; lia|reflexivity].
Qed.

(** C8: at the coordinate -0.5 of a texture three texels wide the texel
    index is -1, which reduced modulo 3 is column 2; [sampleTexture]
    reads column 0, because the remainder is taken after the conversion
    to [std::size_t].  The read is inside the image all the same. *)
Theorem sampleTexture_negative_coordinate :
  F32.to_int (F32.mul minusHalf (F32.of_Z 3)) = -1
  /\ (-1) mod 3 = 2
  /\ Scene.texel minusHalf 3 = 0
  /\ Scene.sampleTexture sceneOneTexture 0 (mkVec2 minusHalf F32.zero)
       = Some (V3.splat (zf 10))
  /\ Image.rgb imageThreeTexels 2 0 = Some (V3.splat (zf 30)).
Proof. repeat split; vm_compute; reflexivity. Qed.

(** A proposal on the right border of a 4 x 4 frame passes the frame test
    of the perturbation and is clamped to the last column. *)
Lemma border_pixel_is_clamped :
  MLT.perturbedPixelInFrame 4 4 (MLT.pixel stateOnBorder) = true
  /\ MLT.clampPixel (MLT.pixel stateOnBorder) (Image.create 4 4 3) = (3, 0).
Proof. split; vm_compute; reflexivity. Qed.

Lemma accumulate_writes_in_bounds_witness :
  1 <= 4 <= Int.INT_MAX
  /\ bufferOK 4 4 (MLT._accumulationBuffer processInside)
  /\ is_Some (MLT._currentState processInside)
  /\ writesInBounds alwaysOne proposeBorder neverStop 4 4 sceneNoLights
       3 0 processInside PCG32.default.
Proof.
  assert (H1 : 1 <= 4 <= Int.INT_MAX) by (unfold Int.INT_MAX; lia).
  assert (H2 : bufferOK 4 4 (MLT._accumulationBuffer processInside))
    by (repeat split).
  assert (H3 : is_Some (MLT._currentState processInside))
    by (eexists; reflexivity).
  split; [exact H1|]. split; [exact H2|]. split; [exact H3|].
  apply (accumulate_writes_in_bounds alwaysOne proposeBorder neverStop 4 4
           sceneNoLights 3 0 processInside PCG32.default H1 H1 H2 H3).
Defined.

(** ** main.cpp: the mutation set on the command line *)

Lemma matchesLoop_prefix (token : list ascii) : forall ref,
  Main.matchesLoop token ref = true <-> ciPrefix token ref.
Proof.
  induction token as [|t token IH]; intros ref; simpl.
  - split; [intros _; exists (map Main.tolower ref); reflexivity|reflexivity].
  - destruct ref as [|r ref].
    + split; [discriminate|]. intros [rest H]. discriminate H.
    + destruct (Ascii.eqb (Main.tolower t) (Main.tolower r)) eqn:E.
      * apply Ascii.eqb_eq in E. rewrite IH. unfold ciPrefix. simpl.
        rewrite E. split; intros [rest H]; exists rest.
        -- rewrite H. reflexivity.
        -- injection H as H. exact H.
      * apply Ascii.eqb_neq in E. split; [discriminate|].
        intros [rest H]. simpl in H. injection H as H1 H2.
        congruence.
Qed.

Lemma ciPrefix_length (token ref : list ascii) :
  ciPrefix token ref -> (length token <= length ref)%nat.
Proof.
  intros [rest H]. apply (f_equal (@length _)) in H.
  rewrite length_app, !length_map in H. lia.
Qed.

(** X1: [matches token ref] holds exactly when [token], compared without
    regard to the case of ASCII letters, is a prefix of [ref]; the empty
    token matches every name. *)
Theorem matches_is_case_insensitive_prefix (token ref : list ascii) :
  Main.matches token ref = true <-> ciPrefix token ref.
Proof.
  unfold Main.matches.
  destruct (length ref <? length token)%nat eqn:E.
  - apply Nat.ltb_lt in E. split; [discriminate|].
    intros H. apply ciPrefix_length in H. lia.
  - apply matchesLoop_prefix.
Qed.

Lemma getlines_nonempty (s token : list ascii) :
  token <> [] \/ s <> [] -> Main.getlines s token <> [].
Proof.
  revert token. induction s as [|c s IH]; intros token H; simpl.
  - destruct token; [destruct H; congruence|discriminate].
  - destruct (Ascii.eqb c ","%char); [discriminate|].
    apply IH. left. destruct token; discriminate.
Qed.

Lemma joinCommas_cons (token : list ascii) (tokens : list (list ascii)) :
  tokens <> [] ->
  joinCommas (token :: tokens) = token ++ ","%char :: joinCommas tokens.
Proof. destruct tokens; [congruence|reflexivity]. Qed.

Lemma getlines_join (s : list ascii) : forall token,
  joinCommas (Main.getlines s token) = token ++ s
  \/ joinCommas (Main.getlines s token) ++ [","%char] = token ++ s.
Proof.
  induction s as [|c s IH]; intros token; simpl.
  - left. rewrite app_nil_r. destruct token; reflexivity.
  - destruct (Ascii.eqb c ","%char) eqn:E.
    + apply Ascii.eqb_eq in E. subst c.
      destruct (IH []) as [H|H]; simpl in H;
        (destruct s as [|d s]; [right; reflexivity|]);
        remember (Main.getlines (d :: s) []) as L eqn:EL;
        (assert (HL : L <> [])
           by (subst L; apply getlines_nonempty; right; discriminate));
        rewrite (joinCommas_cons token L HL).
      * left. rewrite H. reflexivity.
      * right. rewrite <- H. rewrite <- app_assoc. reflexivity.
    + destruct (IH (token ++ [c])) as [H|H]; rewrite <- app_assoc in H;
        [left|right]; exact H.
Qed.

Lemma getlines_no_comma (s : list ascii) : forall token,
  ~ In ","%char token ->
  forall t, In t (Main.getlines s token) -> ~ In ","%char t.
Proof.
  induction s as [|c s IH]; intros token Ht t Hin; simpl in Hin.
  - destruct token; [destruct Hin|]. destruct Hin as [<-|[]]. exact Ht.
  - destruct (Ascii.eqb c ","%char) eqn:E.
    + destruct Hin as [<-|Hin]; [exact Ht|].
      apply (IH [] (fun x => x) t Hin).
    + apply Ascii.eqb_neq in E. apply (IH (token ++ [c])); [|exact Hin].
      rewrite in_app_iff. intros [H|[H|[]]]; [exact (Ht H)|congruence].
Qed.

(** X2: the tokens the [getline] loop reads hold no comma, and joined by
    commas they give the input back, up to one trailing comma that the
    loop drops. *)
Theorem getlines_round_trip (s : list ascii) :
  (forall token, In token (Main.getlines s []) -> ~ In ","%char token) /\
  (joinCommas (Main.getlines s []) = s
   \/ joinCommas (Main.getlines s []) ++ [","%char] = s).
Proof.
  split.
  - apply getlines_no_comma. intros [].
  - apply (getlines_join s []).
Qed.

Lemma matches_head (t : ascii) (token ref : list ascii) :
  Main.matches (t :: token) ref = true ->
  exists r rest, ref = r :: rest /\ Main.tolower t = Main.tolower r.
Proof.
  unfold Main.matches.
  destruct (length ref <? length (t :: token))%nat; [discriminate|].
  destruct ref as [|r rest]; simpl; [discriminate|].
  destruct (Ascii.eqb (Main.tolower t) (Main.tolower r)) eqn:E;
    [|discriminate].
  intros _. exists r, rest. split; [reflexivity|].
  apply Ascii.eqb_eq. exact E.
Qed.

Lemma kernel_unambiguous (token a b : list ascii) :
  token <> [] -> In a kernelNames -> In b kernelNames ->
  Main.matches token a = true -> Main.matches token b = true -> a = b.
Proof.
  intros Hne Ha Hb Ma Mb. destruct token as [|t token]; [congruence|].
  apply matches_head in Ma. destruct Ma as (ra & resta & Ea & Ta).
  apply matches_head in Mb. destruct Mb as (rb & restb & Eb & Tb).
  assert (T : Main.tolower ra = Main.tolower rb) by congruence.
  unfold kernelNames in Ha, Hb. simpl in Ha, Hb.
  destruct Ha as [<-|[<-|[<-|[<-|[]]]]];
    destruct Hb as [<-|[<-|[<-|[<-|[]]]]];
    try reflexivity;
    injection Ea as <- _; injection Eb as <- _;
    vm_compute in T; discriminate T.
Qed.

(** X3: a non-empty token matches at most one of the four kernel names,
    so the order of the tests in [getEnabledMutationsFromString] never
    decides which kernel a token enables. *)
Theorem mutation_token_matches_one_kernel (token : list ascii) :
  token <> [] ->
  (length (filter (fun name => Main.matches token name = true) kernelNames)
   <= 1)%nat.
Proof.
  intros Hne.
  pose proof (kernel_unambiguous token) as U.
  assert (K : forall a b, In a kernelNames -> In b kernelNames ->
            Main.matches token a = true -> Main.matches token b = true ->
            a = b) by (intros; apply U; assumption).
  clear U. unfold kernelNames in *.
  assert (D12 : Main.newPathMutationName <> Main.lensPerturbationName)
    by discriminate.
  assert (D13 : Main.newPathMutationName <> Main.multiChainPerturbationName)
    by discriminate.
  assert (D14 : Main.newPathMutationName <> Main.bidirectionalMutationName)
    by discriminate.
  assert (D23 : Main.lensPerturbationName <> Main.multiChainPerturbationName)
    by discriminate.
  assert (D24 : Main.lensPerturbationName <> Main.bidirectionalMutationName)
    by discriminate.
  assert (D34 : Main.multiChainPerturbationName
                <> Main.bidirectionalMutationName) by discriminate.
  rewrite !filter_cons, filter_nil.
  destruct (Main.matches token Main.newPathMutationName) eqn:M1;
    destruct (Main.matches token Main.lensPerturbationName) eqn:M2;
    destruct (Main.matches token Main.multiChainPerturbationName) eqn:M3;
    destruct (Main.matches token Main.bidirectionalMutationName) eqn:M4;
    repeat (destruct (decide _); try congruence);
    simpl; try lia;
    exfalso;
    first [ apply D12; apply K; simpl; auto; fail
          | apply D13; apply K; simpl; auto; fail
          | apply D14; apply K; simpl; auto 6; fail
          | apply D23; apply K; simpl; auto; fail
          | apply D24; apply K; simpl; auto 6; fail
          | apply D34; apply K; simpl; auto 6; fail ].
Qed.

Lemma mutation_token_matches_one_kernel_witness :
  newAndLens <> [] /\
  (length (filter (fun name => Main.matches newAndLens name = true)
             kernelNames) <= 1)%nat.
Proof.
  assert (H : newAndLens <> []) by (vm_compute; discriminate).
  split; [exact H|].
  apply (mutation_token_matches_one_kernel newAndLens H).
Defined.

Lemma selects_cons (token : list ascii) (tokens : list (list ascii))
    (name : list ascii) :
  selects (token :: tokens) name <->
  (token <> [] /\ Main.matches token name = true) \/ selects tokens name.
Proof.
  unfold selects. split.
  - intros (t & [<-|Hin] & Hne & Hm); [left; auto|right; eauto].
  - intros [[Hne Hm]|(t & Hin & Hne & Hm)].
    + exists token. simpl. auto.
    + exists t. simpl. auto.
Qed.

Lemma selects_nil (name : list ascii) : ~ selects [] name.
Proof. intros (t & [] & _). Qed.

Lemma known_token (tok name : list ascii) :
  In name kernelNames -> Main.matches tok name = true ->
  ~ unknownToken tok.
Proof. intros Hin Hm Hu. rewrite (Hu name Hin) in Hm. discriminate. Qed.

Ltac parse_step IH tok :=
  match goal with
  | |- parsedFrom _ _ (Main.parseTokens _ ?s) => specialize (IH s)
  end;
  unfold parsedFrom in *;
  destruct (Main.parseTokens _ _) as [c|];
  [ rewrite !selects_cons; fold tok;
    destruct IH as (H0 & H1 & H2 & H3 & H4); simpl in H1, H2, H3, H4
  | destruct IH as (tk & Hi & Hn & Hno); exists tk; simpl; auto ].

Lemma parseTokens_spec (tokens : list (list ascii)) :
  forall start, parsedFrom tokens start (Main.parseTokens tokens start).
Proof.
  induction tokens as [|token tokens IH]; intros start.
  - simpl. split; [intros token []|].
    repeat split; try (intros H; left; exact H);
      intros [H|H]; try exact H; destruct (selects_nil _ H).
  - cbn [Main.parseTokens]. destruct token as [|t token].
    + specialize (IH start). unfold parsedFrom in *.
      destruct (Main.parseTokens tokens start) as [c|].
      * rewrite !selects_cons.
        destruct IH as (H0 & H1 & H2 & H3 & H4).
        rewrite H1, H2, H3, H4.
        split.
        { intros token [<-|Hin] Hne; [congruence|]. apply H0; assumption. }
        repeat split; intros [H|H]; auto;
          destruct H as [[Hne _]|H]; auto; congruence.
      * destruct IH as (tk & Hin & Hne & Hno).
        exists tk. simpl. auto.
    + set (tok := t :: token).
      assert (Hne : tok <> []) by discriminate.
      assert (Hin : forall n, In n kernelNames ->
                Main.matches tok n = true ->
                forall n', In n' kernelNames -> n' <> n ->
                Main.matches tok n' = false).
      { intros n Hn Hm n' Hn' Hd.
        destruct (Main.matches tok n') eqn:E; [|reflexivity].
        destruct Hd. apply (kernel_unambiguous tok); assumption. }
      assert (K1 : In Main.newPathMutationName kernelNames)
        by (simpl; auto).
      assert (K2 : In Main.lensPerturbationName kernelNames)
        by (simpl; auto).
      assert (K3 : In Main.multiChainPerturbationName kernelNames)
        by (simpl; auto).
      assert (K4 : In Main.bidirectionalMutationName kernelNames)
        by (simpl; auto 6).
      assert (Hall : forall name, In name kernelNames ->
                Main.matches tok name = true ->
                (forall token0, In token0 tokens -> token0 <> [] ->
                   ~ unknownToken token0) ->
                forall token0, In token0 (tok :: tokens) ->
                  token0 <> [] -> ~ unknownToken token0).
      { intros name Hname Hm Hrest token0 [<-|Hin0] Hne0.
        - eapply known_token; eassumption.
        - apply Hrest; assumption. }
      destruct (Main.matches tok Main.newPathMutationName) eqn:M1;
        [|destruct (Main.matches tok Main.lensPerturbationName) eqn:M2;
          [|destruct (Main.matches tok Main.multiChainPerturbationName)
              eqn:M3;
            [|destruct (Main.matches tok Main.bidirectionalMutationName)
                eqn:M4]]].
      * pose proof (Hin _ K1 M1 _ K2 ltac:(discriminate)) as N2.
        pose proof (Hin _ K1 M1 _ K3 ltac:(discriminate)) as N3.
        pose proof (Hin _ K1 M1 _ K4 ltac:(discriminate)) as N4.
        parse_step IH tok.
        split; [exact (Hall _ K1 M1 H0)|].
        rewrite H1, H2, H3, H4, M1, N2, N3, N4.
        repeat split; intros; intuition congruence.
      * pose proof (Hin _ K2 M2 _ K3 ltac:(discriminate)) as N3.
        pose proof (Hin _ K2 M2 _ K4 ltac:(discriminate)) as N4.
        parse_step IH tok.
        split; [exact (Hall _ K2 M2 H0)|].
        rewrite H1, H2, H3, H4, M1, M2, N3, N4.
        repeat split; intros; intuition congruence.
      * pose proof (Hin _ K3 M3 _ K4 ltac:(discriminate)) as N4.
        parse_step IH tok.
        split; [exact (Hall _ K3 M3 H0)|].
        rewrite H1, H2, H3, H4, M1, M2, M3, N4.
        repeat split; intros; intuition congruence.
      * parse_step IH tok.
        split; [exact (Hall _ K4 M4 H0)|].
        rewrite H1, H2, H3, H4, M1, M2, M3, M4.
        repeat split; intros; intuition congruence.
      * unfold parsedFrom. exists tok. split; [simpl; auto|].
        split; [exact Hne|]. intros name Hname. simpl in Hname.
        destruct Hname as [<-|[<-|[<-|[<-|[]]]]]; assumption.
Qed.

(** X4: [getEnabledMutationsFromString] throws exactly when some
    non-empty token of the string matches none of the four kernel names;
    otherwise it skips the empty tokens and enables a kernel exactly when
    a non-empty token matches the kernel's name. *)
Theorem getEnabledMutationsFromString_flags (s : list ascii) :
  (Main.getEnabledMutationsFromString s = None <->
   exists token,
     In token (Main.getlines s []) /\ token <> [] /\ unknownToken token)
  /\ forall c, Main.getEnabledMutationsFromString s = Some c ->
       (MLT.newPathMutation c = true <->
        selects (Main.getlines s []) Main.newPathMutationName) /\
       (MLT.lensPerturbation c = true <->
        selects (Main.getlines s []) Main.lensPerturbationName) /\
       (MLT.multiChainPerturbation c = true <->
        selects (Main.getlines s []) Main.multiChainPerturbationName) /\
       (MLT.bidirectionalMutation c = true <->
        selects (Main.getlines s []) Main.bidirectionalMutationName).
Proof.
  pose proof (parseTokens_spec (Main.getlines s [])
                (MLT.mkEnabled false false false false)) as H.
  unfold Main.getEnabledMutationsFromString, parsedFrom in *.
  destruct (Main.parseTokens _ _) as [c|].
  - destruct H as (H0 & H1 & H2 & H3 & H4). simpl in H1, H2, H3, H4.
    split.
    + split; [discriminate|].
      intros (token & Hin & Hne & Hu). destruct (H0 token Hin Hne Hu).
    + intros c' Hc. injection Hc as <-.
      rewrite H1, H2, H3, H4.
      repeat split; intros; intuition congruence.
  - split; [|discriminate]. split; [intros _; exact H|reflexivity].
Qed.

(** ** The PCG32 generator: the state transition *)

(** X5: the state transition of [Generator::operator()] loses nothing: on
    64-bit states, multiplying the new state by the inverse multiplier
    gives the old state back, so two different states never step to the
    same state. *)
Theorem pcg32_step_is_invertible (g : PCG32.Generator) :
  0 <= PCG32.mcgState g < 2 ^ 64 ->
  previous (snd (PCG32.next g)) = g.
Proof.
  intros H. destruct g as [x]. simpl in *.
  unfold previous. simpl. f_equal. unfold Int.u64.
  rewrite Z.mul_mod_idemp_l by lia.
  rewrite <- Z.mul_assoc.
  rewrite <- Z.mul_mod_idemp_r by lia.
  replace ((PCG32.Multiplier * InvMultiplier) mod 2 ^ 64) with 1
    by (vm_compute; reflexivity).
  rewrite Z.mul_1_r. apply Z.mod_small. exact H.
Qed.

Lemma pcg32_step_is_invertible_witness :
  0 <= PCG32.mcgState PCG32.default < 2 ^ 64
  /\ previous (snd (PCG32.next PCG32.default)) = PCG32.default.
Proof.
  assert (H : 0 <= PCG32.mcgState PCG32.default < 2 ^ 64)
    by (simpl; lia).
  split; [exact H|].
  apply (pcg32_step_is_invertible PCG32.default H).
Defined.

(** X6: the seeding constructor discards the lowest bit of the seed: the
    seeds [2k] and [2k + 1] give the same generator, hence the same
    stream of outputs. *)
Theorem pcg32_seed_ignores_lowest_bit (k : Z) (n : nat) :
  PCG32.seeded (2 * k) = PCG32.seeded (2 * k + 1) /\
  fst (PCG32.next (PCG32.draws n (PCG32.seeded (2 * k))))
  = fst (PCG32.next (PCG32.draws n (PCG32.seeded (2 * k + 1)))).
Proof.
  assert (E : PCG32.seeded (2 * k) = PCG32.seeded (2 * k + 1)).
  { unfold PCG32.seeded. f_equal. unfold Int.u64.
    apply Z.bits_inj'. intros i Hi.
    rewrite !Z.lor_spec.
    destruct (Z.eq_dec i 0) as [->|Hne].
    - rewrite !orb_true_r. reflexivity.
    - f_equal. destruct (Z_lt_dec i 64) as [Hlt|Hge].
      + rewrite !Z.mod_pow2_bits_low by lia.
        replace i with (Z.succ (i - 1)) by lia.
        rewrite Z.testbit_even_succ, Z.testbit_odd_succ by lia.
        reflexivity.
      + rewrite !Z.mod_pow2_bits_high by lia. reflexivity. }
  split; [exact E|]. rewrite E. reflexivity.
Qed.

(** ** AABB: the largest axis, and boxes without NaN *)

Lemma getSize_get (b : AABB.t) (axis : Z) :
  AABB.getSize b axis = V3.get (AABB.getSize3 b) axis.
Proof.
  unfold AABB.getSize, AABB.getSize3, V3.sub, V3.map2, V3.get. simpl.
  destruct (axis =? 0); [reflexivity|]. destruct (axis =? 1); reflexivity.
Qed.

(** X7: [getLargestAxis] returns an axis 0, 1 or 2, and when no extent of
    the box is NaN no other axis has a larger extent than the one it
    returns. *)
Theorem getLargestAxis_is_largest (b : AABB.t) (axis : Z) :
  (forall a, 0 <= a <= 2 -> isNaN (AABB.getSize b a) = false) ->
  0 <= axis <= 2 ->
  0 <= AABB.getLargestAxis b <= 2 /\
  F32.ltb (AABB.getSize b (AABB.getLargestAxis b)) (AABB.getSize b axis)
  = false.
Proof.
  intros Hnan Haxis.
  pose proof (Hnan 0 ltac:(lia)) as N0.
  pose proof (Hnan 1 ltac:(lia)) as N1.
  pose proof (Hnan 2 ltac:(lia)) as N2.
  rewrite !getSize_get in *. unfold AABB.getLargestAxis.
  set (size := AABB.getSize3 b) in *.
  change (isNaN (v3x size) = false) in N0.
  change (isNaN (v3y size) = false) in N1.
  change (isNaN (v3z size) = false) in N2.
  assert (Z0 : nanZ (v3x size) = 0) by (unfold nanZ; rewrite N0; reflexivity).
  assert (Z1 : nanZ (v3y size) = 0) by (unfold nanZ; rewrite N1; reflexivity).
  assert (Z2 : nanZ (v3z size) = 0) by (unfold nanZ; rewrite N2; reflexivity).
  assert (Hc : axis = 0 \/ axis = 1 \/ axis = 2) by lia.
  destruct (F32.gtb (v3x size) (v3y size)) eqn:E1;
    destruct (F32.gtb (v3x size) (v3z size)) eqn:E2;
    destruct (F32.gtb (v3y size) (v3z size)) eqn:E3; simpl;
    (split; [lia|]);
    destruct Hc as [-> | [-> | ->]];
    match goal with
    | |- F32.ltb (V3.get _ ?a) (V3.get _ ?b) = false =>
        change (V3.get size 0) with (v3x size);
        change (V3.get size 1) with (v3y size);
        change (V3.get size 2) with (v3z size)
    end;
    clearbody size; float_order.
Qed.

Lemma getLargestAxis_is_largest_witness :
  (forall a, 0 <= a <= 2 -> isNaN (AABB.getSize (boxAlongX 1 3) a) = false)
  /\ 0 <= 1 <= 2
  /\ 0 <= AABB.getLargestAxis (boxAlongX 1 3) <= 2
  /\ F32.ltb (AABB.getSize (boxAlongX 1 3)
                (AABB.getLargestAxis (boxAlongX 1 3)))
             (AABB.getSize (boxAlongX 1 3) 1) = false.
Proof.
  assert (H : forall a, 0 <= a <= 2 ->
                isNaN (AABB.getSize (boxAlongX 1 3) a) = false).
  { intros a Ha. assert (Hc : a = 0 \/ a = 1 \/ a = 2) by lia.
    destruct Hc as [-> | [-> | ->]]; vm_compute; reflexivity. }
  assert (H1 : 0 <= 1 <= 2) by lia.
  split; [exact H|]. split; [exact H1|].
  apply (getLargestAxis_is_largest (boxAlongX 1 3) 1 H H1).
Defined.

Lemma fitAxis_noNaN (mn mx v : float) :
  isNaN mn = false -> isNaN mx = false ->
  isNaN (if F32.gtb mn v then v else mn) = false /\
  isNaN (if F32.ltb mx v then v else mx) = false.
Proof.
  intros Hmn Hmx. split.
  - destruct (F32.gtb mn v) eqn:E; [|exact Hmn].
    destruct v; try reflexivity. destruct mn; discriminate.
  - destruct (F32.ltb mx v) eqn:E; [|exact Hmx].
    destruct v; try reflexivity. destruct mx; discriminate.
Qed.

Lemma fit_noNaN (b : AABB.t) (v : Vec3) :
  boxNoNaN b -> boxNoNaN (AABB.fit b v).
Proof.
  intros [(Hx & Hy & Hz) (Hx' & Hy' & Hz')].
  destruct (fitAxis_noNaN _ _ (v3x v) Hx Hx') as [Ax Bx].
  destruct (fitAxis_noNaN _ _ (v3y v) Hy Hy') as [Ay By].
  destruct (fitAxis_noNaN _ _ (v3z v) Hz Hz') as [Az Bz].
  unfold boxNoNaN, noNaN3, AABB.fit. simpl. tauto.
Qed.

Lemma fitTriangle_noNaN (b : AABB.t) (tri : BVHData.Triangle) :
  boxNoNaN b -> boxNoNaN (BVH.fitTriangle b tri).
Proof.
  intros H. unfold BVH.fitTriangle.
  destruct (BVHData.positions tri) as [[p0 p1] p2].
  repeat apply fit_noNaN. exact H.
Qed.

(** X8: [fit] never stores a NaN: a coordinate that is NaN loses both
    comparisons and leaves the box as it was, so the root bounds of every
    BVH that the constructor builds are free of NaN, whatever the
    triangles hold. *)
Theorem bvh_root_bounds_hold_no_nan (meshTriangles : list Mesh.Triangle)
    (startIdx count : Z) (bvh : BVHData.t) :
  BVH.build meshTriangles startIdx count = Some bvh ->
  boxNoNaN (BVHData.rootBounds bvh).
Proof.
  unfold BVH.build. intros H.
  destruct (decide _) as [Hd|]; [|discriminate].
  destruct (BVH.split _ _ _ _ _ _) as [st|]; [|discriminate].
  simpl in H. injection H as <-. simpl.
  apply fold_left_inv.
  - repeat split.
  - intros a tri Ha. apply fitTriangle_noNaN, Ha.
Qed.

Lemma bvh_root_bounds_hold_no_nan_witness :
  BVH.build [triangleWithNaN] 0 1
  = Some (BVHData.mk
            [BVHData.mkTriangle (Mesh.positions triangleWithNaN) 0]
            [BVHData.mkNode AABB4.empty 0 1]
            (AABB.mk (vz 0 0 0) (vz 1 1 0)))
  /\ boxNoNaN (AABB.mk (vz 0 0 0) (vz 1 1 0)).
Proof.
  assert (H : BVH.build [triangleWithNaN] 0 1
              = Some (BVHData.mk
                  [BVHData.mkTriangle (Mesh.positions triangleWithNaN) 0]
                  [BVHData.mkNode AABB4.empty 0 1]
                  (AABB.mk (vz 0 0 0) (vz 1 1 0))))
    by (vm_compute; reflexivity).
  split; [exact H|].
  apply (bvh_root_bounds_hold_no_nan [triangleWithNaN] 0 1 _ H).
Defined.

(** ** The scalar and the packed box test agree *)

Lemma leb_true (a b : float) :
  SFleb a b = true <-> nanZ a = 0 /\ nanZ b = 0 /\ ~ lt3 (key b) (key a).
Proof.
  unfold SFleb, lt3, nanZ.
  destruct a as [sa|sa| |sa ma ea], b as [sb|sb| |sb mb eb];
    try destruct sa; try destruct sb; simpl;
    try (split; [discriminate|intros (? & ? & ?); try discriminate; lia]);
    try (split; [intros _; repeat split; lia|reflexivity]).
  - rewrite Pos.compare_cont_spec. simpl.
    destruct (Z.compare_spec ea eb), (Pos.compare_spec ma mb); simpl;
      (split; [try discriminate; intros _; repeat split; lia
              |intros (_ & _ & ?); try reflexivity; lia]).
  - rewrite Pos.compare_cont_spec. simpl.
    destruct (Z.compare_spec ea eb), (Pos.compare_spec ma mb); simpl;
      (split; [try discriminate; intros _; repeat split; lia
              |intros (_ & _ & ?); try reflexivity; lia]).
Qed.

Lemma ltb_same (a a' b b' : float) :
  sameNumber a a' -> sameNumber b b' -> SFltb a b = SFltb a' b'.
Proof.
  intros [Na Ka] [Nb Kb].
  apply eq_true_iff_eq. rewrite !ltb_true, Na, Nb, Ka, Kb. reflexivity.
Qed.

Lemma leb_not_gtb (a b : float) :
  nanZ a = 0 -> nanZ b = 0 -> SFleb a b = negb (SFltb b a).
Proof.
  intros Ha Hb. apply eq_true_iff_eq.
  rewrite negb_true_iff, leb_true, ltb_false. intuition lia.
Qed.

Lemma sameNumber_refl (a : float) : sameNumber a a.
Proof. split; reflexivity. Qed.

Lemma nanZ_isNaN (a : float) : isNaN a = false <-> nanZ a = 0.
Proof. unfold nanZ. destruct (isNaN a); split; intros H; congruence || lia. Qed.

Lemma min_noNaN (a b : float) :
  nanZ a = 0 -> nanZ b = 0 -> nanZ (F32.min a b) = 0.
Proof. intros Ha Hb. unfold F32.min. destruct (F32.ltb b a); assumption. Qed.

Lemma max_noNaN (a b : float) :
  nanZ a = 0 -> nanZ b = 0 -> nanZ (F32.max a b) = 0.
Proof. intros Ha Hb. unfold F32.max. destruct (F32.ltb a b); assumption. Qed.

(** The swap of [AABB::intersect] against [glm::min] and [glm::max]. *)
Lemma slab_fst (mn mx o d : float) :
  fst (AABB.slab mn mx o d)
  = F32.min (F32.div (F32.sub mn o) d) (F32.div (F32.sub mx o) d).
Proof.
  unfold AABB.slab, F32.min, F32.gtb, F32.ltb.
  destruct (SFltb _ _); reflexivity.
Qed.

Lemma key_eq_of_not_lt (a b : float) :
  nanZ a = 0 -> nanZ b = 0 ->
  SFltb a b = false -> SFltb b a = false -> key a = key b.
Proof.
  intros Ha Hb H1 H2. apply ltb_false in H1, H2. unfold lt3 in *.
  destruct (key a) as [[c1 e1] m1], (key b) as [[c2 e2] m2]. simpl in *.
  assert (c1 = c2) by lia. assert (e1 = e2) by lia. assert (m1 = m2) by lia.
  congruence.
Qed.

Lemma slab_snd (mn mx o d : float) :
  nanZ (F32.div (F32.sub mn o) d) = 0 ->
  nanZ (F32.div (F32.sub mx o) d) = 0 ->
  sameNumber (snd (AABB.slab mn mx o d))
    (F32.max (F32.div (F32.sub mn o) d) (F32.div (F32.sub mx o) d)).
Proof.
  intros H1 H2. unfold AABB.slab, F32.max, F32.gtb, F32.ltb.
  set (q1 := F32.div (F32.sub mn o) d) in *.
  set (q2 := F32.div (F32.sub mx o) d) in *.
  destruct (SFltb q2 q1) eqn:E1, (SFltb q1 q2) eqn:E2; simpl;
    try apply sameNumber_refl.
  - exfalso. clearbody q1 q2. float_order.
  - split; [lia|]. symmetry. apply key_eq_of_not_lt; assumption.
Qed.

(** Three-way maximum and minimum: the nested tests of the scalar code
    against the nested [glm::max] and [glm::min]. *)
Lemma max3_agree (a b c : float) :
  nanZ a = 0 -> nanZ b = 0 -> nanZ c = 0 ->
  (let t := if F32.ltb a b then b else a in
   if F32.ltb t c then c else t)
  = F32.max a (F32.max b c).
Proof.
  intros Ha Hb Hc. unfold F32.max. simpl.
  destruct (F32.ltb a b) eqn:E1, (F32.ltb b c) eqn:E2,
    (F32.ltb a c) eqn:E3; simpl; rewrite ?E1, ?E2, ?E3;
    try reflexivity; exfalso; float_order.
Qed.

Lemma min3_same (a b c a' b' c' : float) :
  nanZ a = 0 -> nanZ b = 0 -> nanZ c = 0 ->
  sameNumber a a' -> sameNumber b b' -> sameNumber c c' ->
  sameNumber
    (let t := if F32.gtb a b then b else a in
     if F32.gtb t c then c else t)
    (F32.min a' (F32.min b' c')).
Proof.
  intros Ha Hb Hc Sa Sb Sc. unfold F32.min, F32.gtb, F32.ltb. simpl.
  rewrite <- (ltb_same c c' b b' Sc Sb).
  destruct (SFltb b a) eqn:E1; destruct (SFltb c b) eqn:E2.
  - rewrite <- (ltb_same c c' a a' Sc Sa).
    assert (E3 : SFltb c a = true) by float_order.
    rewrite E3. exact Sc.
  - rewrite <- (ltb_same b b' a a' Sb Sa), E1. exact Sb.
  - rewrite <- (ltb_same c c' a a' Sc Sa).
    destruct (SFltb c a) eqn:E3; [exact Sc|exact Sa].
  - rewrite <- (ltb_same b b' a a' Sb Sa), E1.
    destruct (SFltb c a) eqn:E3; [|exact Sa].
    exfalso. float_order.
Qed.

Lemma lane_of_pack (a b c d : AABB.t) (ray : Ray) (i : Z) :
  0 <= i <= 3 ->
  let hit := AABB4.intersect (AABB4.pack a b c d) ray in
  V4.bget (AABB4.isHit hit) i = laneHit (laneBox a b c d i) ray /\
  V4.get (AABB4.distances hit) i = laneNear (laneBox a b c d i) ray.
Proof.
  intros Hi. assert (Hc : i = 0 \/ i = 1 \/ i = 2 \/ i = 3) by lia.
  destruct Hc as [-> | [-> | [-> | ->]]]; split; reflexivity.
Qed.

Lemma slabNear_laneNear (b : AABB.t) (ray : Ray) :
  Forall (fun q => isNaN q = false) (slabQuotients b ray) ->
  AABB.slabNear b ray = laneNear b ray /\ nanZ (laneNear b ray) = 0.
Proof.
  unfold slabQuotients. intros H.
  repeat (apply Forall_cons in H; destruct H as [?%nanZ_isNaN H]).
  unfold AABB.slabNear, laneNear. rewrite !slab_fst. split.
  - apply max3_agree; apply min_noNaN; assumption.
  - repeat apply max_noNaN; apply min_noNaN; assumption.
Qed.

Lemma slabFar_laneFar (b : AABB.t) (ray : Ray) :
  Forall (fun q => isNaN q = false) (slabQuotients b ray) ->
  sameNumber (AABB.slabFar b ray) (laneFar b ray)
  /\ nanZ (laneFar b ray) = 0.
Proof.
  unfold slabQuotients. intros H.
  repeat (apply Forall_cons in H; destruct H as [?%nanZ_isNaN H]).
  unfold AABB.slabFar, laneFar. split.
  - apply min3_same;
      try apply slab_snd; try assumption;
      match goal with
      | |- nanZ (snd (AABB.slab ?mn ?mx ?o ?d)) = 0 =>
          destruct (slab_snd mn mx o d) as [-> _]; try assumption;
          apply max_noNaN; assumption
      end.
  - repeat apply min_noNaN; apply max_noNaN; assumption.
Qed.

(** X9: lane [i] of the packed test [AABB4::intersect] gives the answer
    of the scalar test [AABB::intersect] on box [i] -- hit or miss, and
    the same distance -- whenever none of the six slab quotients of that
    box is NaN. *)
Theorem packed_box_test_agrees_with_scalar (a b c d : AABB.t) (ray : Ray)
    (i : Z) :
  0 <= i <= 3 ->
  Forall (fun q => isNaN q = false)
         (slabQuotients (laneBox a b c d i) ray) ->
  let hit := AABB4.intersect (AABB4.pack a b c d) ray in
  AABB.intersect (laneBox a b c d i) ray
  = if V4.bget (AABB4.isHit hit) i
    then Some (V4.get (AABB4.distances hit) i)
    else None.
Proof.
  intros Hi Hq hit. subst hit.
  destruct (lane_of_pack a b c d ray i Hi) as [-> ->].
  set (box := laneBox a b c d i) in *.
  destruct (slabNear_laneNear box ray Hq) as [En Nn].
  destruct (slabFar_laneFar box ray Hq) as [Sf Nf].
  unfold AABB.intersect, laneHit. rewrite En.
  unfold F32.gtb, F32.leb, F32.ltb.
  rewrite (ltb_same _ _ _ _ Sf (sameNumber_refl (laneNear box ray))).
  rewrite (ltb_same _ _ _ _ Sf (sameNumber_refl F32.zero)).
  rewrite (leb_not_gtb _ _ Nn Nf).
  destruct (SFltb (laneFar box ray) (laneNear box ray)); simpl;
    [reflexivity|].
  destruct (SFltb (laneNear box ray) F32.zero
            && SFltb (laneFar box ray) F32.zero); reflexivity.
Qed.

Lemma packed_box_test_agrees_with_scalar_witness :
  0 <= 1 <= 3
  /\ Forall (fun q => isNaN q = false)
       (slabQuotients
          (laneBox (boxAlongX 1 2) (boxAlongX 3 4)
                   (boxAlongX (-4) (-3)) (boxAlongX (-8) (-7)) 1)
          rayAlongX)
  /\ AABB.intersect (boxAlongX 3 4) rayAlongX = Some (zf 3).
Proof.
  assert (H1 : 0 <= 1 <= 3) by lia.
  assert (H2 : Forall (fun q => isNaN q = false)
       (slabQuotients
          (laneBox (boxAlongX 1 2) (boxAlongX 3 4)
                   (boxAlongX (-4) (-3)) (boxAlongX (-8) (-7)) 1)
          rayAlongX))
    by (vm_compute; repeat constructor).
  split; [exact H1|]. split; [exact H2|].
  exact (packed_box_test_agrees_with_scalar
           (boxAlongX 1 2) (boxAlongX 3 4)
           (boxAlongX (-4) (-3)) (boxAlongX (-8) (-7)) rayAlongX 1 H1 H2).
Defined.

(** Where a quotient is NaN the two tests part: for a ray that starts on
    a face plane of the box and runs parallel to it, the scalar test
    reports a hit at distance NaN and the packed test reports a miss. *)
Lemma box_tests_differ_on_nan :
  AABB.intersect cubeTwo rayOnFace = Some F32.nan /\
  laneHit cubeTwo rayOnFace = false /\
  V4.bget (AABB4.isHit
             (AABB4.intersect
                (AABB4.pack cubeTwo cubeTwo cubeTwo cubeTwo) rayOnFace))
          0 = false.
Proof. repeat split; vm_compute; reflexivity. Qed.

(** ** image.h: pixel stores and loads, tone mapping *)

Lemma pixel_offsets_apart (w x y x' y' : Z) :
  0 <= x <= w - 1 -> 0 <= x' <= w - 1 -> 0 <= y -> 0 <= y' ->
  x' <> x \/ y' <> y ->
  (x' + y' * w) * 3 + 3 <= (x + y * w) * 3
  \/ (x + y * w) * 3 + 3 <= (x' + y' * w) * 3.
Proof.
  intros Hx Hx' Hy Hy' Hd.
  destruct (Z.lt_trichotomy y y') as [H|[H|H]].
  - right. nia.
  - subst y'. destruct Hd as [Hd|Hd]; [|congruence]. lia.
  - left. nia.
Qed.

Lemma insert3_lookup {A} (l : list A) (i : nat) (a b c : A) :
  (S (S i) < length l)%nat ->
  let l' := <[S (S i) := c]> (<[S i := b]> (<[i := a]> l)) in
  l' !! i = Some a /\ l' !! S i = Some b /\ l' !! S (S i) = Some c /\
  forall j, (j < i \/ S (S i) < j)%nat -> l' !! j = l !! j.
Proof.
  intros H l'. subst l'. repeat split.
  - rewrite (list_lookup_insert_ne _ (S (S i)) i) by lia.
    rewrite (list_lookup_insert_ne _ (S i) i) by lia.
    apply list_lookup_insert_eq. lia.
  - rewrite (list_lookup_insert_ne _ (S (S i)) (S i)) by lia.
    apply list_lookup_insert_eq. rewrite length_insert. lia.
  - apply list_lookup_insert_eq. rewrite !length_insert. lia.
  - intros j Hj.
    rewrite (list_lookup_insert_ne _ (S (S i)) j) by lia.
    rewrite (list_lookup_insert_ne _ (S i) j) by lia.
    apply list_lookup_insert_ne. lia.
Qed.

(** X10: in a [w] x [h] RGB image, storing a colour at a pixel of the
    frame succeeds, a load from that pixel gives the colour back, and
    every other pixel of the frame keeps its colour. *)
Theorem image_rgb_store_then_load (w h : Z) (img : Image.t) (x y : Z)
    (v : Vec3) :
  1 <= w <= Int.INT_MAX -> 1 <= h <= Int.INT_MAX -> bufferOK w h img ->
  0 <= x <= w - 1 -> 0 <= y <= h - 1 ->
  exists img',
    Image.rgb_set img x y v = Some img'
    /\ bufferOK w h img'
    /\ Image.rgb img' x y = Some v
    /\ forall x' y', 0 <= x' <= w - 1 -> 0 <= y' <= h - 1 ->
         x' <> x \/ y' <> y ->
         Image.rgb img' x' y' = Image.rgb img x' y'.
Proof.
  intros Hw Hh Hok Hx Hy.
  destruct (offset_in_buffer w h img x y Hw Hh Hok Hx Hy) as [Hoff Hlen].
  unfold Image.rgb_set.
  destruct (decide _) as [_|Hn]; [|lia].
  eexists. split; [reflexivity|].
  assert (Hok' : bufferOK w h
            (Image.mk
               (<[S (S (Z.to_nat (Image.offset img x y))) := v3z v]>
                  (<[S (Z.to_nat (Image.offset img x y)) := v3y v]>
                     (<[Z.to_nat (Image.offset img x y) := v3x v]>
                        (Image._pixels img))))
               (Image._width img) (Image._height img)
               (Image._channels img))).
  { destruct Hok as (Ew & Eh & Ec & El).
    unfold bufferOK; simpl. rewrite !length_insert. auto. }
  split; [exact Hok'|].
  assert (Hoffs : forall x' y', 0 <= x' <= w - 1 -> 0 <= y' <= h - 1 ->
            Image.offset
              (Image.mk
                 (<[S (S (Z.to_nat (Image.offset img x y))) := v3z v]>
                    (<[S (Z.to_nat (Image.offset img x y)) := v3y v]>
                       (<[Z.to_nat (Image.offset img x y) := v3x v]>
                          (Image._pixels img))))
                 (Image._width img) (Image._height img)
                 (Image._channels img)) x' y'
            = Image.offset img x' y') by reflexivity.
  destruct (insert3_lookup (Image._pixels img)
              (Z.to_nat (Image.offset img x y)) (v3x v) (v3y v) (v3z v) Hlen)
    as (L0 & L1 & L2 & Lother).
  split.
  - unfold Image.rgb. rewrite (Hoffs x y Hx Hy). simpl.
    rewrite L0, L1, L2. simpl. destruct v; reflexivity.
  - intros x' y' Hx' Hy' Hd.
    destruct (offset_in_buffer w h img x' y' Hw Hh Hok Hx' Hy')
      as [Hoff' _].
    unfold Image.rgb. rewrite (Hoffs x' y' Hx' Hy'). simpl.
    pose proof (pixel_offsets_apart w x y x' y' Hx Hx' ltac:(lia)
                  ltac:(lia) Hd) as Hap.
    assert (0 <= (x + y * w) * 3) by nia.
    assert (0 <= (x' + y' * w) * 3) by nia.
    rewrite !Lother by (rewrite Hoff, Hoff'; lia). reflexivity.
Qed.

Lemma image_rgb_store_then_load_witness :
  1 <= 2 <= Int.INT_MAX /\ bufferOK 2 2 imageTwoByTwo /\ 0 <= 1 <= 2 - 1
  /\ exists img',
       Image.rgb_set imageTwoByTwo 1 1 (vz 1 2 3) = Some img'
       /\ bufferOK 2 2 img'
       /\ Image.rgb img' 1 1 = Some (vz 1 2 3)
       /\ forall x' y', 0 <= x' <= 2 - 1 -> 0 <= y' <= 2 - 1 ->
            x' <> 1 \/ y' <> 1 ->
            Image.rgb img' x' y' = Image.rgb imageTwoByTwo x' y'.
Proof.
  assert (H1 : 1 <= 2 <= Int.INT_MAX) by (unfold Int.INT_MAX; lia).
  assert (H2 : bufferOK 2 2 imageTwoByTwo) by (repeat split).
  assert (H3 : 0 <= 1 <= 2 - 1) by lia.
  split; [exact H1|]. split; [exact H2|]. split; [exact H3|].
  apply (image_rgb_store_then_load 2 2 imageTwoByTwo 1 1 (vz 1 2 3)
           H1 H1 H2 H3 H3).
Defined.

Lemma leb_of_not_ltb (a b : float) :
  isNaN a = false -> isNaN b = false ->
  F32.ltb b a = false -> F32.leb a b = true.
Proof.
  intros Ha Hb H. unfold F32.leb, F32.ltb in *.
  apply leb_true. apply ltb_false in H.
  unfold nanZ in *. rewrite Ha, Hb in *. intuition lia.
Qed.

(** X11: [toneMapping] clamps into the unit interval: the result is
    between 0 and 1 for every input that is a number, also an infinite
    one; a NaN passes through unchanged. *)
Theorem toneMapping_clamps_numbers (r : float) :
  if isNaN r then Image.toneMapping r = r
  else F32.leb F32.zero (Image.toneMapping r) = true
       /\ F32.leb (Image.toneMapping r) F32.one = true.
Proof.
  destruct (isNaN r) eqn:N.
  - destruct r; try discriminate. reflexivity.
  - unfold Image.toneMapping.
    destruct (F32.ltb r F32.zero) eqn:E1; [split; reflexivity|].
    destruct (F32.ltb F32.one r) eqn:E2; [split; reflexivity|].
    split; apply leb_of_not_ltb; try assumption; reflexivity.
Qed.

(** ** Paths: appending slices *)

Lemma appendPath_fits (p : Path.t) (other : list Vertex) :
  pathOK 0 p ->
  Path.length p + Z.of_nat (length other) <= MaxLength ->
  exists p',
    Path.appendPath p other = Some p'
    /\ pathOK 0 p'
    /\ Path.toSlice p' = Path.toSlice p ++ other
    /\ Path.length p' = Path.length p + Z.of_nat (length other).
Proof.
  unfold pathOK, Path.length, MaxLength. intros [Hlen Hrange] Hfit.
  unfold Path.appendPath.
  destruct (decide _) as [_|Hn]; [|exfalso; apply Hn; split; lia].
  eexists. split; [reflexivity|].
  assert (Hu : Int.u64 (Path._pathLength p + Z.of_nat (length other))
               = Path._pathLength p + Z.of_nat (length other))
    by (unfold Int.u64; apply Z.mod_small; lia).
  assert (Htake : length (take (Z.to_nat (Path._pathLength p))
                            (Path._path p))
                  = Z.to_nat (Path._pathLength p))
    by (rewrite length_take; lia).
  unfold Path.toSlice. simpl. rewrite Hu. repeat split.
  - rewrite !length_app, Htake, length_drop. lia.
  - lia.
  - lia.
  - rewrite app_assoc.
    rewrite take_app_length'
      by (rewrite length_app, Htake; lia).
    reflexivity.
Qed.

(** X12: [appendPath] copies the slice behind the vertices of the path:
    when the slice fits into the array the new path is the old one
    followed by the slice; when it does not, the copy runs past the end
    of the array. *)
Theorem appendPath_concatenates (p : Path.t) (other : list Vertex) :
  pathOK 0 p ->
  if decide (Path.length p + Z.of_nat (length other) <= MaxLength)
  then exists p',
         Path.appendPath p other = Some p'
         /\ pathOK 0 p'
         /\ Path.toSlice p' = Path.toSlice p ++ other
         /\ Path.length p' = Path.length p + Z.of_nat (length other)
  else Path.appendPath p other = None.
Proof.
  intros Hok. destruct (decide _) as [Hfit|Hover].
  - apply appendPath_fits; assumption.
  - unfold Path.appendPath. destruct (decide _) as [[H0 Hf]|]; [|reflexivity].
    exfalso. destruct Hok as [Hlen _]. unfold Path.length, MaxLength in *.
    lia.
Qed.

Lemma appendPath_concatenates_witness :
  pathOK 0 pathOfThree
  /\ exists p',
       Path.appendPath pathOfThree [pathV2] = Some p'
       /\ pathOK 0 p'
       /\ Path.toSlice p' = Path.toSlice pathOfThree ++ [pathV2]
       /\ Path.length p' = Path.length pathOfThree + 1.
Proof.
  assert (H : pathOK 0 pathOfThree)
    by (unfold pathOK, MaxLength; simpl; split; [reflexivity|lia]).
  split; [exact H|].
  exact (appendPath_concatenates pathOfThree [pathV2] H).
Defined.

Lemma getSlice_sub (p : Path.t) (first last : Z) :
  pathOK 0 p -> 0 <= first <= last -> last <= Path.length p ->
  Path.getSlice p first last
  = Some (take (Z.to_nat (last - first))
               (drop (Z.to_nat first) (Path.toSlice p))).
Proof.
  unfold pathOK, Path.length, MaxLength. intros [Hlen Hrange] Hf Hl.
  unfold Path.getSlice, Path.toSlice.
  destruct (decide _) as [_|Hn]; [|exfalso; apply Hn; lia].
  f_equal. rewrite skipn_firstn_comm, take_take. f_equal. lia.
Qed.

(** X13: cutting a path behind its first vertex and at any vertex [s],
    and appending the two slices to a path made of the first vertex,
    gives the path back: the way the bidirectional mutation rebuilds a
    path loses no vertex when nothing is deleted. *)
Theorem path_cut_and_rejoin (p : Path.t) (s : Z) :
  pathOK 1 p -> 1 <= s <= Path.length p ->
  exists v0 front back q1 q2,
    Path.vertex p 0 = Some v0
    /\ Path.getSlice p 1 s = Some front
    /\ Path.getSlice p s (Path.length p) = Some back
    /\ Path.appendPath (Path.single v0) front = Some q1
    /\ Path.appendPath q1 back = Some q2
    /\ Path.toSlice q2 = Path.toSlice p
    /\ Path.length q2 = Path.length p.
Proof.
  intros Hok Hs.
  assert (Hok0 : pathOK 0 p)
    by (destruct Hok as [H1 H2]; split; [exact H1|lia]).
  destruct Hok as [Hlen Hrange]. unfold Path.length, MaxLength in *.
  assert (Ep : exists v0 rest, Path._path p = v0 :: rest).
  { destruct (Path._path p) as [|v0 rest]; [discriminate|eauto]. }
  destruct Ep as (v0 & rest & Ep).
  assert (Hv0 : Path.vertex p 0 = Some v0)
    by (unfold Path.vertex; rewrite Ep; reflexivity).
  exists v0.
  rewrite (getSlice_sub p 1 s Hok0) by (unfold Path.length; lia).
  rewrite (getSlice_sub p s (Path._pathLength p) Hok0)
    by (unfold Path.length; lia).
  set (sl := Path.toSlice p).
  assert (Hsl : length sl = Z.to_nat (Path._pathLength p)).
  { unfold sl, Path.toSlice. rewrite length_take. lia. }
  assert (Hhead : take 1 sl = [v0]).
  { unfold sl, Path.toSlice. rewrite Ep.
    destruct (Z.to_nat (Path._pathLength p)) as [|n] eqn:E; [lia|].
    reflexivity. }
  set (front := take (Z.to_nat (s - 1)) (drop (Z.to_nat 1) sl)).
  set (back := take (Z.to_nat (Path._pathLength p - s))
                    (drop (Z.to_nat s) sl)).
  assert (Hfront : length front = Z.to_nat (s - 1)).
  { unfold front. rewrite length_take, length_drop. lia. }
  assert (Hback : length back = Z.to_nat (Path._pathLength p - s)).
  { unfold back. rewrite length_take, length_drop. lia. }
  assert (Hsingle : pathOK 0 (Path.single v0)).
  { unfold pathOK, Path.single, MaxLength. simpl. split; [reflexivity|lia]. }
  destruct (appendPath_fits (Path.single v0) front Hsingle)
    as (q1 & E1 & Hq1 & S1 & L1).
  { unfold Path.length, MaxLength. simpl. lia. }
  destruct (appendPath_fits q1 back Hq1) as (q2 & E2 & Hq2 & S2 & L2).
  { rewrite L1. unfold Path.length, MaxLength. simpl. lia. }
  exists front, back, q1, q2.
  repeat split; try assumption.
  - rewrite S2, S1.
    change (Path.toSlice (Path.single v0)) with [v0].
    rewrite <- Hhead. unfold front, back.
    change (Z.to_nat 1) with 1%nat.
    rewrite take_take_drop.
    replace (1 + Z.to_nat (s - 1))%nat with (Z.to_nat s) by lia.
    rewrite take_take_drop. apply take_ge. lia.
  - unfold Path.length in L1, L2. rewrite L2, L1. simpl. lia.
Qed.

Lemma path_cut_and_rejoin_witness :
  pathOK 1 pathOfThree /\ 1 <= 2 <= Path.length pathOfThree
  /\ exists v0 front back q1 q2,
       Path.vertex pathOfThree 0 = Some v0
       /\ Path.getSlice pathOfThree 1 2 = Some front
       /\ Path.getSlice pathOfThree 2 (Path.length pathOfThree) = Some back
       /\ Path.appendPath (Path.single v0) front = Some q1
       /\ Path.appendPath q1 back = Some q2
       /\ Path.toSlice q2 = Path.toSlice pathOfThree
       /\ Path.length q2 = Path.length pathOfThree.
Proof.
  assert (H1 : pathOK 1 pathOfThree)
    by (unfold pathOK, MaxLength; simpl; split; [reflexivity|lia]).
  assert (H2 : 1 <= 2 <= Path.length pathOfThree) by (simpl; lia).
  split; [exact H1|]. split; [exact H2|].
  exact (path_cut_and_rejoin pathOfThree 2 H1 H2).
Defined.

(** ** Evaluation: paths too short to carry light *)

(** X14: [evaluate] returns no radiance at all for a path of one or two
    vertices -- its loop starts at vertex 1 and stops before the last
    vertex, so an emitter that the eye ray hits directly is never
    counted -- and on an empty slice its loop bound wraps around and the
    first iteration reads outside the slice. *)
Theorem evaluate_short_path_is_black
    (si : Scene.t -> Ray -> float -> float -> option Scene.HitInfo)
    (scene : Scene.t) (path : list Vertex) :
  (1 <= length path <= 2)%nat ->
  evaluate si scene path = Some black /\
  evaluate si scene [] = None /\
  forall fuel st,
    evaluateLoop si evaluateExplicit fuel scene [] 1 st = None.
Proof.
  intros H. split; [|split; [reflexivity|]].
  - unfold evaluate, evaluateWith.
    destruct path as [|v0 [|v1 [|v2 path]]]; simpl in H; try lia;
      reflexivity.
  - intros [|fuel] st; reflexivity.
Qed.

Lemma evaluate_short_path_is_black_witness :
  (1 <= length pathEyeToEmitter <= 2)%nat
  /\ vertexEmission sceneTwoMaterials pathV1 = Some (V3.splat F32.one)
  /\ evaluate neverHit sceneTwoMaterials pathEyeToEmitter = Some black
  /\ evaluate neverHit sceneTwoMaterials [] = None
  /\ forall fuel st,
       evaluateLoop neverHit evaluateExplicit fuel
         sceneTwoMaterials [] 1 st = None.
Proof.
  assert (H : (1 <= length pathEyeToEmitter <= 2)%nat) by (simpl; lia).
  split; [exact H|]. split; [vm_compute; reflexivity|].
  exact (evaluate_short_path_is_black neverHit sceneTwoMaterials
           pathEyeToEmitter H).
Defined.

(** ** Textures: reads stay inside the image *)

Lemma offset_in_image (w h c : Z) (img : Image.t) (x y : Z) :
  1 <= w <= Int.INT_MAX -> 1 <= h <= Int.INT_MAX -> 1 <= c <= 4 ->
  imageOK w h c img -> 0 <= x <= w - 1 -> 0 <= y <= h - 1 ->
  Image.offset img x y = (x + y * w) * c.
Proof.
  unfold Int.INT_MAX. intros Hw Hh Hc (Ew & Eh & Ec & El) Hx Hy.
  unfold Image.offset, Int.u64. rewrite Ew, Ec.
  rewrite (Z.mod_small (y * w)) by nia.
  rewrite (Z.mod_small (x + y * w)) by nia.
  rewrite (Z.mod_small c) by lia.
  apply Z.mod_small.
  assert (Hp : 0 <= x + y * w < 2 ^ 62) by nia.
  split; [nia|].
  apply Z.le_lt_trans with ((x + y * w) * 4); [nia|lia].
Qed.

Lemma rgb_in_image (w h c : Z) (img : Image.t) (x y : Z) :
  1 <= w <= Int.INT_MAX -> 1 <= h <= Int.INT_MAX -> 3 <= c <= 4 ->
  imageOK w h c img -> 0 <= x <= w - 1 -> 0 <= y <= h - 1 ->
  is_Some (Image.rgb img x y).
Proof.
  intros Hw Hh Hc Hok Hx Hy.
  pose proof (offset_in_image w h c img x y Hw Hh ltac:(lia) Hok Hx Hy)
    as Hoff.
  destruct Hok as (Ew & Eh & Ec & El). unfold Image.rgb. rewrite Hoff.
  set (i := Z.to_nat ((x + y * w) * c)).
  assert (Hp : 0 <= x + y * w /\ x + y * w + 1 <= w * h) by nia.
  assert (Hz : (x + y * w) * c + c <= w * h * c) by nia.
  assert (Hi : (S (S i) < length (Image._pixels img))%nat)
    by (unfold i; nia).
  destruct (lookup_lt_is_Some_2 (Image._pixels img) i) as [r Hr]; [lia|].
  destruct (lookup_lt_is_Some_2 (Image._pixels img) (S i)) as [g Hg]; [lia|].
  destruct (lookup_lt_is_Some_2 (Image._pixels img) (S (S i))) as [b Hb];
    [lia|].
  rewrite Hr, Hg, Hb. simpl. eexists; reflexivity.
Qed.

(** X15: for a texture whose image is empty or holds RGB or RGBA pixels,
    [sampleTexture] returns a colour for every texture coordinate --
    negative, huge or NaN: the texel it reads always lies inside the
    image. *)
Theorem sampleTexture_reads_inside_image (scene : Scene.t) (i : Z)
    (textureCoord : Vec2) :
  textureOK scene i ->
  is_Some (Scene.sampleTexture scene i textureCoord).
Proof.
  intros (tex & img & Ht & Hi & Himg). unfold Scene.sampleTexture.
  rewrite Ht. simpl. rewrite Hi. simpl.
  destruct Himg as [Hempty|(w & h & c & Hw & Hh & Hc & Hok)].
  - unfold Image.empty. rewrite Hempty. eexists; reflexivity.
  - pose proof Hok as (Ew & Eh & Ec & El).
    unfold Image.empty.
    destruct (Image._pixels img) as [|p ps] eqn:Ep; [simpl in El; nia|].
    rewrite Ew, Eh.
    destruct (w =? 0) eqn:E1; [lia|]. destruct (h =? 0) eqn:E2; [lia|].
    simpl.
    pose proof (texel_in_range (v2x textureCoord) w ltac:(lia)).
    pose proof (texel_in_range (v2y textureCoord) h ltac:(lia)).
    apply (rgb_in_image w h c img); try assumption; lia.
Qed.

Lemma sampleTexture_reads_inside_image_witness :
  textureOK sceneOneTexture 0
  /\ is_Some (Scene.sampleTexture sceneOneTexture 0
                (mkVec2 F32.nan minusHalf)).
Proof.
  assert (H : textureOK sceneOneTexture 0).
  { exists (mkTexture 0), imageThreeTexels.
    split; [reflexivity|]. split; [reflexivity|]. right.
    exists 3, 1, 3. unfold Int.INT_MAX, imageOK. simpl.
    repeat split; lia. }
  split; [exact H|].
  apply (sampleTexture_reads_inside_image sceneOneTexture 0
           (mkVec2 F32.nan minusHalf) H).
Defined.

(** X16: in an image with one or two floats per pixel, as a greyscale
    texture is loaded, [rgb] at the last pixel reads three floats that
    reach past the end of the pixel vector. *)
Theorem rgb_reads_past_narrow_image (w h c : Z) (img : Image.t) :
  1 <= w <= Int.INT_MAX -> 1 <= h <= Int.INT_MAX -> 1 <= c <= 2 ->
  imageOK w h c img ->
  Image.valid img (w - 1) (h - 1) = true
  /\ Image.rgb img (w - 1) (h - 1) = None.
Proof.
  intros Hw Hh Hc Hok.
  pose proof (offset_in_image w h c img (w - 1) (h - 1) Hw Hh
                ltac:(lia) Hok ltac:(lia) ltac:(lia)) as Hoff.
  destruct Hok as (Ew & Eh & Ec & El). split.
  - unfold Image.valid. rewrite Ew, Eh.
    repeat (apply andb_true_intro; split); lia.
  - unfold Image.rgb. rewrite Hoff.
    set (i := Z.to_nat ((w - 1 + (h - 1) * w) * c)).
    assert (Hp : w - 1 + (h - 1) * w = w * h - 1) by lia.
    assert (Hwh : 1 <= w * h) by nia.
    assert (Hz : 0 <= (w * h - 1) * c /\ w * h * c = (w * h - 1) * c + c)
      by (split; [apply Z.mul_nonneg_nonneg; lia|ring]).
    assert (Hi : (length (Image._pixels img) <= S (S i))%nat)
      by (unfold i; rewrite Hp; lia).
    destruct (Image._pixels img !! i) as [r|]; [simpl|reflexivity].
    destruct (Image._pixels img !! S i) as [g|]; [simpl|reflexivity].
    rewrite (lookup_ge_None_2 _ (S (S i))) by lia. reflexivity.
Qed.

Lemma rgb_reads_past_narrow_image_witness :
  1 <= 2 <= Int.INT_MAX /\ 1 <= 1 <= Int.INT_MAX /\ 1 <= 1 <= 2
  /\ imageOK 2 1 1 imageGrey
  /\ Image.valid imageGrey (2 - 1) (1 - 1) = true
  /\ Image.rgb imageGrey (2 - 1) (1 - 1) = None.
Proof.
  assert (H1 : 1 <= 2 <= Int.INT_MAX) by (unfold Int.INT_MAX; lia).
  assert (H2 : 1 <= 1 <= Int.INT_MAX) by (unfold Int.INT_MAX; lia).
  assert (H3 : 1 <= 1 <= 2) by lia.
  assert (H4 : imageOK 2 1 1 imageGrey) by (repeat split).
  split; [exact H1|]. split; [exact H2|]. split; [exact H3|].
  split; [exact H4|].
  apply (rgb_reads_past_narrow_image 2 1 1 imageGrey H1 H2 H3 H4).
Defined.

(** ** AABB4: packing four boxes *)

(** X17: the four lanes of a packed box behave as four boxes: [getMin],
    [getMax] and [getSize] of [AABB4(a, b, c, d)] are those of the box
    in the lane, and after [fit(i, point)] lane [i] holds [AABB::fit] of
    its box while the other lanes are as before. *)
Theorem aabb4_lanes_behave_as_boxes (a b c d : AABB.t) (point : Vec3)
    (i k axis : Z) :
  0 <= i <= 3 -> 0 <= k <= 3 -> 0 <= axis <= 2 ->
  let fitted := AABB4.fit (AABB4.pack a b c d) i point in
  let box := if k =? i then AABB.fit (laneBox a b c d i) point
             else laneBox a b c d k in
  AABB4.getMin (AABB4.pack a b c d) k axis
    = AABB.getMin (laneBox a b c d k) axis /\
  AABB4.getMax (AABB4.pack a b c d) k axis
    = AABB.getMax (laneBox a b c d k) axis /\
  AABB4.getSize (AABB4.pack a b c d) k axis
    = AABB.getSize (laneBox a b c d k) axis /\
  AABB4.getMin fitted k axis = AABB.getMin box axis /\
  AABB4.getMax fitted k axis = AABB.getMax box axis /\
  AABB4.getSize fitted k axis = AABB.getSize box axis.
Proof.
  intros Hi Hk Ha.
  assert (Hic : i = 0 \/ i = 1 \/ i = 2 \/ i = 3) by lia.
  assert (Hkc : k = 0 \/ k = 1 \/ k = 2 \/ k = 3) by lia.
  assert (Hac : axis = 0 \/ axis = 1 \/ axis = 2) by lia.
  destruct Hic as [-> | [-> | [-> | ->]]];
    destruct Hkc as [-> | [-> | [-> | ->]]];
    destruct Hac as [-> | [-> | ->]]; repeat split; reflexivity.
Qed.

Lemma aabb4_lanes_behave_as_boxes_witness :
  0 <= 2 <= 3 /\ 0 <= 0 <= 2
  /\ AABB4.getMin (BVHData.childBounds nodeTwoAhead) 2 0 = zf (-4)
  /\ AABB4.getMax (BVHData.childBounds nodeTwoAhead) 2 0 = zf (-3)
  /\ AABB4.getSize (BVHData.childBounds nodeTwoAhead) 2 0 = zf 1
  /\ AABB4.getMin
       (AABB4.fit (BVHData.childBounds nodeTwoAhead) 2 (vz (-5) 0 0)) 2 0
     = zf (-5)
  /\ AABB4.getMax
       (AABB4.fit (BVHData.childBounds nodeTwoAhead) 2 (vz (-5) 0 0)) 2 0
     = zf (-3)
  /\ AABB4.getSize
       (AABB4.fit (BVHData.childBounds nodeTwoAhead) 2 (vz (-5) 0 0)) 2 0
     = zf 2.
Proof.
  assert (H1 : 0 <= 2 <= 3) by lia.
  assert (H2 : 0 <= 0 <= 2) by lia.
  split; [exact H1|]. split; [exact H2|].
  exact (aabb4_lanes_behave_as_boxes
           (boxAlongX 1 2) (boxAlongX 3 4)
           (boxAlongX (-4) (-3)) (boxAlongX (-8) (-7)) (vz (-5) 0 0)
           2 2 0 H1 H1 H2).
Defined.

(** ** The traversal stack *)

Lemma stack_nonempty (s : BVH.TraversalStack) :
  stackOK 0 s -> BVH._size s <> 0 ->
  exists rest e,
    contents s = rest ++ [e]
    /\ BVH.top s = Some e
    /\ contents (BVH.pop s) = rest
    /\ stackOK 1 (BVH.pop s).
Proof.
  unfold stackOK, contents, BVH.top, BVH.pop. intros [Hsz Hmax] Hne. simpl.
  assert (Hu : Int.u64 (BVH._size s - 1) = BVH._size s - 1)
    by (unfold Int.u64; apply Z.mod_small; lia).
  rewrite Hu.
  destruct (lookup_lt_is_Some_2 (BVH._data s) (Z.to_nat (BVH._size s - 1)))
    as [e He]; [lia|].
  exists (take (Z.to_nat (BVH._size s - 1)) (BVH._data s)), e.
  split; [|split; [|split]].
  - replace (Z.to_nat (BVH._size s)) with (S (Z.to_nat (BVH._size s - 1)))
      by lia.
    apply take_S_r. exact He.
  - rewrite at_lookup by lia. exact He.
  - reflexivity.
  - lia.
Qed.

(** X18: the traversal stack is last-in-first-out: after a push, [top] is
    the entry pushed and the stack is not empty, a pop gives back the
    entries that were live before, and the vector behind the stack never
    shrinks. *)
Theorem traversal_stack_is_lifo (s : BVH.TraversalStack)
    (e : BVH.StackInfo) :
  stackOK 1 s ->
  BVH.top (BVH.push s e) = Some e
  /\ BVH.empty (BVH.push s e) = false
  /\ contents (BVH.pop (BVH.push s e)) = contents s
  /\ (length (BVH._data s) <= length (BVH._data (BVH.pop (BVH.push s e))))%nat.
Proof.
  intros Hok.
  destruct (push_contents 0 s e ltac:(lia) Hok) as [Hc Hok'].
  assert (Hsize : BVH._size (BVH.push s e) = BVH._size s + 1).
  { destruct Hok as [Hsz Hmax]. unfold BVH.push. simpl.
    unfold Int.u64. apply Z.mod_small. lia. }
  assert (Hne : BVH._size (BVH.push s e) <> 0)
    by (destruct Hok as [Hsz _]; lia).
  destruct (stack_nonempty (BVH.push s e) Hok' Hne)
    as (rest & e' & Hc' & Htop & Hpop & _).
  rewrite Hc in Hc'. apply app_inj_tail in Hc'. destruct Hc' as [<- <-].
  split; [exact Htop|]. split; [|split; [exact Hpop|]].
  - unfold BVH.empty. apply Z.eqb_neq. exact Hne.
  - unfold BVH.pop, BVH.push. simpl.
    destruct (BVH._size s <? Z.of_nat (length (BVH._data s)));
      [rewrite length_insert|rewrite length_app; simpl]; lia.
Qed.

Lemma traversal_stack_is_lifo_witness :
  stackOK 1 BVH.emptyStack
  /\ BVH.top (BVH.push BVH.emptyStack (BVH.mkStackInfo 0 F32.zero))
     = Some (BVH.mkStackInfo 0 F32.zero)
  /\ BVH.empty (BVH.push BVH.emptyStack (BVH.mkStackInfo 0 F32.zero))
     = false
  /\ contents (BVH.pop (BVH.push BVH.emptyStack
                          (BVH.mkStackInfo 0 F32.zero)))
     = contents BVH.emptyStack
  /\ (length (BVH._data BVH.emptyStack)
      <= length (BVH._data
                   (BVH.pop (BVH.push BVH.emptyStack
                               (BVH.mkStackInfo 0 F32.zero)))))%nat.
Proof.
  assert (H : stackOK 1 BVH.emptyStack) by (unfold stackOK; simpl; lia).
  split; [exact H|].
  apply (traversal_stack_is_lifo BVH.emptyStack
           (BVH.mkStackInfo 0 F32.zero) H).
Defined.

(** ** BVH traversal: a reported hit is a triangle hit *)

Lemma intersectLeaf_sound (bvh : BVHData.t) (ray : Ray) (mn mx : float)
    (n : nat) :
  forall (i : Z) (c r : option BVH.HitInfo),
  hitFromTriangle bvh ray mn mx c ->
  BVH.intersectLeaf n bvh ray mn mx i c = Some r ->
  hitFromTriangle bvh ray mn mx r.
Proof.
  induction n as [|n IH]; intros i c r Hc H; simpl in H.
  - injection H as <-. exact Hc.
  - destruct (at_ (BVHData.triangles bvh) i) as [tri|] eqn:Et;
      [|discriminate].
    simpl in H. eapply IH; [|exact H].
    assert (Hin : In tri (BVHData.triangles bvh)).
    { unfold at_ in Et. destruct (0 <=? i); [|discriminate].
      apply list_elem_of_In. eapply list_elem_of_lookup_2. exact Et. }
    destruct (BVH.doesRayIntersectTriangle ray tri mn mx) as [h|] eqn:Eh;
      [|exact Hc].
    assert (Hh : fromTriangle bvh ray mn mx h) by (exists tri; auto).
    destruct c as [c|]; [|exact Hh].
    destruct (F32.ltb _ _); [exact Hh|exact Hc].
Qed.

Lemma traverse_sound (bvh : BVHData.t) (ray : Ray) (mn mx : float)
    (fuel : nat) :
  forall (stack stack' : BVH.TraversalStack) (c r : option BVH.HitInfo),
  hitFromTriangle bvh ray mn mx c ->
  BVH.traverse fuel bvh ray mn mx stack c = Some (r, stack') ->
  hitFromTriangle bvh ray mn mx r.
Proof.
  induction fuel as [|fuel IH]; intros stack stack' c r Hc H; simpl in H.
  - destruct (BVH.empty stack); [|discriminate].
    injection H as <- _. exact Hc.
  - destruct (BVH.empty stack).
    { injection H as <- _. exact Hc. }
    destruct (BVH.top stack) as [info|]; [|discriminate]. simpl in H.
    destruct (match c with
              | Some c0 => F32.ltb (BVH.distance c0) (BVH.s_distance info)
              | None => false
              end).
    { eapply IH; eassumption. }
    destruct (at_ (BVHData.nodes bvh) (BVH.s_idx info)) as [node|];
      [|discriminate].
    simpl in H. destruct (BVHData.isLeaf node).
    + destruct (BVH.intersectLeaf _ bvh ray mn mx _ c) as [c'|] eqn:El;
        [|discriminate].
      simpl in H. eapply IH; [|exact H].
      eapply intersectLeaf_sound; eassumption.
    + eapply IH; eassumption.
Qed.

Lemma triangle_hit_in_range (ray : Ray) (tri : BVHData.Triangle)
    (mn mx : float) (h : BVH.HitInfo) :
  BVH.doesRayIntersectTriangle ray tri mn mx = Some h ->
  BVH.triangleIdx h = BVHData.tidx tri
  /\ F32.ltb (BVH.distance h) mn = false
  /\ F32.gtb (BVH.distance h) mx = false.
Proof.
  unfold BVH.doesRayIntersectTriangle.
  destruct (BVHData.positions tri) as [[p0 p1] p2].
  destruct (F32.ltb _ BVH.TriangleEpsilon); [discriminate|].
  destruct (_ || _); [discriminate|].
  destruct (_ || _); [discriminate|].
  destruct (F32.ltb _ mn) eqn:E1; [discriminate|].
  destruct (F32.gtb _ mx) eqn:E2; [discriminate|].
  simpl. intros H. injection H as <-. simpl. auto.
Qed.

(** X19: a hit that [BVH::intersect] reports is the answer of the
    triangle test for one of the triangles of the BVH: its index is that
    triangle's mesh index, and its distance is neither below
    [minDistance] nor above [maxDistance]. *)
Theorem bvh_intersect_reports_triangle_hits (fuel : nat) (bvh : BVHData.t)
    (ray : Ray) (minDistance maxDistance : float)
    (stack stack' : BVH.TraversalStack) (h : BVH.HitInfo) :
  BVH.intersect fuel bvh ray minDistance maxDistance stack
    = Some (Some h, stack') ->
  exists tri,
    In tri (BVHData.triangles bvh)
    /\ BVH.doesRayIntersectTriangle ray tri minDistance maxDistance = Some h
    /\ BVH.triangleIdx h = BVHData.tidx tri
    /\ F32.ltb (BVH.distance h) minDistance = false
    /\ F32.gtb (BVH.distance h) maxDistance = false.
Proof.
  unfold BVH.intersect. intros H.
  destruct (AABB.intersect _ ray) as [d|]; [|discriminate].
  pose proof (traverse_sound bvh ray minDistance maxDistance fuel _ _
                None (Some h) I H) as (tri & Hin & Hh).
  exists tri. split; [exact Hin|]. split; [exact Hh|].
  eapply triangle_hit_in_range. exact Hh.
Qed.

Lemma bvh_intersect_reports_triangle_hits_witness :
  BVH.intersect 1 bvhOneTriangle rayDown F32.zero FLT_MAX BVH.emptyStack
    = Some (Some hitDown,
            BVH.mkStack [BVH.mkStackInfo 0 (zf 1)] 0)
  /\ exists tri,
       In tri (BVHData.triangles bvhOneTriangle)
       /\ BVH.doesRayIntersectTriangle rayDown tri F32.zero FLT_MAX
          = Some hitDown
       /\ BVH.triangleIdx hitDown = BVHData.tidx tri
       /\ F32.ltb (BVH.distance hitDown) F32.zero = false
       /\ F32.gtb (BVH.distance hitDown) FLT_MAX = false.
Proof.
  assert (H : BVH.intersect 1 bvhOneTriangle rayDown F32.zero FLT_MAX
                BVH.emptyStack
              = Some (Some hitDown,
                      BVH.mkStack [BVH.mkStackInfo 0 (zf 1)] 0))
    by (vm_compute; reflexivity).
  split; [exact H|].
  apply (bvh_intersect_reports_triangle_hits 1 bvhOneTriangle rayDown
           F32.zero FLT_MAX BVH.emptyStack _ hitDown H).
Defined.

(** ** BVH construction: the triangles are kept, the tree is laid out *)

Section Layout.
Import BVHData.

Lemma swap_perm {A} (v : list A) (i j : nat) : BVH.swap v i j ≡ₚ v.
Proof.
  unfold BVH.swap. destruct (v !! i) as [a|] eqn:Ei; [|reflexivity].
  destruct (v !! j) as [b|] eqn:Ej; [|reflexivity].
  apply Permutation_insert_swap; assumption.
Qed.

Lemma partition_perm (axis : Z) (pos : float) (idxs : list nat)
    (acc : list Triangle * list Vec3 * nat) :
  fst (fst (fold_left (BVH.partitionStep axis pos) idxs acc))
  ≡ₚ fst (fst acc).
Proof.
  apply (fold_left_inv (fun a => fst (fst a) ≡ₚ fst (fst acc))).
  - reflexivity.
  - intros [[tris centers] k] i H. unfold BVH.partitionStep.
    destruct (centers !! i) as [c|]; [|exact H].
    destruct (F32.ltb (V3.get c axis) pos); [|exact H].
    simpl in *. rewrite swap_perm. exact H.
Qed.

Lemma trySplitAndPartition_perm (gs gm : Z -> float) (first n : Z)
    (tris : list Triangle) (centers : list Vec3) (best : float) :
  snd (fst (BVH.trySplitAndPartition gs gm first n tris centers best))
  ≡ₚ tris.
Proof.
  unfold BVH.trySplitAndPartition.
  set (tin := take (Z.to_nat n) (drop (Z.to_nat first) tris)).
  set (cin := take (Z.to_nat n) (drop (Z.to_nat first) centers)).
  destruct (BVH.searchSplit gs gm tin cin best) as [s|]; [|reflexivity].
  pose proof (partition_perm (BVH.axis s) (BVH.position s)
                (seq 0 (length tin)) (tin, cin, 0%nat)) as Hp.
  destruct (fold_left _ (seq 0 (length tin)) (tin, cin, 0%nat))
    as [[tris' centers'] k]. simpl in *.
  rewrite Hp. unfold tin.
  rewrite <- (take_drop (Z.to_nat first) tris) at 4.
  apply Permutation_app_head.
  rewrite <- (take_drop (Z.to_nat n) (drop (Z.to_nat first) tris)) at 2.
  rewrite drop_drop. reflexivity.
Qed.
End Layout.

Section SplitLayout.
Import BVHData.
Variable C : Z.
Hypothesis C_range : 1 <= C < 2 ^ 31.
Variable rootBounds : AABB.t.

Lemma splitLayout_same_nodes (T R : nat -> Z) (st : BVH.Build)
    (tris : list Triangle) (centers : list Vec3) :
  tris ≡ₚ BVH.b_triangles st -> layoutOK T R (BVH.b_nodes st) ->
  splitLayout T R st (BVH.mkBuild tris centers (BVH.b_nodes st)).
Proof.
  intros Hp Hl. split; [exact Hp|]. exists T, R. simpl. split; [exact Hl|].
  intros j _. split; reflexivity.
Qed.

Lemma extend_old (L v0 v1 v2 v3 : Z) (f : nat -> Z) (j : nat) :
  Z.of_nat j < L -> extend L v0 v1 v2 v3 f j = f j.
Proof.
  intros H. unfold extend.
  destruct (Z.eqb_spec (Z.of_nat j) L); [lia|].
  destruct (Z.eqb_spec (Z.of_nat j) (L + 1)); [lia|].
  destruct (Z.eqb_spec (Z.of_nat j) (L + 2)); [lia|].
  destruct (Z.eqb_spec (Z.of_nat j) (L + 3)); [lia|]. reflexivity.
Qed.

Lemma extend_new (L v0 v1 v2 v3 : Z) (f : nat -> Z) :
  0 <= L ->
  extend L v0 v1 v2 v3 f (Z.to_nat (L + 0)) = v0 /\
  extend L v0 v1 v2 v3 f (Z.to_nat (L + 1)) = v1 /\
  extend L v0 v1 v2 v3 f (Z.to_nat (L + 2)) = v2 /\
  extend L v0 v1 v2 v3 f (Z.to_nat (L + 3)) = v3.
Proof.
  intros H. unfold extend. rewrite !Z2Nat.id by lia.
  repeat split;
    repeat match goal with
    | |- context [?x =? ?y] => destruct (Z.eqb_spec x y); try lia
    end; reflexivity.
Qed.

Lemma split_layout (fuel : nat) :
  forall (st : BVH.Build) (parent : option Z) (childIdx nodeIdx : Z)
         (cost : float) (nd : Node) (T R : nat -> Z),
  buildOK C st ->
  targetOf st parent childIdx nodeIdx ->
  0 <= nodeIdx ->
  BVH.b_nodes st !! Z.to_nat nodeIdx = Some nd ->
  1 <= numTriangles nd < Z.of_nat fuel ->
  3 * Z.of_nat (length (BVH.b_nodes st)) + 4 * numTriangles nd
    <= nodeBudget ->
  layoutOK T R (BVH.b_nodes st) ->
  exists st',
    BVH.split fuel rootBounds parent childIdx cost st = Some st'
    /\ splitPost C nodeIdx (numTriangles nd) st st'
    /\ splitLayout T R st st'.
Proof.
  unfold nodeBudget.
  induction fuel as [|fuel IH];
    intros st parent childIdx nodeIdx cost nd T R Hok Htarget Hidx0 Hnd Hn
           Hbudget Hlay; [lia|].
  pose proof Hok as (Htris & Hcenters & Hnodes).
  assert (Hlen : (Z.to_nat nodeIdx < length (BVH.b_nodes st))%nat)
    by (eapply lookup_lt_Some; exact Hnd).
  assert (HndOK : nodeOK C (length (BVH.b_nodes st)) nd).
  { rewrite Forall_forall in Hnodes. apply Hnodes.
    eapply list_elem_of_lookup_2. exact Hnd. }
  destruct HndOK as (Hi0 & _ & _ & Hrange).
  specialize (Hrange ltac:(lia)).
  destruct (Hlay _ _ Hnd) as (HT1 & HTleaf & _).
  destruct (HTleaf ltac:(lia)) as [HTn HRn].
  set (L := Z.of_nat (length (BVH.b_nodes st))) in *.
  cbn [BVH.split].
  assert (Hnode :
    match parent with
    | Some p =>
        at_ (BVH.b_nodes st) p
        ≫= λ parent0 : Node, Some (Int.u32 (idx parent0 + childIdx))
    | None => Some 0
    end = Some nodeIdx).
  { destruct parent as [p|]; simpl in Htarget.
    - destruct Htarget as (Hp & pn & Hpn & ->).
      rewrite at_lookup, Hpn by exact Hp. simpl.
      rewrite u32_small by lia. reflexivity.
    - subst nodeIdx. reflexivity. }
  rewrite Hnode. cbn [mbind option_bind].
  rewrite at_lookup, Hnd by exact Hidx0. cbn [mbind option_bind].
  unfold BVH.MaxNumTrianglesInLeaf.
  destruct (numTriangles nd <=? 4) eqn:Hsmall.
  { exists st. split; [reflexivity|]. destruct st as [t c ns]. split.
    - apply splitPost_same_nodes; simpl in *; (assumption || lia).
    - apply splitLayout_same_nodes; [reflexivity|exact Hlay]. }
  apply Z.leb_gt in Hsmall.
  assert (Hbounds : exists bounds,
    match parent with
    | Some p =>
        at_ (BVH.b_nodes st) p
        ≫= λ parent0 : Node,
             Some
               (λ axis : Z,
                  AABB4.getSize (childBounds parent0) childIdx axis,
                λ axis : Z,
                  AABB4.getMin (childBounds parent0) childIdx axis)
    | None => Some (AABB.getSize rootBounds, AABB.getMin rootBounds)
    end = Some bounds).
  { destruct parent as [p|]; simpl in Htarget; [|eauto].
    destruct Htarget as (Hp & pn & Hpn & _).
    rewrite at_lookup, Hpn by exact Hp. simpl. eauto. }
  destruct Hbounds as [bounds ->]. cbn [mbind option_bind].
  (* the initial split *)
  pose proof (trySplitAndPartition_spec bounds.1 bounds.2 (idx nd)
                (numTriangles nd) (BVH.b_triangles st) (BVH.b_centers st)
                cost C Htris Hcenters ltac:(lia) ltac:(lia) ltac:(lia)
                ltac:(lia)) as H1.
  pose proof (trySplitAndPartition_perm bounds.1 bounds.2 (idx nd)
                (numTriangles nd) (BVH.b_triangles st) (BVH.b_centers st)
                cost) as P1.
  destruct (BVH.trySplitAndPartition bounds.1 bounds.2 (idx nd)
              (numTriangles nd) (BVH.b_triangles st) (BVH.b_centers st)
              cost) as [[initial tris] centers].
  cbn [fst snd] in H1, P1. destruct H1 as (Ht1 & Hc1 & Hp1).
  destruct initial as [initial|];
    [|eexists; split; [reflexivity|]; split;
      [apply splitPost_same_nodes; (assumption || lia)
      |apply splitLayout_same_nodes; assumption]].
  destruct Hp1 as (Hnl & Hnr & Hsum).
  (* the left split *)
  rewrite (u32_small (BVH.numLeft initial)) by lia.
  pose proof (trySplitAndPartition_spec
                (AABB.getSize (BVH.leftBBox initial))
                (AABB.getMin (BVH.leftBBox initial)) (idx nd)
                (BVH.numLeft initial) tris centers
                cost C Ht1 Hc1 ltac:(lia) ltac:(lia) ltac:(lia)
                ltac:(lia)) as H2.
  pose proof (trySplitAndPartition_perm
                (AABB.getSize (BVH.leftBBox initial))
                (AABB.getMin (BVH.leftBBox initial)) (idx nd)
                (BVH.numLeft initial) tris centers cost) as P2.
  destruct (BVH.trySplitAndPartition
              (AABB.getSize (BVH.leftBBox initial))
              (AABB.getMin (BVH.leftBBox initial)) (idx nd)
              (BVH.numLeft initial) tris centers cost)
    as [[bestLeft tris2] centers2].
  cbn [fst snd] in H2, P2. destruct H2 as (Ht2 & Hc2 & Hp2).
  rewrite P1 in P2.
  destruct bestLeft as [bestLeft|];
    [|eexists; split; [reflexivity|]; split;
      [apply splitPost_same_nodes; (assumption || lia)
      |apply splitLayout_same_nodes; assumption]].
  destruct Hp2 as (Ha & Hb & Hab).
  (* the right split *)
  rewrite (u32_small (idx nd + BVH.numLeft initial)) by lia.
  rewrite (u32_small (BVH.numRight initial)) by lia.
  pose proof (trySplitAndPartition_spec
                (AABB.getSize (BVH.rightBBox initial))
                (AABB.getMin (BVH.rightBBox initial))
                (idx nd + BVH.numLeft initial)
                (BVH.numRight initial) tris2 centers2
                cost C Ht2 Hc2 ltac:(lia) ltac:(lia) ltac:(lia)
                ltac:(lia)) as H3.
  pose proof (trySplitAndPartition_perm
                (AABB.getSize (BVH.rightBBox initial))
                (AABB.getMin (BVH.rightBBox initial))
                (idx nd + BVH.numLeft initial)
                (BVH.numRight initial) tris2 centers2 cost) as P3.
  destruct (BVH.trySplitAndPartition
              (AABB.getSize (BVH.rightBBox initial))
              (AABB.getMin (BVH.rightBBox initial))
              (idx nd + BVH.numLeft initial)
              (BVH.numRight initial) tris2 centers2 cost)
    as [[bestRight tris3] centers3].
  cbn [fst snd] in H3, P3. destruct H3 as (Ht3 & Hc3 & Hp3).
  rewrite P2 in P3.
  destruct bestRight as [bestRight|];
    [|eexists; split; [reflexivity|]; split;
      [apply splitPost_same_nodes; (assumption || lia)
      |apply splitLayout_same_nodes; assumption]].
  destruct Hp3 as (Hc & Hd & Hcd).
  destruct (F32.gtb _ cost);
    [eexists; split; [reflexivity|]; split;
     [apply splitPost_same_nodes; (assumption || lia)
     |apply splitLayout_same_nodes; assumption]|].
  (* the four children *)
  set (a := BVH.numLeft bestLeft) in *.
  set (b := BVH.numRight bestLeft) in *.
  set (c := BVH.numLeft bestRight) in *.
  set (d := BVH.numRight bestRight) in *.
  fold L. rewrite (u32_small L) by lia.
  rewrite (u32_small a), (u32_small b), (u32_small c), (u32_small d)
    by lia.
  rewrite (u32_small (idx nd + a)) by lia.
  rewrite (u32_small (idx nd + a + b)) by lia.
  rewrite (u32_small (idx nd + a + b + c)) by lia.
  set (inner := mkNode _ L 0).
  set (leaves := [BVH.leafNode (idx nd) a; BVH.leafNode (idx nd + a) b;
                  BVH.leafNode (idx nd + a + b) c;
                  BVH.leafNode (idx nd + a + b + c) d]).
  set (nodes1 := <[Z.to_nat nodeIdx := inner]> (BVH.b_nodes st ++ leaves)).
  assert (Hlen1 : length nodes1 = (length (BVH.b_nodes st) + 4)%nat).
  { unfold nodes1. rewrite length_insert, length_app. reflexivity. }
  assert (Hinner1 : nodes1 !! Z.to_nat nodeIdx = Some inner).
  { unfold nodes1. apply list_lookup_insert_eq.
    rewrite length_app. simpl. lia. }
  assert (Hleaf : forall k : Z,
            0 <= k < 4 ->
            nodes1 !! Z.to_nat (L + k) = leaves !! Z.to_nat k).
  { intros k Hk. unfold nodes1.
    rewrite list_lookup_insert_ne by lia.
    rewrite lookup_app_r by lia. f_equal. lia. }
  assert (Hold : forall j : nat,
            (j < length (BVH.b_nodes st))%nat -> j <> Z.to_nat nodeIdx ->
            nodes1 !! j = BVH.b_nodes st !! j).
  { intros j Hj Hne. unfold nodes1.
    rewrite list_lookup_insert_ne by lia.
    apply lookup_app_l. exact Hj. }
  assert (Hok1 : buildOK C (BVH.mkBuild tris3 centers3 nodes1)).
  { split; [exact Ht3|]. split; [exact Hc3|]. simpl. rewrite Hlen1.
    unfold nodes1. apply Forall_insert.
    - apply Forall_app. split.
      + eapply Forall_impl; [exact Hnodes|]. intros x Hx.
        eapply nodeOK_mono; [|exact Hx]. lia.
      + unfold leaves, BVH.leafNode.
        repeat (apply Forall_cons; split;
                [unfold nodeOK; simpl; lia|]).
        apply Forall_nil. exact I.
    - unfold inner, nodeOK. simpl. fold L. lia. }
  (* the layout of the new nodes *)
  set (T1 := extend L a b c d T).
  set (R1 := extend L (idx nd) (idx nd + a) (idx nd + a + b)
                    (idx nd + a + b + c) R).
  destruct (extend_new L a b c d T ltac:(lia)) as (TN0 & TN1 & TN2 & TN3).
  destruct (extend_new L (idx nd) (idx nd + a) (idx nd + a + b)
              (idx nd + a + b + c) R ltac:(lia))
    as (RN0 & RN1 & RN2 & RN3).
  fold T1 in TN0, TN1, TN2, TN3. fold R1 in RN0, RN1, RN2, RN3.
  assert (Hlay1 : layoutOK T1 R1 nodes1).
  { intros j ndj Hj.
    assert (Hjlen : (j < length nodes1)%nat)
      by (eapply lookup_lt_Some; exact Hj).
    destruct (Nat.eq_dec j (Z.to_nat nodeIdx)) as [->|Hne].
    - rewrite Hinner1 in Hj. injection Hj as <-.
      unfold T1, R1. rewrite !extend_old by lia.
      fold T1 R1. cbn [numTriangles idx inner].
      split; [lia|]. split; [intros Hx; congruence|]. intros _.
      cbv zeta. rewrite TN0, TN1, TN2, TN3, RN0, RN1, RN2, RN3. lia.
    - destruct (Nat.lt_ge_cases j (length (BVH.b_nodes st))) as [Hlt|Hge].
      + rewrite Hold in Hj by assumption.
        destruct (Hlay _ _ Hj) as (Q1 & Q2 & Q3).
        assert (HndjOK : nodeOK C (length (BVH.b_nodes st)) ndj).
        { rewrite Forall_forall in Hnodes. apply Hnodes.
          eapply list_elem_of_lookup_2. exact Hj. }
        destruct HndjOK as (Hj0 & _ & Hjin & _).
        unfold T1, R1. rewrite !extend_old by lia.
        split; [exact Q1|]. split; [exact Q2|]. intros Hz.
        specialize (Q3 Hz). specialize (Hjin Hz). cbv zeta in *.
        fold L in Hjin. rewrite !extend_old by lia. exact Q3.
      + assert (Hk : exists k, 0 <= k < 4 /\ j = Z.to_nat (L + k)).
        { exists (Z.of_nat j - L). split; lia. }
        destruct Hk as (k & Hk & ->). rewrite Hleaf in Hj by exact Hk.
        assert (Hkc : k = 0 \/ k = 1 \/ k = 2 \/ k = 3) by lia.
        destruct Hkc as [-> | [-> | [-> | ->]]]; simpl in Hj;
          injection Hj as <-; cbn [numTriangles idx BVH.leafNode];
          rewrite ?TN0, ?TN1, ?TN2, ?TN3, ?RN0, ?RN1, ?RN2, ?RN3;
          (split; [lia|]); (split; [intros _; split; reflexivity|]);
          intros Hz; lia. }
  assert (Hagree1 : forall j : nat,
            (j < length (BVH.b_nodes st))%nat -> T1 j = T j /\ R1 j = R j).
  { intros j Hj. unfold T1, R1. rewrite !extend_old by lia.
    split; reflexivity. }
  (* one child call, from the induction hypothesis *)
  assert (Hchild : forall (k ik nk : Z) (ck : float) (stk : BVH.Build)
                          (Tk Rk : nat -> Z),
    0 <= k < 4 -> 0 <= ik -> 1 <= nk <= numTriangles nd - 3 ->
    buildOK C stk ->
    3 * Z.of_nat (length (BVH.b_nodes stk)) + 4 * nk <= 3 * 2 ^ 32 - 3 ->
    BVH.b_nodes stk !! Z.to_nat nodeIdx = Some inner ->
    BVH.b_nodes stk !! Z.to_nat (L + k) = Some (BVH.leafNode ik nk) ->
    layoutOK Tk Rk (BVH.b_nodes stk) ->
    exists st',
      BVH.split fuel rootBounds (Some nodeIdx) k ck stk = Some st'
      /\ splitPost C (L + k) nk stk st'
      /\ splitLayout Tk Rk stk st').
  { intros k ik nk ck stk Tk Rk Hk Hik Hnk Hokk Hbk Hink Hleafk Hlayk.
    apply (IH stk (Some nodeIdx) k (L + k) ck (BVH.leafNode ik nk) Tk Rk).
    - exact Hokk.
    - simpl. split; [exact Hidx0|]. exists inner. split; [exact Hink|].
      reflexivity.
    - lia.
    - exact Hleafk.
    - simpl. lia.
    - simpl. exact Hbk.
    - exact Hlayk. }
  (* child 0 *)
  destruct (Hchild 0 (idx nd) a (BVH.leftCost bestLeft)
              (BVH.mkBuild tris3 centers3 nodes1) T1 R1)
    as (st2 & -> & (Hok2 & Hle2 & Hb2 & Hf2) & Q2 & T2 & R2 & Hlay2 & Ag2);
    [lia|lia|lia|exact Hok1|simpl; lia|exact Hinner1
    |simpl; rewrite Hleaf by lia; reflexivity|exact Hlay1|].
  cbn [mbind option_bind]. simpl in Hle2, Hb2, Hf2, Q2, Ag2.
  (* child 1 *)
  destruct (Hchild 1 (idx nd + a) b (BVH.rightCost bestLeft) st2 T2 R2)
    as (st3 & -> & (Hok3 & Hle3 & Hb3 & Hf3) & Q3 & T3 & R3 & Hlay3 & Ag3);
    [lia|lia|lia|exact Hok2|lia
    |rewrite Hf2 by lia; exact Hinner1
    |rewrite Hf2 by lia; rewrite Hleaf by lia; reflexivity|exact Hlay2|].
  cbn [mbind option_bind].
  (* child 2 *)
  destruct (Hchild 2 (idx nd + a + b) c (BVH.leftCost bestRight) st3 T3 R3)
    as (st4 & -> & (Hok4 & Hle4 & Hb4 & Hf4) & Q4 & T4 & R4 & Hlay4 & Ag4);
    [lia|lia|lia|exact Hok3|lia
    |rewrite Hf3, Hf2 by lia; exact Hinner1
    |rewrite Hf3, Hf2 by lia; rewrite Hleaf by lia; reflexivity
    |exact Hlay3|].
  cbn [mbind option_bind].
  (* child 3 *)
  destruct (Hchild 3 (idx nd + a + b + c) d (BVH.rightCost bestRight)
              st4 T4 R4)
    as (st5 & -> & (Hok5 & Hle5 & Hb5 & Hf5) & Q5 & T5 & R5 & Hlay5 & Ag5);
    [lia|lia|lia|exact Hok4|lia
    |rewrite Hf4, Hf3, Hf2 by lia; exact Hinner1
    |rewrite Hf4, Hf3, Hf2 by lia; rewrite Hleaf by lia; reflexivity
    |exact Hlay4|].
  exists st5. split; [reflexivity|]. split.
  - split; [exact Hok5|]. split; [lia|]. split; [lia|].
    intros j Hj Hne.
    rewrite Hf5, Hf4, Hf3, Hf2 by lia. apply Hold; assumption.
  - split.
    + rewrite Q5, Q4, Q3, Q2. exact P3.
    + exists T5, R5. split; [exact Hlay5|]. intros j Hj.
      destruct (Ag5 j ltac:(lia)) as [-> ->].
      destruct (Ag4 j ltac:(lia)) as [-> ->].
      destruct (Ag3 j ltac:(lia)) as [-> ->].
      destruct (Ag2 j ltac:(lia)) as [-> ->].
      apply Hagree1. exact Hj.
Qed.
End SplitLayout.

Lemma build_builtOK (meshTriangles : list Mesh.Triangle)
    (startIdx count : Z) :
  0 <= startIdx -> 1 <= count < 2 ^ 31 ->
  startIdx + count <= Z.of_nat (length meshTriangles) ->
  exists bvh,
    BVH.build meshTriangles startIdx count = Some bvh
    /\ builtOK meshTriangles startIdx count bvh.
Proof.
  intros Hstart Hcount Hslice. unfold BVH.build, builtOK.
  fold (sliceTriangles meshTriangles startIdx count).
  set (slice := take (Z.to_nat count)
                     (drop (Z.to_nat startIdx) meshTriangles)).
  assert (Hlen : length slice = Z.to_nat count)
    by (unfold slice; rewrite length_take, length_drop; lia).
  destruct (decide _) as [_|Hn]; [|exfalso; apply Hn; lia].
  set (tris := sliceTriangles meshTriangles startIdx count).
  assert (Htl : length tris = Z.to_nat count)
    by (unfold tris, sliceTriangles; rewrite length_imap; exact Hlen).
  set (rootBounds := fold_left BVH.fitTriangle tris AABB.empty).
  set (root := BVHData.mkNode AABB4.empty 0 (Int.u32 count)).
  assert (Hroot : BVHData.numTriangles root = count)
    by (unfold root; simpl; apply u32_small; lia).
  destruct (split_layout count ltac:(lia) rootBounds (S (Z.to_nat count))
              (BVH.mkBuild tris (map BVH.center tris) [root])
              None 0 0
              (F32.mul (F32.of_Z (BVHData.numTriangles root))
                       (AABB.halfArea rootBounds))
              root (fun _ => count) (fun _ => 0))
    as (st & Hsplit & (Hok & Hle & Hb & _) & Hperm & T & R & Hlay & Hag).
  - split; [|split]; simpl.
    + lia.
    + rewrite length_map. lia.
    + constructor; [|constructor]. unfold nodeOK. rewrite Hroot.
      simpl. lia.
  - reflexivity.
  - lia.
  - reflexivity.
  - rewrite Hroot. lia.
  - unfold nodeBudget. rewrite Hroot. simpl. lia.
  - intros i nd Hi. destruct i as [|i]; [|discriminate].
    injection Hi as <-. rewrite Hroot. simpl.
    split; [lia|]. split; [intros _; split; reflexivity|]. lia.
  - rewrite Hsplit. cbn [mbind option_bind].
    eexists. split; [reflexivity|]. simpl.
    destruct Hok as (Ht & _ & Hnodes). rewrite Hroot in Hb.
    simpl in Hle, Hb, Hperm, Hag.
    split; [exact Ht|]. split; [exact Hnodes|]. split; [lia|].
    split; [exact Hperm|]. exists T, R. split; [exact Hlay|].
    destruct (Hag 0%nat ltac:(lia)) as [-> ->]. split; reflexivity.
Qed.

(** ** BVH traversal: the loop ends and reads inside the arrays *)

Section Termination.
Import BVHData.

Lemma intersectLeaf_total (bvh : BVHData.t) (ray : Ray) (mn mx : float)
    (n : nat) :
  forall (i : Z) (c : option BVH.HitInfo),
  0 <= i -> i + Z.of_nat n <= Z.of_nat (length (triangles bvh)) ->
  i + Z.of_nat n < 2 ^ 32 ->
  is_Some (BVH.intersectLeaf n bvh ray mn mx i c).
Proof.
  induction n as [|n IH]; intros i c Hi Hlen Hmax; simpl.
  - eexists; reflexivity.
  - rewrite at_lookup by exact Hi.
    destruct (lookup_lt_is_Some_2 (triangles bvh) (Z.to_nat i)) as [tri ->];
      [lia|].
    simpl. rewrite u32_small by lia. apply IH; lia.
Qed.

Lemma pushHits_stackOK (node : Node) (n : nat) :
  forall (hit : AABB4.HitInfo) (stack : BVH.TraversalStack),
  stackOK (Z.of_nat n) stack -> stackOK 0 (BVH.pushHits n node hit stack).
Proof.
  induction n as [|n IH]; intros hit stack Hok; simpl; [exact Hok|].
  destruct (BVH.nextClosest hit) as [[b|] dist].
  - apply IH.
    apply (push_contents (Z.of_nat n)); [lia|].
    replace (Z.of_nat n + 1) with (Z.of_nat (S n)) by lia. exact Hok.
  - destruct Hok as [H1 H2]. split; lia.
Qed.

Lemma potential_app (T : nat -> Z) (es fs : list BVH.StackInfo) :
  potential T (es ++ fs) = potential T es + potential T fs.
Proof.
  unfold potential. induction es as [|e es IH]; simpl; [reflexivity|].
  rewrite IH. lia.
Qed.

Lemma potential_length (T : nat -> Z) (nodes : list Node)
    (R : nat -> Z) (es : list BVH.StackInfo) :
  layoutOK T R nodes -> entriesOK nodes es ->
  Z.of_nat (length es) <= potential T es.
Proof.
  intros Hlay Hes. unfold entriesOK in Hes.
  induction Hes as [|e es Hx _ IH]; simpl; [lia|].
  destruct Hx as [_ [nd He]].
  destruct (Hlay _ _ He) as (HT & _). unfold weight. lia.
Qed.

(** The weights of the children pushed add up to less than the weight of
    their parent. *)
Lemma lanes_weight (f : Z -> Z) (lanes : list Z) :
  (forall k, 0 <= k <= 3 -> 0 <= f k) -> NoDup lanes ->
  Forall (fun l => 0 <= l <= 3) lanes ->
  foldr (fun l acc => f l + acc) 0 lanes <= f 0 + f 1 + f 2 + f 3.
Proof.
  intros Hf Hnd Hfa.
  assert (Hsub : lanes ⊆+ [0; 1; 2; 3]).
  { apply NoDup_submseteq; [exact Hnd|]. intros x Hx.
    rewrite Forall_forall in Hfa. specialize (Hfa x Hx).
    assert (Hc : x = 0 \/ x = 1 \/ x = 2 \/ x = 3) by lia.
    destruct Hc as [-> | [-> | [-> | ->]]];
      repeat (constructor || apply list_elem_of_further). }
  assert (Hmono : forall l k : list Z, l ⊆+ k ->
            (forall x, x ∈ k -> 0 <= f x) ->
            foldr (fun l acc => f l + acc) 0 l
            <= foldr (fun l acc => f l + acc) 0 k).
  { intros l k H. induction H as [|x l k H IH|x y l|x l k H IH|l k m H1 IH1 H2 IH2];
      intros Hk; simpl.
    - lia.
    - specialize (IH (fun z Hz => Hk z (list_elem_of_further _ _ _ Hz))).
      lia.
    - lia.
    - specialize (IH (fun z Hz => Hk z (list_elem_of_further _ _ _ Hz))).
      pose proof (Hk x (list_elem_of_here _ _)). lia.
    - specialize (IH2 Hk).
      assert (Hk' : forall x, x ∈ k -> 0 <= f x).
      { intros x Hx. apply Hk. eapply elem_of_submseteq; eassumption. }
      specialize (IH1 Hk'). lia. }
  assert (H4 : forall x, x ∈ [0; 1; 2; 3] -> 0 <= f x).
  { intros x Hx. apply Hf.
    rewrite !elem_of_cons, elem_of_nil in Hx. lia. }
  specialize (Hmono _ _ Hsub H4). simpl in Hmono. lia.
Qed.

Lemma contents_size (s : BVH.TraversalStack) :
  stackOK 0 s -> Z.of_nat (length (contents s)) = BVH._size s.
Proof.
  unfold stackOK, contents. intros [H _]. rewrite length_take. lia.
Qed.

Variable bvh : BVHData.t.
Variable C : Z.
Variables T R : nat -> Z.
Hypothesis C_range : 1 <= C < 2 ^ 31.
Hypothesis Htris : Z.of_nat (length (triangles bvh)) = C.
Hypothesis Hnodes : Forall (nodeOK C (length (nodes bvh))) (nodes bvh).
Hypothesis Hsize : Z.of_nat (length (nodes bvh)) < 2 ^ 32.
Hypothesis Hlay : layoutOK T R (nodes bvh).

Lemma traverse_total (ray : Ray) (mn mx : float) (fuel : nat) :
  forall (stack : BVH.TraversalStack) (c : option BVH.HitInfo),
  stackOK 0 stack ->
  entriesOK (nodes bvh) (contents stack) ->
  potential T (contents stack) <= Z.of_nat fuel ->
  potential T (contents stack) <= 2 ^ 33 ->
  exists r stack',
    BVH.traverse fuel bvh ray mn mx stack c = Some (r, stack')
    /\ BVH.empty stack' = true.
Proof.
  induction fuel as [|fuel IH]; intros stack c Hok Hes Hpot Hbound.
  - pose proof (potential_length T (nodes bvh) R _ Hlay Hes) as Hl.
    rewrite contents_size in Hl by exact Hok.
    assert (Hz : BVH._size stack = 0) by (destruct Hok as [[? ?] ?]; lia).
    simpl. unfold BVH.empty. rewrite Hz. simpl. eexists _, _.
    split; [reflexivity|]. simpl. rewrite Hz. reflexivity.
  - cbn [BVH.traverse]. destruct (BVH.empty stack) eqn:Eempty.
    { eexists _, _. split; [reflexivity|exact Eempty]. }
    unfold BVH.empty in Eempty. apply Z.eqb_neq in Eempty.
    destruct (stack_nonempty stack Hok Eempty)
      as (rest & e & Hc & Htop & Hpop & Hok1).
    rewrite Htop. cbn [mbind option_bind].
    rewrite Hc in Hes, Hpot, Hbound.
    apply Forall_app in Hes. destruct Hes as [Hrest He].
    rewrite Forall_singleton in He. destruct He as [He0 [node Hnode]].
    rewrite potential_app in Hpot, Hbound.
    change (potential T [e]) with (weight T e + 0) in Hpot, Hbound.
    destruct (Hlay _ _ Hnode) as (HT1 & HTleaf & HTinner).
    assert (Hw : 1 <= weight T e) by (unfold weight; lia).
    assert (Hok0 : stackOK 0 (BVH.pop stack))
      by (destruct Hok1 as [? ?]; split; lia).
    assert (Hskip : exists r stack',
              BVH.traverse fuel bvh ray mn mx (BVH.pop stack) c
              = Some (r, stack') /\ BVH.empty stack' = true).
    { apply IH; [exact Hok0|rewrite Hpop; exact Hrest
                |rewrite Hpop; lia|rewrite Hpop; lia]. }
    destruct (match c with
              | Some c0 => F32.ltb (BVH.distance c0) (BVH.s_distance e)
              | None => false
              end); [exact Hskip|].
    rewrite at_lookup, Hnode by exact He0. cbn [mbind option_bind].
    assert (HnodeOK : nodeOK C (length (nodes bvh)) node).
    { rewrite Forall_forall in Hnodes. apply Hnodes.
      eapply list_elem_of_lookup_2. exact Hnode. }
    destruct HnodeOK as (Hi0 & Hn0 & Hinner & Hleaf).
    unfold isLeaf. destruct (numTriangles node =? 0) eqn:Ez; simpl.
    + (* internal node *)
      apply Z.eqb_eq in Ez. specialize (Hinner Ez). specialize (HTinner Ez).
      cbv zeta in HTinner.
      destruct HTinner as (_ & _ & _ & _ & HTsum).
      pose proof (potential_length T (nodes bvh) R _ Hlay Hrest) as Hl.
      assert (Hsz : Z.of_nat (length rest) = BVH._size (BVH.pop stack))
        by (rewrite <- Hpop; apply contents_size; exact Hok0).
      assert (Hok4 : stackOK (Z.of_nat 4) (BVH.pop stack)).
      { destruct Hok0 as [H1 H2]. split; [exact H1|]. lia. }
      destruct (pushHits_spec node 4
                  (AABB4.intersect (childBounds node) ray)
                  (BVH.pop stack) Hok4)
        as (lanes & Hcont & _ & Hnd & Hfa & _).
      pose proof (pushHits_stackOK node 4
                    (AABB4.intersect (childBounds node) ray)
                    (BVH.pop stack) Hok4) as Hok'.
      fold (BVH.pushHitChildren node ray (BVH.pop stack)) in Hcont, Hok'.
      set (hit := AABB4.intersect (childBounds node) ray) in *.
      assert (Hlanes : Forall (fun l => 0 <= l <= 3) lanes)
        by (eapply Forall_impl; [exact Hfa|]; simpl; tauto).
      assert (Hpot' : potential T (map (entry node hit) lanes)
                      <= weight T e - 3).
      { pose proof (lanes_weight
                      (fun l => 2 * T (Z.to_nat (idx node + l)) - 1)
                      lanes) as Hlw.
        assert (Heq : potential T (map (entry node hit) lanes)
                      = foldr (fun l acc =>
                                 (2 * T (Z.to_nat (idx node + l)) - 1) + acc)
                              0 lanes).
        { clear Hlw Hcont Hnd Hfa. unfold potential.
          induction Hlanes as [|l ls Hl' _ IHl]; simpl; [reflexivity|].
          rewrite IHl. unfold weight, entry. simpl.
          rewrite u32_small by lia. reflexivity. }
        rewrite Heq.
        assert (Hchild : forall k, 0 <= k <= 3 ->
                  1 <= T (Z.to_nat (idx node + k))).
        { intros k Hk.
          destruct (lookup_lt_is_Some_2 (nodes bvh) (Z.to_nat (idx node + k)))
            as [ch Hch]; [lia|].
          destruct (Hlay _ _ Hch) as (H1 & _). exact H1. }
        pose proof (Hchild 0 ltac:(lia)). pose proof (Hchild 1 ltac:(lia)).
        pose proof (Hchild 2 ltac:(lia)). pose proof (Hchild 3 ltac:(lia)).
        assert (Hnonneg : forall k,
                  0 <= k <= 3 -> 0 <= 2 * T (Z.to_nat (idx node + k)) - 1)
          by (intros k Hk; specialize (Hchild k Hk); lia).
        specialize (Hlw Hnonneg Hnd Hlanes). simpl in Hlw.
        unfold weight. rewrite HTsum. lia. }
      apply IH.
      * exact Hok'.
      * rewrite Hcont, Hpop. apply Forall_app. split; [exact Hrest|].
        apply Forall_map. eapply Forall_impl; [exact Hlanes|].
        intros l Hl'. cbv beta in Hl'. unfold entry. cbn [BVH.s_idx].
        rewrite (u32_small (idx node + l)) by lia.
        split; [lia|]. apply lookup_lt_is_Some_2. lia.
      * rewrite Hcont, Hpop, potential_app. lia.
      * rewrite Hcont, Hpop, potential_app. lia.
    + (* leaf *)
      apply Z.eqb_neq in Ez. specialize (Hleaf Ez).
      rewrite (u32_small (idx node + numTriangles node)) by lia.
      destruct (intersectLeaf_total bvh ray mn mx
                  (Z.to_nat (idx node + numTriangles node - idx node))
                  (idx node) c) as [c' Hc']; [lia|lia|lia|].
      rewrite Hc'. cbn [mbind option_bind].
      apply IH; [exact Hok0|rewrite Hpop; exact Hrest
                |rewrite Hpop; lia|rewrite Hpop; lia].
Qed.
End Termination.

(** X20: on the BVH built over a non-empty slice of [count] triangles,
    [BVH::intersect] returns for every ray: its loop ends after at most
    [2 count - 1] iterations, no read leaves the node or the triangle
    array, and the worker's stack is empty again afterwards. *)
Theorem bvh_intersect_terminates (meshTriangles : list Mesh.Triangle)
    (startIdx count : Z) (ray : Ray) (minDistance maxDistance : float)
    (stack : BVH.TraversalStack) :
  0 <= startIdx -> 1 <= count < 2 ^ 31 ->
  startIdx + count <= Z.of_nat (length meshTriangles) ->
  BVH._size stack = 0 ->
  exists bvh r stack',
    BVH.build meshTriangles startIdx count = Some bvh
    /\ BVH.intersect (Z.to_nat (2 * count - 1)) bvh ray
         minDistance maxDistance stack = Some (r, stack')
    /\ BVH.empty stack' = true.
Proof.
  intros Hstart Hcount Hslice Hempty.
  destruct (build_builtOK meshTriangles startIdx count Hstart Hcount Hslice)
    as (bvh & Hbuild & Htris & Hnodes & Hlen & _ & T & R & Hlay & HT0 & _).
  exists bvh. unfold BVH.intersect.
  destruct (AABB.intersect (BVHData.rootBounds bvh) ray) as [d|].
  - assert (Hok : stackOK 1 stack)
      by (unfold stackOK; rewrite Hempty; lia).
    destruct (push_contents 0 stack (BVH.mkStackInfo 0 d) ltac:(lia) Hok)
      as [Hc Hok'].
    assert (Hcs : contents stack = [])
      by (unfold contents; rewrite Hempty; reflexivity).
    rewrite Hcs in Hc. simpl in Hc.
    assert (Hsize : Z.of_nat (length (BVHData.nodes bvh)) < 2 ^ 32) by lia.
    destruct (traverse_total bvh count T R Hcount Htris Hnodes Hsize
                Hlay ray minDistance maxDistance
                (Z.to_nat (2 * count - 1))
                (BVH.push stack (BVH.mkStackInfo 0 d)) None Hok')
      as (r & stack' & Hr & He).
    + rewrite Hc. constructor; [|constructor]. simpl. split; [lia|].
      apply lookup_lt_is_Some_2. lia.
    + rewrite Hc. unfold potential, weight. cbn [foldr BVH.s_idx].
      change (Z.to_nat 0) with 0%nat. rewrite HT0. lia.
    + rewrite Hc. unfold potential, weight. cbn [foldr BVH.s_idx].
      change (Z.to_nat 0) with 0%nat. rewrite HT0. lia.
    + exists r, stack'. auto.
  - exists None, stack. split; [exact Hbuild|]. split; [reflexivity|].
    unfold BVH.empty. rewrite Hempty. reflexivity.
Qed.

Lemma bvh_intersect_terminates_witness :
  0 <= 0 /\ 1 <= 8 < 2 ^ 31
  /\ 0 + 8 <= Z.of_nat (length rowOfEight)
  /\ BVH._size BVH.emptyStack = 0
  /\ exists bvh r stack',
       BVH.build rowOfEight 0 8 = Some bvh
       /\ BVH.intersect (Z.to_nat (2 * 8 - 1)) bvh rayAlongX
            F32.zero FLT_MAX BVH.emptyStack = Some (r, stack')
       /\ BVH.empty stack' = true.
Proof.
  assert (H1 : 0 <= 0) by lia.
  assert (H2 : 1 <= 8 < 2 ^ 31) by lia.
  assert (H3 : 0 + 8 <= Z.of_nat (length rowOfEight)) by (simpl; lia).
  assert (H4 : BVH._size BVH.emptyStack = 0) by reflexivity.
  split; [exact H1|]. split; [exact H2|]. split; [exact H3|].
  split; [exact H4|].
  apply (bvh_intersect_terminates rowOfEight 0 8 rayAlongX F32.zero FLT_MAX
           BVH.emptyStack H1 H2 H3 H4).
Defined.

(** ** BVH construction: no triangle is lost *)

Lemma sliceTriangles_tidx_gen (l : list Mesh.Triangle) : forall s : Z,
  map BVHData.tidx
      (imap (fun i (t : Mesh.Triangle) =>
               BVHData.mkTriangle (Mesh.positions t) (s + Z.of_nat i)) l)
  = seqZ s (Z.of_nat (length l)).
Proof.
  induction l as [|t l IH]; intros s; [reflexivity|].
  rewrite imap_cons. cbn [map length BVHData.tidx].
  rewrite seqZ_cons by lia. f_equal; [lia|].
  replace (Z.pred (Z.of_nat (S (length l)))) with (Z.of_nat (length l))
    by lia.
  rewrite <- (IH (Z.succ s)). f_equal. apply imap_ext.
  intros i x _. simpl. f_equal. lia.
Qed.

(** X21: construction only reorders the triangles: the triangle array of
    the BVH is a permutation of the triangles of the slice, and the mesh
    indices it carries are [startIdx], ..., [startIdx + count - 1], each
    once. *)
Theorem bvh_build_keeps_every_triangle (meshTriangles : list Mesh.Triangle)
    (startIdx count : Z) :
  0 <= startIdx -> 1 <= count < 2 ^ 31 ->
  startIdx + count <= Z.of_nat (length meshTriangles) ->
  exists bvh,
    BVH.build meshTriangles startIdx count = Some bvh
    /\ BVHData.triangles bvh
       ≡ₚ sliceTriangles meshTriangles startIdx count
    /\ map BVHData.tidx (BVHData.triangles bvh) ≡ₚ seqZ startIdx count.
Proof.
  intros Hstart Hcount Hslice.
  destruct (build_builtOK meshTriangles startIdx count Hstart Hcount Hslice)
    as (bvh & Hbuild & _ & _ & _ & Hperm & _).
  exists bvh. split; [exact Hbuild|]. split; [exact Hperm|].
  rewrite Hperm. unfold sliceTriangles.
  rewrite sliceTriangles_tidx_gen, length_take, length_drop.
  replace (Z.of_nat (Z.to_nat count
                     `min` (length meshTriangles - Z.to_nat startIdx)))
    with count by lia.
  reflexivity.
Qed.

Lemma bvh_build_keeps_every_triangle_witness :
  0 <= 0 /\ 1 <= 8 < 2 ^ 31
  /\ 0 + 8 <= Z.of_nat (length rowOfEight)
  /\ exists bvh,
       BVH.build rowOfEight 0 8 = Some bvh
       /\ BVHData.triangles bvh ≡ₚ sliceTriangles rowOfEight 0 8
       /\ map BVHData.tidx (BVHData.triangles bvh) ≡ₚ seqZ 0 8.
Proof.
  assert (H1 : 0 <= 0) by lia.
  assert (H2 : 1 <= 8 < 2 ^ 31) by lia.
  assert (H3 : 0 + 8 <= Z.of_nat (length rowOfEight)) by (simpl; lia).
  split; [exact H1|]. split; [exact H2|]. split; [exact H3|].
  apply (bvh_build_keeps_every_triangle rowOfEight 0 8 H1 H2 H3).
Defined.

Lemma leaf_covers (nodes : list BVHData.Node) (C : Z) (T R : nat -> Z)
    (t : Z) :
  Forall (nodeOK C (length nodes)) nodes -> layoutOK T R nodes ->
  forall (n : nat) (j : nat),
  reachable nodes j -> (j < length nodes)%nat ->
  T j <= Z.of_nat n -> R j <= t < R j + T j ->
  exists (j' : nat) (nd : BVHData.Node),
    reachable nodes j' /\ nodes !! j' = Some nd
    /\ BVHData.isLeaf nd = true
    /\ BVHData.idx nd <= t < BVHData.idx nd + BVHData.numTriangles nd.
Proof.
  intros Hnodes Hlay. induction n as [|n IH]; intros j Hreach Hj HT Ht.
  - destruct (lookup_lt_is_Some_2 nodes j Hj) as [nd Hnd].
    destruct (Hlay _ _ Hnd) as (H1 & _). lia.
  - destruct (lookup_lt_is_Some_2 nodes j Hj) as [nd Hnd].
    destruct (Hlay _ _ Hnd) as (H1 & Hleaf & Hinner).
    assert (HndOK : nodeOK C (length nodes) nd).
    { rewrite Forall_forall in Hnodes. apply Hnodes.
      eapply list_elem_of_lookup_2. exact Hnd. }
    destruct HndOK as (Hi0 & Hn0 & Hin & _).
    destruct (Z.eq_dec (BVHData.numTriangles nd) 0) as [Ez|Ez].
    + specialize (Hinner Ez). specialize (Hin Ez). cbv zeta in Hinner.
      destruct Hinner as (R0 & R1 & R2 & R3 & HTsum).
      assert (Hleafb : BVHData.isLeaf nd = false)
        by (unfold BVHData.isLeaf; rewrite Ez; reflexivity).
      assert (Hchild : forall k, 0 <= k <= 3 ->
                1 <= T (Z.to_nat (BVHData.idx nd + k))).
      { intros k Hk.
        destruct (lookup_lt_is_Some_2 nodes
                    (Z.to_nat (BVHData.idx nd + k))) as [ch Hch]; [lia|].
        destruct (Hlay _ _ Hch) as (Hc1 & _). exact Hc1. }
      pose proof (Hchild 0 ltac:(lia)). pose proof (Hchild 1 ltac:(lia)).
      pose proof (Hchild 2 ltac:(lia)). pose proof (Hchild 3 ltac:(lia)).
      assert (Hk : exists k, 0 <= k <= 3
                /\ R (Z.to_nat (BVHData.idx nd + k)) <= t
                   < R (Z.to_nat (BVHData.idx nd + k))
                     + T (Z.to_nat (BVHData.idx nd + k))).
      { destruct (Z_lt_dec t (R (Z.to_nat (BVHData.idx nd + 1))));
          [exists 0; lia|].
        destruct (Z_lt_dec t (R (Z.to_nat (BVHData.idx nd + 2))));
          [exists 1; lia|].
        destruct (Z_lt_dec t (R (Z.to_nat (BVHData.idx nd + 3))));
          [exists 2; lia|exists 3; lia]. }
      destruct Hk as (k & Hk & Hrange).
      apply (IH (Z.to_nat (BVHData.idx nd + k))).
      * eapply reachable_child; eassumption.
      * lia.
      * assert (Hc : k = 0 \/ k = 1 \/ k = 2 \/ k = 3) by lia.
        destruct Hc as [-> | [-> | [-> | ->]]]; lia.
      * exact Hrange.
    + destruct (Hleaf Ez) as [HTn HRn].
      exists j, nd. split; [exact Hreach|]. split; [exact Hnd|].
      split; [unfold BVHData.isLeaf; apply negb_true_iff, Z.eqb_neq, Ez|].
      lia.
Qed.

(** X22: in the BVH built over [count] triangles every position [t] of
    the triangle array belongs to the range of a leaf that the traversal
    can reach from the root through child links: no triangle is left
    outside the tree. *)
Theorem bvh_every_triangle_is_in_a_leaf (meshTriangles : list Mesh.Triangle)
    (startIdx count t : Z) :
  0 <= startIdx -> 1 <= count < 2 ^ 31 ->
  startIdx + count <= Z.of_nat (length meshTriangles) ->
  0 <= t < count ->
  exists bvh (j : nat) (nd : BVHData.Node),
    BVH.build meshTriangles startIdx count = Some bvh
    /\ reachable (BVHData.nodes bvh) j
    /\ BVHData.nodes bvh !! j = Some nd
    /\ BVHData.isLeaf nd = true
    /\ BVHData.idx nd <= t < BVHData.idx nd + BVHData.numTriangles nd.
Proof.
  intros Hstart Hcount Hslice Ht.
  destruct (build_builtOK meshTriangles startIdx count Hstart Hcount Hslice)
    as (bvh & Hbuild & _ & Hnodes & Hlen & _ & T & R & Hlay & HT0 & HR0).
  destruct (leaf_covers (BVHData.nodes bvh) count T R t Hnodes Hlay
              (Z.to_nat count) 0%nat)
    as (j & nd & H1 & H2 & H3 & H4).
  - constructor.
  - lia.
  - lia.
  - lia.
  - exists bvh, j, nd. auto.
Qed.

Lemma bvh_every_triangle_is_in_a_leaf_witness :
  0 <= 0 /\ 1 <= 8 < 2 ^ 31
  /\ 0 + 8 <= Z.of_nat (length rowOfEight) /\ 0 <= 5 < 8
  /\ exists bvh (j : nat) (nd : BVHData.Node),
       BVH.build rowOfEight 0 8 = Some bvh
       /\ reachable (BVHData.nodes bvh) j
       /\ BVHData.nodes bvh !! j = Some nd
       /\ BVHData.isLeaf nd = true
       /\ BVHData.idx nd <= 5 < BVHData.idx nd + BVHData.numTriangles nd.
Proof.
  assert (H1 : 0 <= 0) by lia.
  assert (H2 : 1 <= 8 < 2 ^ 31) by lia.
  assert (H3 : 0 + 8 <= Z.of_nat (length rowOfEight)) by (simpl; lia).
  assert (H4 : 0 <= 5 < 8) by lia.
  split; [exact H1|]. split; [exact H2|]. split; [exact H3|].
  split; [exact H4|].
  apply (bvh_every_triangle_is_in_a_leaf rowOfEight 0 8 5 H1 H2 H3 H4).
Defined.

(** ** BVH construction and traversal together *)

(** X23: a hit reported by a BVH that was built over the slice
    [startIdx, startIdx + count) of a mesh names a triangle of that
    slice, and it is the answer of the triangle test for the mesh
    triangle at that index: the lookup [mesh.triangles[triangleIdx]] of
    [Scene::intersect] stays inside the mesh. *)
Theorem bvh_hit_names_mesh_triangle (meshTriangles : list Mesh.Triangle)
    (startIdx count : Z) (bvh : BVHData.t) (fuel : nat) (ray : Ray)
    (minDistance maxDistance : float)
    (stack stack' : BVH.TraversalStack) (h : BVH.HitInfo) :
  0 <= startIdx -> 1 <= count < 2 ^ 31 ->
  startIdx + count <= Z.of_nat (length meshTriangles) ->
  BVH.build meshTriangles startIdx count = Some bvh ->
  BVH.intersect fuel bvh ray minDistance maxDistance stack
    = Some (Some h, stack') ->
  startIdx <= BVH.triangleIdx h < startIdx + count
  /\ exists t : Mesh.Triangle,
       at_ meshTriangles (BVH.triangleIdx h) = Some t
       /\ BVH.doesRayIntersectTriangle ray
            (BVHData.mkTriangle (Mesh.positions t) (BVH.triangleIdx h))
            minDistance maxDistance = Some h.
Proof.
  intros Hstart Hcount Hslice Hbuild Hhit.
  destruct (build_builtOK meshTriangles startIdx count Hstart Hcount Hslice)
    as (bvh' & Hbuild' & _ & _ & _ & Hperm & _).
  rewrite Hbuild in Hbuild'. injection Hbuild' as <-.
  unfold BVH.intersect in Hhit.
  destruct (AABB.intersect _ ray) as [d|]; [|discriminate].
  pose proof (traverse_sound bvh ray minDistance maxDistance fuel _ _
                None (Some h) I Hhit) as (tri & Hin & Hh).
  destruct (triangle_hit_in_range ray tri _ _ h Hh) as (Hidx & _).
  apply list_elem_of_In in Hin. rewrite Hperm in Hin.
  unfold sliceTriangles in Hin.
  apply list_elem_of_lookup in Hin. destruct Hin as [i Hi].
  rewrite list_lookup_imap in Hi.
  destruct (take _ _ !! i) as [t|] eqn:Et; [|discriminate].
  simpl in Hi. injection Hi as <-. simpl in Hidx.
  pose proof (lookup_lt_Some _ _ _ Et) as Hlt.
  rewrite length_take, length_drop in Hlt.
  rewrite lookup_take_lt in Et by lia. rewrite lookup_drop in Et.
  rewrite Hidx. split; [lia|].
  exists t. split; [|exact Hh].
  rewrite at_lookup by lia.
  replace (Z.to_nat (startIdx + Z.of_nat i))
    with (Z.to_nat startIdx + i)%nat by lia.
  exact Et.
Qed.

Lemma bvh_hit_names_mesh_triangle_witness :
  exists bvh h stack',
    BVH.build [triangleAt 0] 0 1 = Some bvh
    /\ BVH.intersect 1 bvh rayDown F32.zero FLT_MAX BVH.emptyStack
       = Some (Some h, stack')
    /\ 0 <= BVH.triangleIdx h < 0 + 1
    /\ exists t : Mesh.Triangle,
         at_ [triangleAt 0] (BVH.triangleIdx h) = Some t
         /\ BVH.doesRayIntersectTriangle rayDown
              (BVHData.mkTriangle (Mesh.positions t) (BVH.triangleIdx h))
              F32.zero FLT_MAX = Some h.
Proof.
  destruct (BVH.build [triangleAt 0] 0 1) as [bvh|] eqn:Hb;
    [|vm_compute in Hb; discriminate].
  destruct (BVH.intersect 1 bvh rayDown F32.zero FLT_MAX BVH.emptyStack)
    as [[[h|] stack']|] eqn:Hi.
  - exists bvh, h, stack'. split; [reflexivity|]. split; [exact Hi|].
    apply (bvh_hit_names_mesh_triangle [triangleAt 0] 0 1 bvh 1 rayDown
             F32.zero FLT_MAX BVH.emptyStack stack' h);
      [lia | lia | simpl; lia | exact Hb | exact Hi].
  - exfalso. vm_compute in Hb. injection Hb as <-.
    vm_compute in Hi. discriminate.
  - exfalso. vm_compute in Hb. injection Hb as <-.
    vm_compute in Hi. discriminate.
Defined.

(** ** MLT: a stop request during [accumulate] *)

Lemma mutationLoop_stop gc crm stop (scene : Scene.t) (m : nat) :
  forall (k i : nat) (p : MLT.MLTProcess) (g : PCG32.Generator),
  stop (i + k)%nat = true ->
  MLT.mutationLoop gc crm stop (k + m) i scene p g
  = MLT.mutationLoop gc crm stop k i scene p g.
Proof.
  induction k as [|k IH]; intros i p g Hstop.
  - replace (i + 0)%nat with i in Hstop by lia.
    destruct m; simpl; [reflexivity|]. rewrite Hstop. reflexivity.
  - change (S k + m)%nat with (S (k + m)). cbn [MLT.mutationLoop].
    destruct (stop i); [reflexivity|].
    destruct (MLT._currentState p) as [current|]; [|reflexivity].
    cbn [mbind option_bind].
    destruct (crm scene current _ _ g) as [[[info lum] num] g1].
    destruct (MLT.accumulateStep gc _ current info g1)
      as [[[buffer current'] g2]|]; [|reflexivity].
    cbn [mbind option_bind]. apply IH.
    replace (S i + k)%nat with (i + S k)%nat by lia. exact Hstop.
Qed.

(** X24: when the renderer's stop flag is seen at iteration [k] of the
    mutation loop, [MLTProcess::accumulate] leaves the buffer, the
    luminance sum, the counter and the chain state as [k] iterations
    made them, and still adds the whole [numMutations / numPixels] to the
    worker's average sample count. *)
Theorem accumulate_counts_mutations_after_stop gc crm stop
    (scene : Scene.t) (numMutations : Z) (k : nat)
    (p p' : MLT.MLTProcess) (g g' : PCG32.Generator) :
  stop k = true -> (k <= Z.to_nat (Int.u64 numMutations))%nat ->
  MLT.mutationLoop gc crm stop k 0 scene p g = Some (p', g') ->
  MLT.accumulate gc crm stop scene numMutations p g
  = Some (MLT.mkProcess
            (MLT._accumulationBuffer p') (MLT._accumulatedLuminance p')
            (MLT._numNewPathMutations p')
            (F32.add (MLT.p_averageSamplesPerPixel p')
               (F32.div (F32.of_Z numMutations)
                  (F32.of_Z
                     (Int.u64
                        (Image._width (MLT._accumulationBuffer p')
                         * Image._height (MLT._accumulationBuffer p'))))))
            (MLT._currentState p') (MLT._mutationDistribution p'), g').
Proof.
  intros Hstop Hk Hloop. unfold MLT.accumulate.
  replace (Z.to_nat (Int.u64 numMutations))
    with (k + (Z.to_nat (Int.u64 numMutations) - k))%nat by lia.
  rewrite mutationLoop_stop by exact Hstop.
  rewrite Hloop. reflexivity.
Qed.

Lemma accumulate_counts_mutations_after_stop_witness :
  stopAtOnce 0%nat = true
  /\ (0 <= Z.to_nat (Int.u64 3))%nat
  /\ MLT.accumulate alwaysOne proposeBorder stopAtOnce sceneNoLights 3
       processInside PCG32.default
     = Some (MLT.mkProcess
               (MLT._accumulationBuffer processInside)
               (MLT._accumulatedLuminance processInside)
               (MLT._numNewPathMutations processInside)
               (F32.add (MLT.p_averageSamplesPerPixel processInside)
                  (F32.div (F32.of_Z 3)
                     (F32.of_Z
                        (Int.u64
                           (Image._width
                              (MLT._accumulationBuffer processInside)
                            * Image._height
                                (MLT._accumulationBuffer processInside))))))
               (MLT._currentState processInside)
               (MLT._mutationDistribution processInside), PCG32.default).
Proof.
  assert (H1 : stopAtOnce 0%nat = true) by reflexivity.
  assert (H2 : (0 <= Z.to_nat (Int.u64 3))%nat) by lia.
  split; [exact H1|]. split; [exact H2|].
  apply (accumulate_counts_mutations_after_stop alwaysOne proposeBorder
           stopAtOnce sceneNoLights 3 0 processInside processInside
           PCG32.default PCG32.default H1 H2).
  reflexivity.
Defined.

(** ** PathTracer: the blocks tile the frame *)

Lemma loopValues_negative (fuel : nat) (i bound step : Z) :
  - 2 ^ 31 <= i < 0 -> bound < 2 ^ 31 ->
  PathTracer.loopValues fuel i bound step = [].
Proof.
  intros Hi Hb. destruct fuel; [reflexivity|]. simpl.
  assert (H : Int.u64 i = i + 2 ^ 64).
  { unfold Int.u64. symmetry. apply (Z.mod_unique _ _ (-1)); lia. }
  rewrite H. destruct (Z.ltb_spec (i + 2 ^ 64) bound); [lia|reflexivity].
Qed.

Lemma i32_small (z : Z) : - 2 ^ 31 <= z < 2 ^ 31 -> Int.i32 z = z.
Proof.
  intros H. unfold Int.i32. rewrite Z.mod_small by lia. lia.
Qed.

Lemma i32_wrapped (z : Z) :
  2 ^ 31 <= z < 2 ^ 32 -> - 2 ^ 31 <= Int.i32 z < 0.
Proof.
  intros H. unfold Int.i32.
  assert (E : (z + 2 ^ 31) mod 2 ^ 32 = z - 2 ^ 31).
  { symmetry. apply (Z.mod_unique _ _ 1); lia. }
  rewrite E. lia.
Qed.

(** The loop variable runs through [i], [i + step], ... below [bound]. *)
Lemma loopValues_spec (bound step : Z) :
  0 <= bound < 2 ^ 31 -> 1 <= step < 2 ^ 31 ->
  forall (fuel : nat) (i : Z),
  0 <= i < 2 ^ 31 -> bound - i <= Z.of_nat fuel ->
  Sorted Z.lt (PathTracer.loopValues fuel i bound step)
  /\ forall x, x ∈ PathTracer.loopValues fuel i bound step
       <-> i <= x < bound /\ (x - i) mod step = 0.
Proof.
  intros Hb Hs. induction fuel as [|fuel IH]; intros i Hi Hfuel.
  - simpl. split; [constructor|]. intros x. rewrite elem_of_nil. lia.
  - simpl. destruct (Z.ltb_spec (Int.u64 i) bound) as [Hlt|Hge].
    + rewrite u64_small in Hlt by lia.
      destruct (Z_lt_dec (i + step) (2 ^ 31)) as [Hsmall|Hbig].
      * rewrite i32_small by lia.
        destruct (IH (i + step)) as [Hsorted Hin]; [lia|lia|].
        split.
        -- constructor; [exact Hsorted|].
           destruct (PathTracer.loopValues fuel (i + step) bound step)
             as [|y l] eqn:El; constructor.
           assert (Hy : y ∈ y :: l) by apply list_elem_of_here.
           apply Hin in Hy. lia.
        -- intros x. rewrite elem_of_cons, Hin. split.
           ++ intros [-> | [Hx Hm]].
              ** replace (i - i) with 0 by lia.
                 rewrite Z.mod_0_l by lia. lia.
              ** split; [lia|].
                 replace (x - i) with (x - (i + step) + 1 * step) by lia.
                 rewrite Z.mod_add by lia. exact Hm.
           ++ intros [Hx Hm].
              destruct (Z.eq_dec x i) as [->|Hne]; [left; reflexivity|].
              right.
              assert (Hq : x - i = step * ((x - i) / step))
                by (apply Z.div_exact; lia).
              assert (1 <= (x - i) / step) by nia.
              split; [nia|].
              replace (x - (i + step)) with (x - i + (-1) * step) by lia.
              rewrite Z.mod_add by lia. exact Hm.
      * rewrite loopValues_negative;
          [|apply i32_wrapped; lia|lia].
        split; [repeat constructor|].
        intros x. rewrite elem_of_cons, elem_of_nil. split.
        -- intros [-> | []]. replace (i - i) with 0 by lia.
           rewrite Z.mod_0_l by lia. lia.
        -- intros [Hx Hm]. left.
           destruct (Z.eq_dec x i) as [->|Hne]; [reflexivity|].
           assert (Hq : x - i = step * ((x - i) / step))
             by (apply Z.div_exact; lia).
           assert (1 <= (x - i) / step) by nia. nia.
    + rewrite u64_small in Hge by lia.
      split; [constructor|]. intros x. rewrite elem_of_nil. lia.
Qed.

Lemma Sorted_lt_NoDup (l : list Z) : Sorted Z.lt l -> NoDup l.
Proof.
  intros H. apply Sorted_StronglySorted in H; [|intros x y z; lia].
  induction H as [|x l _ IH Hall]; constructor; [|exact IH].
  intros Hx. rewrite Forall_forall in Hall. specialize (Hall x Hx). lia.
Qed.

(** The pixels of one block. *)
Lemma accumulateBlock_spec (width height x y bw : Z) :
  0 <= width < 2 ^ 31 -> 0 <= height < 2 ^ 31 ->
  0 <= x < 2 ^ 31 -> 0 <= y < 2 ^ 31 -> 0 <= bw < 2 ^ 31 ->
  NoDup (PathTracer.accumulateBlock width height x y bw)
  /\ forall px py,
       (px, py) ∈ PathTracer.accumulateBlock width height x y bw
       <-> (x <= px < Z.min width (x + bw))
           /\ (y <= py < Z.min height (y + bw)).
Proof.
  intros Hw Hh Hx Hy Hbw. unfold PathTracer.accumulateBlock.
  rewrite !i32_small, !u64_small by lia.
  destruct (loopValues_spec (Z.min height (y + bw)) 1
              ltac:(lia) ltac:(lia) (Z.to_nat height) y ltac:(lia)
              ltac:(lia)) as [Sj Hj].
  destruct (loopValues_spec (Z.min width (x + bw)) 1
              ltac:(lia) ltac:(lia) (Z.to_nat width) x ltac:(lia)
              ltac:(lia)) as [Si Hi].
  split.
  - apply NoDup_bind; [| |apply Sorted_lt_NoDup, Sj].
    + intros j1 j2 [px py] _ _ H1 H2.
      apply list_elem_of_bind in H1. destruct H1 as (i1 & H1 & _).
      apply list_elem_of_bind in H2. destruct H2 as (i2 & H2 & _).
      apply list_elem_of_singleton in H1, H2. congruence.
    + intros j _. apply NoDup_bind; [| |apply Sorted_lt_NoDup, Si].
      * intros i1 i2 [px py] _ _ H1 H2.
        apply list_elem_of_singleton in H1, H2. congruence.
      * intros i _. apply NoDup_singleton.
  - intros px py. rewrite list_elem_of_bind. split.
    + intros (j & H & Hjin). apply list_elem_of_bind in H.
      destruct H as (i & H & Hiin). apply list_elem_of_singleton in H.
      injection H as -> ->. apply Hj in Hjin. apply Hi in Hiin. lia.
    + intros [Hpx Hpy]. exists py. split.
      * apply list_elem_of_bind. exists px.
        split; [apply list_elem_of_singleton; reflexivity|].
        apply Hi. split; [lia|]. apply Z.mod_1_r.
      * apply Hj. split; [lia|]. apply Z.mod_1_r.
Qed.

(** The origins of the blocks. *)
Lemma blocks_spec (width height : Z) :
  0 <= width < 2 ^ 31 -> 0 <= height < 2 ^ 31 ->
  NoDup (PathTracer.blocks width height)
  /\ forall i j,
       (i, j) ∈ PathTracer.blocks width height
       <-> (0 <= i < width /\ i mod 32 = 0)
           /\ (0 <= j < height /\ j mod 32 = 0).
Proof.
  intros Hw Hh. unfold PathTracer.blocks, PathTracer.blockWidth.
  destruct (loopValues_spec height 32 ltac:(lia) ltac:(lia)
              (Z.to_nat height) 0 ltac:(lia) ltac:(lia)) as [Sj Hj].
  destruct (loopValues_spec width 32 ltac:(lia) ltac:(lia)
              (Z.to_nat width) 0 ltac:(lia) ltac:(lia)) as [Si Hi].
  split.
  - apply NoDup_bind; [| |apply Sorted_lt_NoDup, Sj].
    + intros j1 j2 [px py] _ _ H1 H2.
      apply list_elem_of_bind in H1. destruct H1 as (i1 & H1 & _).
      apply list_elem_of_bind in H2. destruct H2 as (i2 & H2 & _).
      apply list_elem_of_singleton in H1, H2. congruence.
    + intros j _. apply NoDup_bind; [| |apply Sorted_lt_NoDup, Si].
      * intros i1 i2 [px py] _ _ H1 H2.
        apply list_elem_of_singleton in H1, H2. congruence.
      * intros i _. apply NoDup_singleton.
  - intros i j. rewrite list_elem_of_bind. split.
    + intros (j' & H & Hjin). apply list_elem_of_bind in H.
      destruct H as (i' & H & Hiin). apply list_elem_of_singleton in H.
      injection H as -> ->. apply Hj in Hjin. apply Hi in Hiin.
      rewrite Z.sub_0_r in Hjin, Hiin. lia.
    + intros [Hpx Hpy]. exists j. split.
      * apply list_elem_of_bind. exists i.
        split; [apply list_elem_of_singleton; reflexivity|].
        apply Hi. rewrite Z.sub_0_r. lia.
      * apply Hj. rewrite Z.sub_0_r. lia.
Qed.

(** X25: on a frame of [width] x [height] pixels (both below 2^31) a call
    of [PathTracer::accumulate] that is not stopped writes every pixel of
    the frame exactly once and no position outside it, with the thread
    pool (blocks of 32 x 32) and without: no two blocks share a pixel. *)
Theorem pathtracer_blocks_tile_the_frame (pool : bool) (width height : Z) :
  0 <= width < 2 ^ 31 -> 0 <= height < 2 ^ 31 ->
  NoDup (PathTracer.accumulate pool width height)
  /\ forall x y,
       (x, y) ∈ PathTracer.accumulate pool width height
       <-> 0 <= x < width /\ 0 <= y < height.
Proof.
  intros Hw Hh. unfold PathTracer.accumulate. destruct pool.
  - destruct (blocks_spec width height Hw Hh) as [Nb Hb].
    assert (Hblock : forall i j, (i, j) ∈ PathTracer.blocks width height ->
              NoDup (PathTracer.accumulateBlock width height
                       (Int.u64 i) (Int.u64 j) PathTracer.blockWidth)
              /\ forall px py,
                   (px, py) ∈ PathTracer.accumulateBlock width height
                               (Int.u64 i) (Int.u64 j)
                               PathTracer.blockWidth
                   <-> (i <= px < Z.min width (i + 32))
                       /\ (j <= py < Z.min height (j + 32))).
    { intros i j Hij. apply Hb in Hij.
      rewrite !u64_small by lia.
      apply accumulateBlock_spec; unfold PathTracer.blockWidth; lia. }
    split.
    + apply NoDup_bind; [| |exact Nb].
      * intros [i1 j1] [i2 j2] [px py] H1 H2 P1 P2.
        pose proof (proj1 (Hb _ _) H1) as B1.
        pose proof (proj1 (Hb _ _) H2) as B2.
        apply (Hblock _ _ H1) in P1. apply (Hblock _ _ H2) in P2.
        assert (E1 : i1 = 32 * (i1 / 32)) by (apply Z.div_exact; lia).
        assert (E2 : i2 = 32 * (i2 / 32)) by (apply Z.div_exact; lia).
        assert (E3 : j1 = 32 * (j1 / 32)) by (apply Z.div_exact; lia).
        assert (E4 : j2 = 32 * (j2 / 32)) by (apply Z.div_exact; lia).
        f_equal; lia.
      * intros [i j] Hij. apply (Hblock i j Hij).
    + intros x y. rewrite list_elem_of_bind. split.
      * intros ([i j] & Hin & Hij).
        pose proof (proj1 (Hb _ _) Hij) as B.
        apply (Hblock _ _ Hij) in Hin. lia.
      * intros [Hx Hy]. exists (32 * (x / 32), 32 * (y / 32)).
        pose proof (Z.mod_pos_bound x 32 ltac:(lia)) as Mx.
        pose proof (Z.mod_pos_bound y 32 ltac:(lia)) as My.
        pose proof (Z.div_mod x 32 ltac:(lia)) as Dx.
        pose proof (Z.div_mod y 32 ltac:(lia)) as Dy.
        assert (Hij : (32 * (x / 32), 32 * (y / 32))
                        ∈ PathTracer.blocks width height).
        { apply Hb. rewrite !(Z.mul_comm 32), !Z.mod_mul by lia. lia. }
        split; [|exact Hij]. apply (Hblock _ _ Hij). lia.
  - destruct (accumulateBlock_spec width height 0 0 (Z.max width height))
      as [N H]; try lia.
    split; [exact N|]. intros x y. rewrite H. lia.
Qed.

Lemma pathtracer_blocks_tile_the_frame_witness :
  0 <= 40 < 2 ^ 31 /\ 0 <= 33 < 2 ^ 31
  /\ NoDup (PathTracer.accumulate true 40 33)
  /\ forall x y,
       (x, y) ∈ PathTracer.accumulate true 40 33
       <-> 0 <= x < 40 /\ 0 <= y < 33.
Proof.
  assert (H1 : 0 <= 40 < 2 ^ 31) by lia.
  assert (H2 : 0 <= 33 < 2 ^ 31) by lia.
  split; [exact H1|]. split; [exact H2|].
  apply (pathtracer_blocks_tile_the_frame true 40 33 H1 H2).
Defined.

(** ** AABB: what the slab test returns *)

Lemma slab_noNaN (mn mx o d : float) :
  nanZ (F32.div (F32.sub mn o) d) = 0 ->
  nanZ (F32.div (F32.sub mx o) d) = 0 ->
  nanZ (fst (AABB.slab mn mx o d)) = 0
  /\ nanZ (snd (AABB.slab mn mx o d)) = 0.
Proof.
  intros H1 H2. unfold AABB.slab.
  destruct (F32.gtb _ _); simpl; auto.
Qed.

Lemma slabs_noNaN (b : AABB.t) (ray : Ray) :
  Forall (fun q => isNaN q = false) (slabQuotients b ray) ->
  forall axis, 0 <= axis <= 2 ->
    nanZ (slabEntry b ray axis) = 0 /\ nanZ (slabExit b ray axis) = 0.
Proof.
  unfold slabQuotients. intros H.
  repeat (apply Forall_cons in H; destruct H as [?%nanZ_isNaN H]).
  intros axis Ha.
  assert (Hc : axis = 0 \/ axis = 1 \/ axis = 2) by lia.
  unfold slabEntry, slabExit.
  destruct Hc as [-> | [-> | ->]]; apply slab_noNaN; assumption.
Qed.

Lemma max3_largest (x y z : float) :
  let t := if F32.ltb x y then y else x in
  let t := if F32.ltb t z then z else t in
  (t = x \/ t = y \/ t = z)
  /\ F32.ltb t x = false /\ F32.ltb t y = false /\ F32.ltb t z = false.
Proof.
  cbv zeta.
  destruct (F32.ltb x y) eqn:Cxy.
  - destruct (F32.ltb y z) eqn:Cyz; (split; [auto|]);
      repeat split; float_order.
  - destruct (F32.ltb x z) eqn:Cxz; (split; [auto|]);
      repeat split; float_order.
Qed.

Lemma min3_smallest (x y z : float) :
  nanZ x = 0 -> nanZ y = 0 -> nanZ z = 0 ->
  let t := if F32.gtb x y then y else x in
  let t := if F32.gtb t z then z else t in
  (t = x \/ t = y \/ t = z)
  /\ F32.ltb x t = false /\ F32.ltb y t = false /\ F32.ltb z t = false.
Proof.
  intros Nx Ny Nz. cbv zeta.
  destruct (F32.gtb x y) eqn:Cxy.
  - destruct (F32.gtb y z) eqn:Cyz; (split; [auto|]);
      repeat split; float_order.
  - destruct (F32.gtb x z) eqn:Cxz; (split; [auto|]);
      repeat split; float_order.
Qed.

Lemma for_axes (P : Z -> Prop) :
  P 0 -> P 1 -> P 2 -> forall axis, 0 <= axis <= 2 -> P axis.
Proof.
  intros P0 P1 P2 axis Ha.
  assert (Hc : axis = 0 \/ axis = 1 \/ axis = 2) by lia.
  destruct Hc as [-> | [-> | ->]]; assumption.
Qed.

(** [t1] is one of the three entry values, and none of them is above
    it. *)
Lemma slabNear_largest (b : AABB.t) (ray : Ray) :
  (exists axis, 0 <= axis <= 2 /\ AABB.slabNear b ray = slabEntry b ray axis)
  /\ forall axis, 0 <= axis <= 2 ->
       F32.ltb (AABB.slabNear b ray) (slabEntry b ray axis) = false.
Proof.
  destruct (max3_largest (slabEntry b ray 0) (slabEntry b ray 1)
              (slabEntry b ray 2)) as (Hin & H0 & H1 & H2).
  change (AABB.slabNear b ray)
    with (let t := if F32.ltb (slabEntry b ray 0) (slabEntry b ray 1)
                   then slabEntry b ray 1 else slabEntry b ray 0 in
          if F32.ltb t (slabEntry b ray 2) then slabEntry b ray 2 else t).
  cbv zeta in *. split.
  - destruct Hin as [H | [H | H]];
      [exists 0|exists 1|exists 2]; (split; [lia|exact H]).
  - apply for_axes; assumption.
Qed.

(** [t2] is one of the three exit values, and when these are numbers none
    of them is below it. *)
Lemma slabFar_smallest (b : AABB.t) (ray : Ray) :
  (forall axis, 0 <= axis <= 2 -> nanZ (slabExit b ray axis) = 0) ->
  (exists axis, 0 <= axis <= 2 /\ AABB.slabFar b ray = slabExit b ray axis)
  /\ forall axis, 0 <= axis <= 2 ->
       F32.ltb (slabExit b ray axis) (AABB.slabFar b ray) = false.
Proof.
  intros HN.
  destruct (min3_smallest (slabExit b ray 0) (slabExit b ray 1)
              (slabExit b ray 2)) as (Hin & H0 & H1 & H2);
    try (apply HN; lia).
  change (AABB.slabFar b ray)
    with (let t := if F32.gtb (slabExit b ray 0) (slabExit b ray 1)
                   then slabExit b ray 1 else slabExit b ray 0 in
          if F32.gtb t (slabExit b ray 2) then slabExit b ray 2 else t).
  cbv zeta in *. split.
  - destruct Hin as [H | [H | H]];
      [exists 0|exists 1|exists 2]; (split; [lia|exact H]).
  - apply for_axes; assumption.
Qed.

(** C7, as amended: every fitted point lies inside the fitted box.  On a
    ray none of whose six slab quotients is NaN, a value [t] that
    [AABB::intersect] returns is the largest of the three entry values
    and lies in the slab interval of every axis (no exit value is below
    it), and [t] is not negative or no exit value is negative.  When some
    parameter [s >= 0] lies in the slab interval of every axis,
    [intersect] returns a value, and it is not above [s]. *)
Theorem aabb_fit_then_intersect (pts : list Vec3) (ray : Ray) :
  let b := fold_left AABB.fit pts AABB.empty in
  Forall (inside b) pts
  /\ (Forall (fun q => isNaN q = false) (slabQuotients b ray) ->
      forall t, AABB.intersect b ray = Some t ->
        (exists axis, 0 <= axis <= 2 /\ t = slabEntry b ray axis)
        /\ (forall axis, 0 <= axis <= 2 ->
              F32.ltb t (slabEntry b ray axis) = false
              /\ F32.gtb t (slabExit b ray axis) = false)
        /\ (F32.ltb t F32.zero = false
            \/ forall axis, 0 <= axis <= 2 ->
                 F32.ltb (slabExit b ray axis) F32.zero = false))
  /\ (forall s, inAllSlabs b ray s -> F32.leb F32.zero s = true ->
      exists t, AABB.intersect b ray = Some t /\ F32.leb t s = true).
Proof.
  intros b. split; [|split].
  - apply Forall_forall. intros p Hp. apply fold_fit_inside. right.
    apply list_elem_of_In, Hp.
  - intros HN t Ht.
    pose proof (slabs_noNaN b ray HN) as HNs.
    destruct (slabNear_largest b ray) as [Hin Hge].
    destruct (slabFar_smallest b ray (fun a Ha => proj2 (HNs a Ha)))
      as [(a2 & Ha2 & E2) Hle].
    unfold AABB.intersect in Ht.
    destruct (F32.gtb (AABB.slabNear b ray) (AABB.slabFar b ray)) eqn:G;
      [discriminate|].
    destruct (F32.ltb (AABB.slabNear b ray) F32.zero
              && F32.ltb (AABB.slabFar b ray) F32.zero) eqn:Z;
      [discriminate|].
    injection Ht as <-.
    split; [exact Hin|]. split.
    + intros axis Ha. split; [apply Hge, Ha|].
      specialize (Hle axis Ha).
      pose proof (proj2 (HNs axis Ha)) as N1.
      pose proof (proj2 (HNs a2 Ha2)) as N2. rewrite <- E2 in N2.
      float_order.
    + apply andb_false_iff in Z. destruct Z as [Z|Z]; [left; exact Z|].
      right. intros axis Ha. specialize (Hle axis Ha).
      pose proof (proj2 (HNs axis Ha)) as N1.
      pose proof (proj2 (HNs a2 Ha2)) as N2. rewrite <- E2 in N2.
      float_order.
  - intros s Hs H0.
    destruct (slabNear_largest b ray) as [(a1 & Ha1 & E1) _].
    assert (HNx : forall axis, 0 <= axis <= 2 ->
              nanZ (slabExit b ray axis) = 0).
    { intros axis Ha. destruct (Hs axis Ha) as [_ H].
      unfold F32.leb in H. apply leb_true in H. tauto. }
    destruct (slabFar_smallest b ray HNx) as [(a2 & Ha2 & E2) _].
    destruct (Hs a1 Ha1) as [L1 _]. destruct (Hs a2 Ha2) as [_ L2].
    rewrite <- E1 in L1. rewrite <- E2 in L2.
    unfold F32.leb in *. apply leb_true in L1, L2, H0.
    unfold AABB.intersect.
    assert (G : F32.gtb (AABB.slabNear b ray) (AABB.slabFar b ray) = false)
      by float_order.
    assert (Z : F32.ltb (AABB.slabFar b ray) F32.zero = false)
      by float_order.
    rewrite G, Z, andb_false_r.
    eexists. split; [reflexivity|]. apply leb_true. tauto.
Qed.

Lemma aabb_fit_then_intersect_witness :
  let b := fold_left AABB.fit cubePoints AABB.empty in
  Forall (fun q => isNaN q = false) (slabQuotients b rayFromCenter)
  /\ AABB.intersect b rayFromCenter = Some (zf (-1))
  /\ inAllSlabs b rayFromCenter F32.one
  /\ F32.leb F32.zero F32.one = true
  /\ Forall (inside b) cubePoints
  /\ ((exists axis, 0 <= axis <= 2
                    /\ zf (-1) = slabEntry b rayFromCenter axis)
      /\ (forall axis, 0 <= axis <= 2 ->
            F32.ltb (zf (-1)) (slabEntry b rayFromCenter axis) = false
            /\ F32.gtb (zf (-1)) (slabExit b rayFromCenter axis) = false)
      /\ (F32.ltb (zf (-1)) F32.zero = false
          \/ forall axis, 0 <= axis <= 2 ->
               F32.ltb (slabExit b rayFromCenter axis) F32.zero = false))
  /\ exists t, AABB.intersect b rayFromCenter = Some t
               /\ F32.leb t F32.one = true.
Proof.
  intros b.
  assert (H1 : Forall (fun q => isNaN q = false)
                 (slabQuotients b rayFromCenter))
    by (repeat constructor).
  assert (H2 : AABB.intersect b rayFromCenter = Some (zf (-1)))
    by (vm_compute; reflexivity).
  assert (H3 : inAllSlabs b rayFromCenter F32.one).
  { intros axis Ha.
    assert (Hc : axis = 0 \/ axis = 1 \/ axis = 2) by lia.
    destruct Hc as [-> | [-> | ->]]; split; vm_compute; reflexivity. }
  assert (H4 : F32.leb F32.zero F32.one = true) by reflexivity.
  split; [exact H1|]. split; [exact H2|]. split; [exact H3|].
  split; [exact H4|].
  pose proof (aabb_fit_then_intersect cubePoints rayFromCenter) as (A & B & C).
  split; [exact A|]. split; [exact (B H1 _ H2)|exact (C _ H3 H4)].
Defined.

(** ** BVH construction: when a node stays a leaf *)

Section SplitOutcome.
Import BVHData.
Variable C : Z.
Hypothesis C_range : 1 <= C < 2 ^ 31.
Variable rootBounds : AABB.t.

End SplitOutcome.









(** The decisions behind the two examples: the search finds nothing
    cheaper for the five coincident triangles, and the row of eight is
    split. *)
Lemma rootKeptLeaf_examples :
  rootKeptLeaf fiveCoincident 0 5 = true
  /\ rootKeptLeaf rowOfEight 0 8 = false.
Proof. split; vm_compute; reflexivity. Qed.

(** For the five coincident triangles every candidate plane has an empty
    side, and an empty side costs NaN. *)
Lemma five_coincident_no_cheaper_candidate :
  noCheaperRootCandidate fiveCoincident 0 5.
Proof.
  intros axis split Ha Hs.
  assert (Hc : axis = 0 \/ axis = 1 \/ axis = 2) by lia.
  assert (Hd : split = 0 \/ split = 1 \/ split = 2 \/ split = 3
               \/ split = 4) by lia.
  destruct Hc as [-> | [-> | ->]];
    destruct Hd as [-> | [-> | [-> | [-> | ->]]]];
    vm_compute; reflexivity.
Qed.

(** ** BVH traversal: the order of the pops *)

(** C3: on the BVH built over the eight wedges, the ray along the x-axis
    hits all four children of the root, at the near-distances 10, 30, 50
    and 70.  They are pushed in that order, nearest first, so the entry
    on top of the stack -- the first one popped -- is the farthest child,
    and the nearest child is popped last: the closer children are not
    processed before the farther ones.  The hit found in the end is
    triangle 0, nearer than 30: had its leaf been processed first, the
    test at the pop would have skipped the other three children. *)
Lemma bvh_farthest_child_popped_first :
  exists bvh root stack0,
    BVH.build rowOfWedges 0 8 = Some bvh
    /\ BVHData.nodes bvh !! 0%nat = Some root
    /\ BVHData.isLeaf root = false
    /\ stackAfterRoot bvh rayAlongX = Some stack0
    /\ let stack := BVH.pushHitChildren root rayAlongX stack0 in
       contents stack
       = [BVH.mkStackInfo 1 (zf 10); BVH.mkStackInfo 2 (zf 30);
          BVH.mkStackInfo 3 (zf 50); BVH.mkStackInfo 4 (zf 70)]
       /\ BVH.top stack = Some (BVH.mkStackInfo 4 (zf 70))
       /\ BVH.top (BVH.pop stack) = Some (BVH.mkStackInfo 3 (zf 50))
       /\ BVH.top (BVH.pop (BVH.pop stack))
          = Some (BVH.mkStackInfo 2 (zf 30))
       /\ BVH.top (BVH.pop (BVH.pop (BVH.pop stack)))
          = Some (BVH.mkStackInfo 1 (zf 10))
       /\ F32.ltb (zf 10) (zf 70) = true
       /\ option_map
            (fun r => option_map
                        (fun h => (BVH.triangleIdx h,
                                   F32.ltb (BVH.distance h) (zf 30)))
                        (fst r))
            (BVH.intersect 15 bvh rayAlongX F32.zero FLT_MAX
               BVH.emptyStack)
          = Some (Some (0, true)).
Proof.
  destruct (BVH.build rowOfWedges 0 8) as [bvh|] eqn:Hb;
    [|vm_compute in Hb; discriminate].
  vm_compute in Hb. injection Hb as <-.
  eexists _, _, _. split; [reflexivity|].
  split; [reflexivity|]. split; [reflexivity|].
  split; [vm_compute; reflexivity|].
  repeat split; vm_compute; reflexivity.
Qed.

(** ** Paths: no explicit vertex reaches [evaluate] *)








Section ImplicitPaths.
Variable sceneIntersect :
  Scene.t -> Ray -> float -> float -> option Scene.HitInfo.
Variable sampleDirection :
  MaterialData -> Vec3 -> Vertex -> PCG32.Generator ->
  (Ray * BounceType) * PCG32.Generator.
Variable generate_canonical : PCG32.Generator -> float * PCG32.Generator.
Variable scene : Scene.t.





End ImplicitPaths.


